(** * DevCopilot VS Code extension: the CLI-output parsers

    A shallow embedding of the three parsers that recover structured data
    from the rich-console text printed by the DevCopilot command line:

    - [parseSearchOutput] and [parseRagOutput]
      (devcopilot-vscode-release/src/cliIntegration.ts), and
    - [_parsePRSummary]
      (devcopilot-vscode-release/src/webview/resultsViewProvider.ts).

    JavaScript strings are sequences of UTF-16 code units, and regular
    expressions without the [u] flag work on code units; both are modelled
    that way.  Regular expressions are kept as syntax trees and run by a
    backtracking matcher with the priorities of ECMAScript (leftmost start,
    greedy or lazy quantifiers, alternatives left to right). *)

From Stdlib Require Import ZArith List Bool String Ascii Lia QArith.
Import ListNotations.

Local Open Scope Z_scope.

(* ===================================================================== *)
(** * JavaScript strings and the string methods the parsers call *)
(* ===================================================================== *)

Module JS.

(** A string is a list of UTF-16 code units. *)
Definition jsstring := list Z.

(** Decoding of a UTF-8 byte sequence into UTF-16 code units; a code point
    above U+FFFF becomes a surrogate pair.  It serves to write the string
    and pattern literals of the source as they stand in the source. *)
Fixpoint utf16 (bs : list Z) : jsstring :=
  match bs with
  | [] => []
  | b0 :: t0 =>
      if b0 <? 0x80 then b0 :: utf16 t0
      else
        match t0 with
        | [] => []
        | b1 :: t1 =>
            if b0 <? 0xE0 then ((b0 mod 32) * 64 + b1 mod 64) :: utf16 t1
            else
              match t1 with
              | [] => []
              | b2 :: t2 =>
                  if b0 <? 0xF0
                  then ((b0 mod 16) * 4096 + (b1 mod 64) * 64 + b2 mod 64) :: utf16 t2
                  else
                    match t2 with
                    | [] => []
                    | b3 :: t3 =>
                        let cp := (b0 mod 8) * 262144 + (b1 mod 64) * 4096
                                  + (b2 mod 64) * 64 + b3 mod 64 - 0x10000 in
                        (0xD800 + cp / 1024) :: (0xDC00 + cp mod 1024) :: utf16 t3
                    end
              end
        end
  end.

Definition js (s : string) : jsstring :=
  utf16 (map (fun a => Z.of_N (N_of_ascii a)) (list_ascii_of_string s)).

(** Equality of strings ([===] on two strings). *)
Fixpoint str_eqb (a b : jsstring) : bool :=
  match a, b with
  | [], [] => true
  | x :: a', y :: b' => (x =? y) && str_eqb a' b'
  | _, _ => false
  end.

(** Truthiness of a string: the empty string is falsy. *)
Definition truthy (s : jsstring) : bool :=
  match s with [] => false | _ :: _ => true end.

(** WhiteSpace and LineTerminator of ECMAScript: the characters removed by
    [trim] and matched by [\s]. *)
Definition is_ws (c : Z) : bool :=
  (c =? 9) || (c =? 10) || (c =? 11) || (c =? 12) || (c =? 13) || (c =? 32)
  || (c =? 0xA0) || (c =? 0x1680) || ((0x2000 <=? c) && (c <=? 0x200A))
  || (c =? 0x2028) || (c =? 0x2029) || (c =? 0x202F) || (c =? 0x205F)
  || (c =? 0x3000) || (c =? 0xFEFF).

Fixpoint trimStart (s : jsstring) : jsstring :=
  match s with
  | [] => []
  | c :: s' => if is_ws c then trimStart s' else s
  end.

Definition trimEnd (s : jsstring) : jsstring := rev (trimStart (rev s)).

(** [s.trim()] *)
Definition trim (s : jsstring) : jsstring := trimEnd (trimStart s).

(** [s.startsWith(p)] *)
Fixpoint startsWith (s p : jsstring) {struct p} : bool :=
  match p, s with
  | [], _ => true
  | _ :: _, [] => false
  | a :: p', b :: s' => (a =? b) && startsWith s' p'
  end.

(** [s.includes(p)] *)
Fixpoint includes (s p : jsstring) : bool :=
  startsWith s p || match s with [] => false | _ :: s' => includes s' p end.

(** [s.split(sep)] for a separator of one code unit. *)
Fixpoint split (sep : Z) (s : jsstring) : list jsstring :=
  match s with
  | [] => [[]]
  | c :: s' =>
      if c =? sep then [] :: split sep s'
      else match split sep s' with
           | l :: ls => (c :: l) :: ls
           | [] => [[c]]
           end
  end.

(** [a.join(sep)] *)
Fixpoint join (sep : jsstring) (a : list jsstring) : jsstring :=
  match a with
  | [] => []
  | [x] => x
  | x :: a' => x ++ sep ++ join sep a'
  end.

(** [s.substring(n)] *)
Definition substring (n : nat) (s : jsstring) : jsstring := skipn n s.

(** [s.replace(/\r/g, '')]: every carriage return is removed. *)
Definition remove_cr (s : jsstring) : jsstring :=
  filter (fun c => negb (c =? 13)) s.

(** [s.toLowerCase()] on the letters A-Z.  The parsers call it on the text
    matched by [(FUNCTION|CLASS)] only. *)
Definition toLowerCase (s : jsstring) : jsstring :=
  map (fun c => if (65 <=? c) && (c <=? 90) then c + 32 else c) s.

(** ** Numbers

    [parseInt] and [parseFloat] return a JavaScript number, a double.  An
    integer read by [parseInt] is rounded to the nearest double, to the even
    significand at a tie, and is an infinity from [2^1024 - 2^970] on: see
    [round_to_double].  For the decimal fraction read by [parseFloat] the
    model keeps the exact value as a rational where JavaScript rounds it;
    that rounding is monotone and keeps the sign and 0, which is all that is
    proved below of a value read by [parseFloat]. *)
Inductive number : Type :=
| NaN
| Infinity (negative : bool)
| Num (q : Q).

Definition int (z : Z) : number := Num (inject_Z z).

Definition is_digit (c : Z) : bool := (48 <=? c) && (c <=? 57).

Definition is_hex_digit (c : Z) : bool :=
  is_digit c || ((97 <=? c) && (c <=? 102)) || ((65 <=? c) && (c <=? 70)).

Definition digit_val (c : Z) : Z :=
  if is_digit c then c - 48
  else if (97 <=? c) && (c <=? 102) then c - 87
  else c - 55.

Fixpoint takeWhile (p : Z -> bool) (s : jsstring) : jsstring :=
  match s with
  | [] => []
  | c :: s' => if p c then c :: takeWhile p s' else []
  end.

Fixpoint dropWhile (p : Z -> bool) (s : jsstring) : jsstring :=
  match s with
  | [] => []
  | c :: s' => if p c then dropWhile p s' else s
  end.

Definition digits_value (radix : Z) (ds : jsstring) : Z :=
  fold_left (fun acc d => acc * radix + digit_val d) ds 0.

(** The optional sign at the head of a numeric text. *)
Definition split_sign (s : jsstring) : bool * jsstring :=
  match s with
  | c :: s' =>
      if c =? 45 then (true, s')
      else if c =? 43 then (false, s')
      else (false, s)
  | [] => (false, s)
  end.

(** The double that stands for the integer [n >= 0]: [n] itself while it
    has at most 53 significant bits; otherwise its 53 leading bits [m],
    rounded up when what is cut off is more than half a unit of [m], or is
    half a unit and [m] is odd; and the infinity when the rounded value
    cannot be written with an exponent of a double. *)
Definition round_to_double (n : Z) : number :=
  let e := Z.log2 n - 52 in
  if e <=? 0 then int n
  else
    let m := Z.shiftr n e in
    let r := n - Z.shiftl m e in
    let half := Z.shiftl 1 (e - 1) in
    let m' :=
      if (half <? r) || ((half =? r) && Z.odd m) then m + 1 else m in
    if 1024 <=? Z.log2 (Z.shiftl m' e) then Infinity false
    else int (Z.shiftl m' e).

(** [-x] *)
Definition negate (x : number) : number :=
  match x with
  | NaN => NaN
  | Infinity negative => Infinity (negb negative)
  | Num q => Num (- q)
  end.

(** [parseInt(s)] with no radix argument: leading white space, a sign, an
    optional [0x] prefix, then the longest run of digits, whose value is
    rounded to a double. *)
Definition parseInt (s : jsstring) : number :=
  let (neg, s1) := split_sign (trimStart s) in
  let (radix, s2) :=
    match s1 with
    | 48 :: 120 :: s' => (16, s')
    | 48 :: 88 :: s' => (16, s')
    | _ => (10, s1)
    end in
  let ds := takeWhile (if radix =? 16 then is_hex_digit else is_digit) s2 in
  match ds with
  | [] => NaN
  | _ :: _ =>
      let x := round_to_double (digits_value radix ds) in
      if neg then negate x else x
  end.

(** The exponent part [e], [e+] or [e-] followed by digits, if present. *)
Definition exponent_part (s : jsstring) : Z :=
  match s with
  | c :: s' =>
      if (c =? 101) || (c =? 69) then
        let (neg, s'') := split_sign s' in
        match takeWhile is_digit s'' with
        | [] => 0
        | ds => (if neg then -1 else 1) * digits_value 10 ds
        end
      else 0
  | [] => 0
  end.

(** The value [m * 10^e] as a reduced fraction. *)
Definition scale10 (m e : Z) : Q :=
  Qred (if 0 <=? e then inject_Z (m * 10 ^ e)
        else Qmake m (Z.to_pos (10 ^ (- e)))).

(** The digits after the decimal point, if there is one, and what follows
    them. *)
Definition fraction_part (s : jsstring) : jsstring * jsstring :=
  match s with
  | c :: s' =>
      if c =? 46 then (takeWhile is_digit s', dropWhile is_digit s')
      else ([], s)
  | [] => ([], s)
  end.

(** [parseFloat(s)]: leading white space, then the longest prefix that is a
    decimal literal (sign, [Infinity], digits, fraction, exponent). *)
Definition parseFloat (s : jsstring) : number :=
  let (neg, s1) := split_sign (trimStart s) in
  if startsWith s1 (js "Infinity") then Infinity neg
  else
    let ip := takeWhile is_digit s1 in
    let (fp, s3) := fraction_part (dropWhile is_digit s1) in
    match ip ++ fp with
    | [] => NaN
    | ds =>
        Num (scale10 ((if neg then -1 else 1) * digits_value 10 ds)
                     (exponent_part s3 - Z.of_nat (List.length fp)))
    end.

(** [x || 0] on a number: NaN and zero are falsy. *)
Definition or_zero (x : number) : number :=
  match x with
  | NaN => int 0
  | Num q => if Qeq_bool q 0 then int 0 else x
  | Infinity _ => x
  end.

(** ** Completions

    A call returns a value or throws.  The only exception the parsers can
    raise is the TypeError of reading a property of [null] or [undefined].
    [Diverges] is the outcome of a loop that has not finished within the
    iterations granted to it. *)
Inductive error : Type := TypeError.

Inductive completion (A : Type) : Type :=
| Return (a : A)
| Throw (e : error)
| Diverges.

Arguments Return {A} a.
Arguments Throw {A} e.
Arguments Diverges {A}.

Definition bind {A B : Type} (c : completion A) (f : A -> completion B)
  : completion B :=
  match c with
  | Return a => f a
  | Throw e => Throw e
  | Diverges => Diverges
  end.

(** Reading a property of a value that may be [null]. *)
Definition deref {A : Type} (o : option A) : completion A :=
  match o with
  | Some a => Return a
  | None => Throw TypeError
  end.

End JS.

Notation "x <- c ;; k" := (JS.bind c (fun x => k))
  (at level 61, c at next level, right associativity).

(* ===================================================================== *)
(** * Regular expressions *)
(* ===================================================================== *)

Module RegExp.
Import JS.

(** The syntax of the patterns the parsers use.  [Star true r] is the
    greedy [r*], [Star false r] the lazy [r*?]; [Group n r] is the n-th
    capturing group; [Bol] and [Eol] are [^] and [$] (no pattern here has
    the [m] flag). *)
Inductive regex : Type :=
| Empty
| Char (p : Z -> bool)
| Seq (r1 r2 : regex)
| Alt (r1 r2 : regex)
| Star (greedy : bool) (r : regex)
| Group (n : nat) (r : regex)
| Bol
| Eol.

(** The state of a match attempt: the index reached, the text that is left
    and the groups captured so far (latest first). *)
Record mstate : Type := MState {
  pos : nat;
  rest : jsstring;
  caps : list (nat * jsstring)
}.

Definition advance (st : mstate) (s' : jsstring) : mstate :=
  {| pos := S (pos st); rest := s'; caps := caps st |}.

Definition capture (n : nat) (from to : mstate) : mstate :=
  {| pos := pos to; rest := rest to;
     caps := (n, firstn (pos to - pos from) (rest from)) :: caps to |}.

(** The iterations of a quantifier over the pattern matched by [once].  An
    iteration that consumes nothing is refused, as RepeatMatcher does, so
    each iteration shortens the text that is left, and the bound [n] on the
    number of iterations, the length of that text plus one, is never
    reached. *)
Fixpoint iterate (greedy : bool)
  (once : mstate -> (mstate -> option mstate) -> option mstate)
  (k : mstate -> option mstate) (n : nat) (st : mstate) {struct n}
  : option mstate :=
  match n with
  | O => k st
  | S n' =>
      let again (_ : unit) :=
        once st (fun st1 => if (pos st <? pos st1)%nat
                            then iterate greedy once k n' st1
                            else None) in
      if greedy then
        match again tt with
        | Some res => Some res
        | None => k st
        end
      else
        match k st with
        | Some res => Some res
        | None => again tt
        end
  end.

(** The backtracking matcher, in continuation-passing style: [k] is what
    has to match after [r]. *)
Fixpoint rmatch (r : regex) (st : mstate) (k : mstate -> option mstate)
  {struct r} : option mstate :=
  match r with
  | Empty => k st
  | Char p =>
      match rest st with
      | c :: s' => if p c then k (advance st s') else None
      | [] => None
      end
  | Seq r1 r2 => rmatch r1 st (fun st1 => rmatch r2 st1 k)
  | Alt r1 r2 =>
      match rmatch r1 st k with
      | Some res => Some res
      | None => rmatch r2 st k
      end
  | Star greedy r1 =>
      iterate greedy (rmatch r1) k (S (List.length (rest st))) st
  | Group n r1 => rmatch r1 st (fun st1 => k (capture n st st1))
  | Bol => if (pos st =? 0)%nat then k st else None
  | Eol => match rest st with [] => k st | _ :: _ => None end
  end.

(** A successful match: where it starts, where it ends, its groups. *)
Record match_result : Type := MatchResult {
  m_start : nat;
  m_end : nat;
  m_caps : list (nat * jsstring)
}.

(** The first index, from [i] on, at which the pattern matches; [s] is the
    text from index [i]. *)
Fixpoint search_from (r : regex) (i : nat) (s : jsstring)
  : option match_result :=
  match rmatch r {| pos := i; rest := s; caps := [] |} Some with
  | Some st => Some {| m_start := i; m_end := pos st; m_caps := caps st |}
  | None =>
      match s with
      | [] => None
      | _ :: s' => search_from r (S i) s'
      end
  end.

(** [s.match(r)] for a pattern without the [g] flag; [None] is [null]. *)
Definition js_match (s : jsstring) (r : regex) : option match_result :=
  search_from r 0 s.

(** [if (s.match(r))] *)
Definition test (s : jsstring) (r : regex) : bool :=
  match js_match s r with Some _ => true | None => false end.

Fixpoint lookup (n : nat) (cs : list (nat * jsstring)) : option jsstring :=
  match cs with
  | [] => None
  | (m, w) :: cs' => if (m =? n)%nat then Some w else lookup n cs'
  end.

(** [m[n]], the text of group [n].  A group that took no part in the match
    is [undefined] in JavaScript, and the method calls the parsers make on
    it would throw; here the read itself raises the TypeError. *)
Definition group (m : match_result) (n : nat) : completion jsstring :=
  deref (lookup n (m_caps m)).

(** [s.replace(r, '')]: the first match is cut out.  It also stands for the
    [g] form of the one end-anchored pattern that has the flag, which cannot
    match twice. *)
Definition remove_match (s : jsstring) (r : regex) : jsstring :=
  match js_match s r with
  | Some m => firstn (m_start m) s ++ skipn (m_end m) s
  | None => s
  end.

(** ** Pattern notation *)

Definition chr (c : Z) : regex := Char (Z.eqb c).

(** A literal text. *)
Fixpoint lit (s : jsstring) : regex :=
  match s with
  | [] => Empty
  | [c] => chr c
  | c :: s' => Seq (chr c) (lit s')
  end.

(** A character class given by its members, [[abc]]. *)
Definition one_of (s : jsstring) : regex :=
  Char (fun c => existsb (Z.eqb c) s).

(** A sequence of patterns. *)
Fixpoint seq (rs : list regex) : regex :=
  match rs with
  | [] => Empty
  | [r] => r
  | r :: rs' => Seq r (seq rs')
  end.

Definition plus (r : regex) : regex := Seq r (Star true r).
Definition star (r : regex) : regex := Star true r.
Definition lazy_plus (r : regex) : regex := Seq r (Star false r).

Fixpoint times (n : nat) (r : regex) : regex :=
  match n with
  | O => Empty
  | 1%nat => r
  | S n' => Seq r (times n' r)
  end.

(** [.] matches any code unit but a line terminator. *)
Definition dot : regex :=
  Char (fun c => negb ((c =? 10) || (c =? 13) || (c =? 0x2028) || (c =? 0x2029))).

(** [\s], [\d], [\w] *)
Definition ws : regex := Char is_ws.
Definition digit : regex := Char is_digit.
Definition is_word (c : Z) : bool :=
  is_digit c || ((97 <=? c) && (c <=? 122)) || ((65 <=? c) && (c <=? 90))
  || (c =? 95).
Definition word : regex := Char is_word.

(** ** What a match is

    [Matches r st st'] holds when [r] can take the match from state [st] to
    state [st'], whatever the priorities; every result of the matcher is
    one of these ([rmatch_sound]). *)
Inductive Matches : regex -> mstate -> mstate -> Prop :=
| M_Empty st : Matches Empty st st
| M_Char p st c s' :
    rest st = c :: s' -> p c = true -> Matches (Char p) st (advance st s')
| M_Seq r1 r2 st st1 st2 :
    Matches r1 st st1 -> Matches r2 st1 st2 -> Matches (Seq r1 r2) st st2
| M_AltL r1 r2 st st' : Matches r1 st st' -> Matches (Alt r1 r2) st st'
| M_AltR r1 r2 st st' : Matches r2 st st' -> Matches (Alt r1 r2) st st'
| M_StarStop g r st : Matches (Star g r) st st
| M_StarStep g r st st1 st2 :
    Matches r st st1 -> (pos st < pos st1)%nat ->
    Matches (Star g r) st1 st2 -> Matches (Star g r) st st2
| M_Group n r st st1 :
    Matches r st st1 -> Matches (Group n r) st (capture n st st1)
| M_Bol st : pos st = 0%nat -> Matches Bol st st
| M_Eol st : rest st = [] -> Matches Eol st st.

(** Group [n] is on every path through [r]: it takes part in every match. *)
Fixpoint defines (r : regex) (n : nat) : bool :=
  match r with
  | Group m r1 => (m =? n)%nat || defines r1 n
  | Seq r1 r2 => defines r1 n || defines r2 n
  | Alt r1 r2 => defines r1 n && defines r2 n
  | _ => false
  end.

(** [r] cannot match where the text goes on with [next] ([None] at the end
    of the text): a sufficient test on the head of the pattern. *)
Fixpoint blocked (r : regex) (next : option Z) : bool :=
  match r with
  | Char p => match next with Some c => negb (p c) | None => true end
  | Seq r1 r2 =>
      blocked r1 next
      || (match r1 with Bol | Empty => true | _ => false end && blocked r2 next)
  | Alt r1 r2 => blocked r1 next && blocked r2 next
  | Group _ r1 => blocked r1 next
  | Eol => match next with Some _ => true | None => false end
  | _ => false
  end.

(** Every character that [r] can consume satisfies [p]. *)
Fixpoint chars_in (p : Z -> bool) (r : regex) : Prop :=
  match r with
  | Char q => forall c, q c = true -> p c = true
  | Seq r1 r2 | Alt r1 r2 => chars_in p r1 /\ chars_in p r2
  | Star _ r1 | Group _ r1 => chars_in p r1
  | _ => True
  end.

(** Whatever group [n] captures in [r] is made of characters in [p]. *)
Fixpoint group_class (n : nat) (p : Z -> bool) (r : regex) : Prop :=
  match r with
  | Group m r1 => ((m =? n)%nat = true -> chars_in p r1) /\ group_class n p r1
  | Seq r1 r2 | Alt r1 r2 => group_class n p r1 /\ group_class n p r2
  | Star _ r1 => group_class n p r1
  | _ => True
  end.

(** The pattern ends with [$]. *)
Fixpoint ends_with_eol (r : regex) : bool :=
  match r with
  | Eol => true
  | Seq _ r2 => ends_with_eol r2
  | _ => false
  end.

End RegExp.

(* ===================================================================== *)
(** * cliIntegration.ts: the search and RAG parsers *)
(* ===================================================================== *)

Module Cli.
Import JS RegExp.

(** One search hit or one RAG source.  The source builds it as an object
    with [type] and [name] and adds the other properties when their lines
    are met; a property that was never assigned is [None]. *)
Record record : Type := Record_ {
  type : jsstring;
  name : jsstring;
  file_path : option jsstring;
  start_line : option number;
  end_line : option number;
  similarity : option number;
  docstring : option jsstring;
  code_snippet : option jsstring
}.

Definition new_record (t n : jsstring) : record :=
  {| type := t; name := n; file_path := None; start_line := None;
     end_line := None; similarity := None; docstring := None;
     code_snippet := None |}.

Definition set_file_path (r : record) (v : jsstring) : record :=
  {| type := type r; name := name r; file_path := Some v;
     start_line := start_line r; end_line := end_line r;
     similarity := similarity r; docstring := docstring r;
     code_snippet := code_snippet r |}.

Definition set_start_line (r : record) (v : number) : record :=
  {| type := type r; name := name r; file_path := file_path r;
     start_line := Some v; end_line := end_line r;
     similarity := similarity r; docstring := docstring r;
     code_snippet := code_snippet r |}.

Definition set_end_line (r : record) (v : number) : record :=
  {| type := type r; name := name r; file_path := file_path r;
     start_line := start_line r; end_line := Some v;
     similarity := similarity r; docstring := docstring r;
     code_snippet := code_snippet r |}.

Definition set_similarity (r : record) (v : number) : record :=
  {| type := type r; name := name r; file_path := file_path r;
     start_line := start_line r; end_line := end_line r;
     similarity := Some v; docstring := docstring r;
     code_snippet := code_snippet r |}.

Definition set_docstring (r : record) (v : jsstring) : record :=
  {| type := type r; name := name r; file_path := file_path r;
     start_line := start_line r; end_line := end_line r;
     similarity := similarity r; docstring := Some v;
     code_snippet := code_snippet r |}.

Definition set_code_snippet (r : record) (v : jsstring) : record :=
  {| type := type r; name := name r; file_path := file_path r;
     start_line := start_line r; end_line := end_line r;
     similarity := similarity r; docstring := docstring r;
     code_snippet := Some v |}.

(** A [for] loop over the lines whose body does not touch the index. *)
Fixpoint for_each {S : Type} (body : S -> jsstring -> completion S)
  (lines : list jsstring) (st : S) : completion S :=
  match lines with
  | [] => Return st
  | line :: lines' => st' <- body st line ;; for_each body lines' st'
  end.

(** [output.replace(/\r/g, '').split('\n')] *)
Definition lines_of (output : jsstring) : list jsstring :=
  split 10 (remove_cr output).

(** ** parseSearchOutput *)

(** [/(\d+)\.\s+(FUNCTION|CLASS):\s+(\w+)/] *)
Definition headerRe : regex :=
  seq [Group 1 (plus digit); lit (js "."); plus ws;
       Group 2 (Alt (lit (js "FUNCTION")) (lit (js "CLASS")));
       lit (js ":"); plus ws; Group 3 (plus word)].

(** [/📄\s+(.+?):(\d+)-(\d+)/] *)
Definition fileRe : regex :=
  seq [lit (js "📄"); plus ws; Group 1 (lazy_plus dot); lit (js ":");
       Group 2 (plus digit); lit (js "-"); Group 3 (plus digit)].

(** [/[│└┘]+$/g] *)
Definition boxTailRe : regex := seq [plus (one_of (js "│└┘")); Eol].

(** [/📊\s+Similarity:\s+([\d.]+)/] *)
Definition simRe : regex :=
  seq [lit (js "📊"); plus ws; lit (js "Similarity:"); plus ws;
       Group 1 (plus (one_of (js "0123456789.")))].

(** [/📝\s+(.+)/] *)
Definition docRe : regex :=
  seq [lit (js "📝"); plus ws; Group 1 (plus dot)].

(** The loop state: [results] and [currentResult]. *)
Definition search_state : Type := list record * option record.

(** The body of the loop of parseSearchOutput, for one line. *)
Definition search_body (st : search_state) (line : jsstring)
  : completion search_state :=
  let (results, currentResult) := st in
  match js_match line headerRe with
  | Some headerMatch =>
      let results := match currentResult with
                     | Some r => results ++ [r]
                     | None => results
                     end in
      nm <- group headerMatch 3 ;;
      ty <- group headerMatch 2 ;;
      Return (results, Some (new_record (toLowerCase ty) nm))
  | None =>
      match currentResult with
      | Some cur =>
          match js_match line fileRe with
          | Some fileMatch =>
              g1 <- group fileMatch 1 ;;
              let filePath := trim (remove_match (trim g1) boxTailRe) in
              g2 <- group fileMatch 2 ;;
              g3 <- group fileMatch 3 ;;
              Return (results,
                      Some (set_end_line
                              (set_start_line (set_file_path cur filePath)
                                              (parseInt g2))
                              (parseInt g3)))
          | None =>
              match js_match line simRe with
              | Some simMatch =>
                  g1 <- group simMatch 1 ;;
                  Return (results, Some (set_similarity cur (parseFloat g1)))
              | None =>
                  match js_match line docRe with
                  | Some docMatch =>
                      g1 <- group docMatch 1 ;;
                      let docText := trim g1 in
                      Return (results,
                              Some (set_docstring cur
                                      (trim (remove_match docText boxTailRe))))
                  | None => Return st
                  end
              end
          end
      | None => Return st
      end
  end.

Definition parseSearchOutput (output : jsstring) : completion (list record) :=
  st <- for_each search_body (lines_of output) ([], None) ;;
  Return (match snd st with
          | Some r => fst st ++ [r]
          | None => fst st
          end).

(** ** parseRagOutput *)

(** [/^┌[─]+\s*(\d+)\.\s+(FUNCTION|CLASS):\s+(.+?)\s+[─]+┐/] *)
Definition boxStartRe : regex :=
  seq [Bol; lit (js "┌"); plus (lit (js "─")); star ws;
       Group 1 (plus digit); lit (js "."); plus ws;
       Group 2 (Alt (lit (js "FUNCTION")) (lit (js "CLASS")));
       lit (js ":"); plus ws; Group 3 (lazy_plus dot); plus ws;
       plus (lit (js "─")); lit (js "┐")].

(** [/│\s*📄\s*(.+?)\s*│/] *)
Definition pathRe : regex :=
  seq [lit (js "│"); star ws; lit (js "📄"); star ws;
       Group 1 (lazy_plus dot); star ws; lit (js "│")].

(** [/│\s*(.+?)\s*│/] *)
Definition pathLineRe : regex :=
  seq [lit (js "│"); star ws; Group 1 (lazy_plus dot); star ws;
       lit (js "│")].

(** [/^[─┌┐└┘]+$/] *)
Definition borderOnlyRe : regex :=
  seq [Bol; plus (one_of (js "─┌┐└┘")); Eol].

(** [/(.+?):(\d+)-(\d+)/] *)
Definition completeRe : regex :=
  seq [Group 1 (lazy_plus dot); lit (js ":"); Group 2 (plus digit);
       lit (js "-"); Group 3 (plus digit)].

(** [/│\s*📊\s+Similarity:\s+([\d.]+)\s*│/] *)
Definition boxSimRe : regex :=
  seq [lit (js "│"); star ws; lit (js "📊"); plus ws;
       lit (js "Similarity:"); plus ws;
       Group 1 (plus (one_of (js "0123456789."))); star ws; lit (js "│")].

(** [/│\s*📝\s+(.+?)\s*│/] *)
Definition boxDocRe : regex :=
  seq [lit (js "│"); star ws; lit (js "📝"); plus ws;
       Group 1 (lazy_plus dot); star ws; lit (js "│")].

(** [/^└[─]+┘/] *)
Definition boxEndRe : regex :=
  seq [Bol; lit (js "└"); plus (lit (js "─")); lit (js "┘")].

(** [/^┌[─]+/] *)
Definition boxTopRe : regex :=
  seq [Bol; lit (js "┌"); plus (lit (js "─"))].

(** [/^│\s*/] and [/\s*│$/] *)
Definition leftBorderRe : regex := seq [Bol; lit (js "│"); star ws].
Definition rightBorderRe : regex := seq [star ws; lit (js "│"); Eol].

(** The local variables of parseRagOutput, with the loop index [i]. *)
Record state : Type := State {
  i : Z;
  answer : jsstring;
  sources : list record;
  currentSource : option record;
  inAnswerSection : bool;
  inSourcesSection : bool;
  inSourceBox : bool;
  collectingCode : bool;
  codeLines : list jsstring;
  collectingFilePath : bool;
  filePathLines : list jsstring
}.

Definition set_i (st : state) (v : Z) : state :=
  {| i := v; answer := answer st; sources := sources st;
     currentSource := currentSource st;
     inAnswerSection := inAnswerSection st;
     inSourcesSection := inSourcesSection st;
     inSourceBox := inSourceBox st; collectingCode := collectingCode st;
     codeLines := codeLines st;
     collectingFilePath := collectingFilePath st;
     filePathLines := filePathLines st |}.

Definition set_answer (st : state) (v : jsstring) : state :=
  {| i := i st; answer := v; sources := sources st;
     currentSource := currentSource st;
     inAnswerSection := inAnswerSection st;
     inSourcesSection := inSourcesSection st;
     inSourceBox := inSourceBox st; collectingCode := collectingCode st;
     codeLines := codeLines st;
     collectingFilePath := collectingFilePath st;
     filePathLines := filePathLines st |}.

Definition set_sources (st : state) (v : list record) : state :=
  {| i := i st; answer := answer st; sources := v;
     currentSource := currentSource st;
     inAnswerSection := inAnswerSection st;
     inSourcesSection := inSourcesSection st;
     inSourceBox := inSourceBox st; collectingCode := collectingCode st;
     codeLines := codeLines st;
     collectingFilePath := collectingFilePath st;
     filePathLines := filePathLines st |}.

Definition set_currentSource (st : state) (v : option record) : state :=
  {| i := i st; answer := answer st; sources := sources st;
     currentSource := v; inAnswerSection := inAnswerSection st;
     inSourcesSection := inSourcesSection st;
     inSourceBox := inSourceBox st; collectingCode := collectingCode st;
     codeLines := codeLines st;
     collectingFilePath := collectingFilePath st;
     filePathLines := filePathLines st |}.

Definition set_inAnswerSection (st : state) (v : bool) : state :=
  {| i := i st; answer := answer st; sources := sources st;
     currentSource := currentSource st; inAnswerSection := v;
     inSourcesSection := inSourcesSection st;
     inSourceBox := inSourceBox st; collectingCode := collectingCode st;
     codeLines := codeLines st;
     collectingFilePath := collectingFilePath st;
     filePathLines := filePathLines st |}.

Definition set_inSourcesSection (st : state) (v : bool) : state :=
  {| i := i st; answer := answer st; sources := sources st;
     currentSource := currentSource st;
     inAnswerSection := inAnswerSection st; inSourcesSection := v;
     inSourceBox := inSourceBox st; collectingCode := collectingCode st;
     codeLines := codeLines st;
     collectingFilePath := collectingFilePath st;
     filePathLines := filePathLines st |}.

Definition set_inSourceBox (st : state) (v : bool) : state :=
  {| i := i st; answer := answer st; sources := sources st;
     currentSource := currentSource st;
     inAnswerSection := inAnswerSection st;
     inSourcesSection := inSourcesSection st; inSourceBox := v;
     collectingCode := collectingCode st; codeLines := codeLines st;
     collectingFilePath := collectingFilePath st;
     filePathLines := filePathLines st |}.

Definition set_collectingCode (st : state) (v : bool) : state :=
  {| i := i st; answer := answer st; sources := sources st;
     currentSource := currentSource st;
     inAnswerSection := inAnswerSection st;
     inSourcesSection := inSourcesSection st;
     inSourceBox := inSourceBox st; collectingCode := v;
     codeLines := codeLines st;
     collectingFilePath := collectingFilePath st;
     filePathLines := filePathLines st |}.

Definition set_codeLines (st : state) (v : list jsstring) : state :=
  {| i := i st; answer := answer st; sources := sources st;
     currentSource := currentSource st;
     inAnswerSection := inAnswerSection st;
     inSourcesSection := inSourcesSection st;
     inSourceBox := inSourceBox st; collectingCode := collectingCode st;
     codeLines := v; collectingFilePath := collectingFilePath st;
     filePathLines := filePathLines st |}.

Definition set_collectingFilePath (st : state) (v : bool) : state :=
  {| i := i st; answer := answer st; sources := sources st;
     currentSource := currentSource st;
     inAnswerSection := inAnswerSection st;
     inSourcesSection := inSourcesSection st;
     inSourceBox := inSourceBox st; collectingCode := collectingCode st;
     codeLines := codeLines st; collectingFilePath := v;
     filePathLines := filePathLines st |}.

Definition set_filePathLines (st : state) (v : list jsstring) : state :=
  {| i := i st; answer := answer st; sources := sources st;
     currentSource := currentSource st;
     inAnswerSection := inAnswerSection st;
     inSourcesSection := inSourcesSection st;
     inSourceBox := inSourceBox st; collectingCode := collectingCode st;
     codeLines := codeLines st;
     collectingFilePath := collectingFilePath st; filePathLines := v |}.

Definition initial : state :=
  {| i := 0; answer := []; sources := []; currentSource := None;
     inAnswerSection := false; inSourcesSection := false;
     inSourceBox := false; collectingCode := false; codeLines := [];
     collectingFilePath := false; filePathLines := [] |}.

(** [if (codeLines.length > 0) currentSource.code_snippet = codeLines.join('\n')] *)
Definition with_code (cs : record) (codeLines : list jsstring) : record :=
  match codeLines with
  | [] => cs
  | _ :: _ => set_code_snippet cs (join [10] codeLines)
  end.

(** The answer branch: the text between the borders of the line is added to
    the answer, and a bottom border ends the section. *)
Definition answer_line (line : jsstring) (st : state) : state :=
  let content :=
    trim (remove_match (remove_match line leftBorderRe) rightBorderRe) in
  let st1 :=
    if truthy content && negb (test content borderOnlyRe)
       && negb (str_eqb content (js "Answer:"))
    then set_answer st (answer st ++ content ++ js " ")
    else st in
  if test line boxEndRe then set_inAnswerSection st1 false else st1.

(** After a source box: code lines are gathered until the next top border,
    which is handed back to the loop ([i--]) once the source is pushed. *)
Definition code_line (line trimmed : jsstring) (st : state) : state :=
  if collectingCode st && negb (inSourceBox st) then
    if test line boxTopRe
       || (str_eqb trimmed [] && (0 <? List.length (codeLines st))%nat)
    then
      if test line boxTopRe then
        let st1 := set_i st (i st - 1) in
        match currentSource st1 with
        | Some cs =>
            set_currentSource
              (set_collectingCode
                 (set_codeLines
                    (set_sources st1 (sources st1 ++ [with_code cs (codeLines st1)]))
                    [])
                 false)
              None
        | None => st1
        end
      else st
    else if truthy trimmed then set_codeLines st (codeLines st ++ [line])
    else st
  else st.

(** Inside a source box. *)
Definition box_line (line trimmed : jsstring) (st : state) : completion state :=
  if includes line (js "📄") && negb (collectingFilePath st) then
    let st1 := set_collectingFilePath st true in
    match js_match line pathRe with
    | Some pathMatch =>
        g1 <- group pathMatch 1 ;;
        let pathContent := trim g1 in
        if truthy pathContent
        then Return (set_filePathLines st1 (filePathLines st1 ++ [pathContent]))
        else Return st1
    | None => Return st1
    end
  else if collectingFilePath st then
    match js_match line pathLineRe with
    | Some pathLineMatch =>
        g1 <- group pathLineMatch 1 ;;
        let content := trim g1 in
        if truthy content && negb (test content borderOnlyRe)
           && negb (includes content (js "📊"))
           && negb (includes content (js "📝"))
        then
          let st1 := set_filePathLines st (filePathLines st ++ [content]) in
          let fullPath := join [] (filePathLines st1) in
          match js_match fullPath completeRe with
          | Some completeMatch =>
              cs <- deref (currentSource st1) ;;
              c1 <- group completeMatch 1 ;;
              c2 <- group completeMatch 2 ;;
              c3 <- group completeMatch 3 ;;
              let cs := set_end_line
                          (set_start_line (set_file_path cs (trim c1))
                                          (parseInt c2))
                          (parseInt c3) in
              Return (set_filePathLines
                        (set_collectingFilePath
                           (set_currentSource st1 (Some cs)) false)
                        [])
          | None => Return st1
          end
        else Return st
    | None => Return st
    end
  else
    match js_match line boxSimRe, currentSource st with
    | Some simMatch, Some cs =>
        g1 <- group simMatch 1 ;;
        Return (set_currentSource st (Some (set_similarity cs (parseFloat g1))))
    | _, _ =>
        match js_match line boxDocRe, currentSource st with
        | Some docMatch, Some cs =>
            g1 <- group docMatch 1 ;;
            Return (set_currentSource st (Some (set_docstring cs (trim g1))))
        | _, _ =>
            if test line boxEndRe then
              Return (set_collectingFilePath
                        (set_collectingCode (set_inSourceBox st false) true)
                        false)
            else Return (code_line line trimmed st)
        end
    end.

(** The sources section. *)
Definition sources_line (line trimmed : jsstring) (st : state)
  : completion state :=
  match js_match line boxStartRe with
  | Some boxStartMatch =>
      let st1 :=
        match currentSource st with
        | Some cs =>
            if collectingCode st then
              set_collectingCode
                (set_codeLines
                   (set_sources st (sources st ++ [with_code cs (codeLines st)]))
                   [])
                false
            else st
        | None => st
        end in
      ty <- group boxStartMatch 2 ;;
      nm <- group boxStartMatch 3 ;;
      Return (set_filePathLines
                (set_collectingFilePath
                   (set_inSourceBox
                      (set_currentSource st1
                         (Some (new_record (toLowerCase ty) (trim nm))))
                      true)
                   false)
                [])
  | None =>
      if inSourceBox st then box_line line trimmed st
      else Return (code_line line trimmed st)
  end.

(** The body of the loop of parseRagOutput for [line = lines[i]]; each
    [continue] of the source is a result here. *)
Definition body (line : jsstring) (st : state) : completion state :=
  let trimmed := trim line in
  if negb (truthy trimmed) && negb (collectingCode st) then Return st
  else if (includes trimmed (js "💡") || includes trimmed (js "Answer:"))
          && negb (inSourcesSection st)
  then Return (set_inAnswerSection st true)
  else if startsWith trimmed (js "Code Search - RAG Mode Query:")
          || startsWith trimmed (js "Query:")
  then Return st
  else if includes trimmed (js "Supporting Sources")
  then Return (set_inSourcesSection (set_inAnswerSection st false) true)
  else if inSourcesSection st then sources_line line trimmed st
  else if inAnswerSection st && negb (inSourcesSection st)
  then Return (answer_line line st)
  else Return st.

(** [lines[i]]: outside the array it is [undefined], and the [line.trim()]
    that follows throws. *)
Definition line_at (lines : list jsstring) (i : Z) : completion jsstring :=
  if i <? 0 then Throw TypeError else deref (nth_error lines (Z.to_nat i)).

(** [for (let i = 0; i < lines.length; i++) { ... }], at most [n]
    iterations. *)
Fixpoint loop (n : nat) (lines : list jsstring) (st : state)
  : completion state :=
  match n with
  | O => Diverges
  | S n' =>
      if i st <? Z.of_nat (List.length lines) then
        line <- line_at lines (i st) ;;
        st' <- body line st ;;
        loop n' lines (set_i st' (i st' + 1))
      else Return st
  end.

Record rag_output : Type := RagOutput {
  rag_answer : jsstring;
  rag_sources : list record
}.

(** What follows the loop: the last source is saved if it has a file path,
    and the answer is trimmed. *)
Definition finish (st : state) : rag_output :=
  let sources :=
    match currentSource st with
    | Some cs =>
        if match file_path cs with Some p => truthy p | None => false end
        then sources st ++ [with_code cs (codeLines st)]
        else sources st
    | None => sources st
    end in
  {| rag_answer := trim (answer st); rag_sources := sources |}.

(** parseRagOutput with a bound on the iterations of its loop. *)
Definition parseRagOutput_within (n : nat) (output : jsstring)
  : completion rag_output :=
  st <- loop n (lines_of output) initial ;;
  Return (finish st).

(** parseRagOutput.  A line is handed back to the loop at most once, so
    twice the number of lines (and one more test of the loop condition) is
    enough for the loop to finish: see [loop_returns], and [loop_more] for
    the result being the same with any larger bound. *)
Definition parseRagOutput (output : jsstring) : completion rag_output :=
  parseRagOutput_within (S (2 * List.length (lines_of output))) output.

End Cli.

(* ===================================================================== *)
(** * webview/resultsViewProvider.ts: the PR-summary parser *)
(* ===================================================================== *)

Module ResultsView.
Import JS RegExp.

Record meta_info : Type := Meta {
  branch : jsstring;
  commits : number;
  changedFiles : number
}.

Record file_change : Type := FileChange {
  filename : jsstring;
  content : jsstring
}.

(** The object [result] that _parsePRSummary fills and returns. *)
Record summary : Type := Summary {
  meta : meta_info;
  commitHistory : list jsstring;
  fileChanges : list file_change;
  overallSummary : jsstring;
  pipelineInfo : jsstring;
  warnings : list jsstring
}.

(** The values of [currentSection]. *)
Inductive section : Type :=
| sec_header
| sec_fileChange
| sec_between
| sec_overallSummary
| sec_pipeline.

Definition section_eqb (a b : section) : bool :=
  match a, b with
  | sec_header, sec_header
  | sec_fileChange, sec_fileChange
  | sec_between, sec_between
  | sec_overallSummary, sec_overallSummary
  | sec_pipeline, sec_pipeline => true
  | _, _ => false
  end.

(** The local variables of the loop. *)
Record state : Type := State {
  result : summary;
  currentSection : section;
  currentFileChange : option file_change;
  fileChangeContent : jsstring
}.

Definition set_meta (r : summary) (v : meta_info) : summary :=
  {| meta := v; commitHistory := commitHistory r;
     fileChanges := fileChanges r; overallSummary := overallSummary r;
     pipelineInfo := pipelineInfo r; warnings := warnings r |}.

Definition set_commitHistory (r : summary) (v : list jsstring) : summary :=
  {| meta := meta r; commitHistory := v;
     fileChanges := fileChanges r; overallSummary := overallSummary r;
     pipelineInfo := pipelineInfo r; warnings := warnings r |}.

Definition set_fileChanges (r : summary) (v : list file_change) : summary :=
  {| meta := meta r; commitHistory := commitHistory r;
     fileChanges := v; overallSummary := overallSummary r;
     pipelineInfo := pipelineInfo r; warnings := warnings r |}.

Definition set_overallSummary (r : summary) (v : jsstring) : summary :=
  {| meta := meta r; commitHistory := commitHistory r;
     fileChanges := fileChanges r; overallSummary := v;
     pipelineInfo := pipelineInfo r; warnings := warnings r |}.

Definition set_pipelineInfo (r : summary) (v : jsstring) : summary :=
  {| meta := meta r; commitHistory := commitHistory r;
     fileChanges := fileChanges r; overallSummary := overallSummary r;
     pipelineInfo := v; warnings := warnings r |}.

Definition set_warnings (r : summary) (v : list jsstring) : summary :=
  {| meta := meta r; commitHistory := commitHistory r;
     fileChanges := fileChanges r; overallSummary := overallSummary r;
     pipelineInfo := pipelineInfo r; warnings := v |}.

Definition set_result (st : state) (v : summary) : state :=
  {| result := v; currentSection := currentSection st;
     currentFileChange := currentFileChange st;
     fileChangeContent := fileChangeContent st |}.

Definition set_currentSection (st : state) (v : section) : state :=
  {| result := result st; currentSection := v;
     currentFileChange := currentFileChange st;
     fileChangeContent := fileChangeContent st |}.

Definition set_currentFileChange (st : state) (v : option file_change) : state :=
  {| result := result st; currentSection := currentSection st;
     currentFileChange := v;
     fileChangeContent := fileChangeContent st |}.

Definition set_fileChangeContent (st : state) (v : jsstring) : state :=
  {| result := result st; currentSection := currentSection st;
     currentFileChange := currentFileChange st;
     fileChangeContent := v |}.

Definition initial : state :=
  {| result :=
       {| meta := {| branch := []; commits := int 0; changedFiles := int 0 |};
          commitHistory := []; fileChanges := []; overallSummary := [];
          pipelineInfo := []; warnings := [] |};
     currentSection := sec_header;
     currentFileChange := None;
     fileChangeContent := [] |}.

(** [/^=+$/] *)
Definition separatorRe : regex := seq [Bol; plus (lit (js "=")); Eol].

(** [/^•\s+[0-9a-f]{8}\s+-/] *)
Definition commitRe : regex :=
  seq [Bol; lit (js "•"); plus ws; times 8 (one_of (js "0123456789abcdef"));
       plus ws; lit (js "-")].

(** [/^┌.*🔹\s+(.+?)\s+─*┐/] *)
Definition fileBoxRe : regex :=
  seq [Bol; lit (js "┌"); star dot; lit (js "🔹"); plus ws;
       Group 1 (lazy_plus dot); plus ws; star (lit (js "─")); lit (js "┐")].

(** [/🔹\s+(.+?)\s+─/] *)
Definition fileNameRe : regex :=
  seq [lit (js "🔹"); plus ws; Group 1 (lazy_plus dot); plus ws;
       lit (js "─")].

(** [/^│/] and [/^└/] *)
Definition leftBarRe : regex := seq [Bol; lit (js "│")].
Definition bottomRe : regex := seq [Bol; lit (js "└")].

(** [/^│\s*/] and [/\s*│$/] *)
Definition leftBorderRe : regex := seq [Bol; lit (js "│"); star ws].
Definition rightBorderRe : regex := seq [star ws; lit (js "│"); Eol].

(** [/^[┌└─│]+$/] *)
Definition boxCharsRe : regex :=
  seq [Bol; plus (one_of (js "┌└─│")); Eol].

(** [/^\[\d+\/\d+\]/] *)
Definition progressRe : regex :=
  seq [Bol; lit (js "["); plus digit; lit (js "/"); plus digit; lit (js "]")].

(** The file change that is open is closed with the content gathered for
    it, and pushed. *)
Definition push_file_change (r : summary) (fc : file_change) (text : jsstring)
  : summary :=
  set_fileChanges r
    (fileChanges r ++ [{| filename := filename fc; content := trim text |}]).

(** The body of the loop, for one line: an [if ... else if ...] chain in
    which the first test that holds decides what the line is. *)
Definition body (st : state) (line : jsstring) : completion state :=
  let trimmed := trim line in
  let r := result st in
  if negb (truthy trimmed) || test trimmed separatorRe then Return st
  else if startsWith trimmed (js "Branch:") then
    Return (set_result st
              (set_meta r {| branch := trim (substring 7 trimmed);
                             commits := commits (meta r);
                             changedFiles := changedFiles (meta r) |}))
  else if startsWith trimmed (js "Commits:") then
    Return (set_result st
              (set_meta r {| branch := branch (meta r);
                             commits := or_zero (parseInt (trim (substring 8 trimmed)));
                             changedFiles := changedFiles (meta r) |}))
  else if startsWith trimmed (js "Changed files:") then
    Return (set_result st
              (set_meta r {| branch := branch (meta r);
                             commits := commits (meta r);
                             changedFiles :=
                               or_zero (parseInt (trim (substring 14 trimmed))) |}))
  else if test trimmed commitRe then
    Return (set_result st (set_commitHistory r (commitHistory r ++ [trimmed])))
  else if test trimmed fileBoxRe then
    let r1 := match currentFileChange st with
              | Some fc => push_file_change r fc (fileChangeContent st)
              | None => r
              end in
    fname <- match js_match trimmed fileNameRe with
             | Some fileMatch => g1 <- group fileMatch 1 ;; Return (trim g1)
             | None => Return (js "Unknown file")
             end ;;
    Return {| result := r1;
              currentSection := sec_fileChange;
              currentFileChange := Some {| filename := fname; content := [] |};
              fileChangeContent := [] |}
  else if section_eqb (currentSection st) sec_fileChange && test line leftBarRe
  then
    let text :=
      trim (remove_match (remove_match line leftBorderRe) rightBorderRe) in
    if truthy text
    then Return (set_fileChangeContent st (fileChangeContent st ++ text ++ js " "))
    else Return st
  else if section_eqb (currentSection st) sec_fileChange && test line bottomRe
  then
    let st1 :=
      match currentFileChange st with
      | Some fc =>
          set_fileChangeContent
            (set_currentFileChange
               (set_result st (push_file_change r fc (fileChangeContent st)))
               None)
            []
      | None => st
      end in
    Return (set_currentSection st1 sec_between)
  else if startsWith trimmed (js "📝 Overall PR Summary:") then
    Return (set_currentSection st sec_overallSummary)
  else if section_eqb (currentSection st) sec_overallSummary && truthy trimmed
          && negb (test trimmed boxCharsRe)
  then
    Return (set_result st
              (set_overallSummary r (overallSummary r ++ trimmed ++ js " ")))
  else if includes trimmed (js "PR SUMMARIZATION PIPELINE")
          || test trimmed progressRe
  then
    Return (set_currentSection
              (set_result st (set_pipelineInfo r (pipelineInfo r ++ trimmed ++ [10])))
              sec_pipeline)
  else if section_eqb (currentSection st) sec_pipeline then
    Return (set_result st (set_pipelineInfo r (pipelineInfo r ++ trimmed ++ [10])))
  else if startsWith trimmed (js "⚠️") then
    Return (set_result st (set_warnings r (warnings r ++ [trimmed])))
  else Return st.

(** What follows the loop: the two texts are trimmed. *)
Definition finish (st : state) : summary :=
  set_pipelineInfo
    (set_overallSummary (result st) (trim (overallSummary (result st))))
    (trim (pipelineInfo (result st))).

Definition _parsePRSummary (text : jsstring) : completion summary :=
  st <- Cli.for_each body (split 10 text) initial ;;
  Return (finish st).

End ResultsView.

(* ===================================================================== *)
(** * The properties of the specification *)
(* ===================================================================== *)

Module Spec.
Import JS RegExp Cli.

(** The record that is open, as a list. *)
Definition pending (cur : option record) : list record :=
  match cur with
  | Some r => [r]
  | None => []
  end.

(** A header line of the search output, and the record it announces. *)
Definition is_header (line : jsstring) : bool := test line headerRe.

Definition from_header (line : jsstring) (r : record) : Prop :=
  exists m ty,
    js_match line headerRe = Some m
    /\ group m 2 = Return ty /\ type r = toLowerCase ty
    /\ group m 3 = Return (name r).

(** [file_path], [start_line] and [end_line] are all there or all absent. *)
Definition together (r : record) : Prop :=
  match file_path r, start_line r, end_line r with
  | None, None, None => True
  | Some _, Some _, Some _ => True
  | _, _, _ => False
  end.

(** The similarity of a record, if it has one, lies in [0,1]. *)
Definition in_unit_interval (x : number) : Prop :=
  match x with
  | Num q => (0 <= q /\ q <= 1)%Q
  | _ => False
  end.

Definition similarity_in_range (r : record) : Prop :=
  match similarity r with
  | Some x => in_unit_interval x
  | None => True
  end.

(** The similarity of a record, if it has one, is NaN or is not negative. *)
Definition not_negative (x : number) : Prop :=
  match x with
  | NaN => True
  | Infinity negative => negative = false
  | Num q => (0 <= q)%Q
  end.

Definition similarity_not_negative (r : record) : Prop :=
  match similarity r with
  | Some x => not_negative x
  | None => True
  end.

(** The characters of [[\\d.]]. *)
Definition sim_char (c : Z) : bool := existsb (Z.eqb c) (js "0123456789.").

(** A record has a file path that is not empty. *)
Definition has_file_path (r : record) : Prop :=
  exists p, file_path r = Some p /\ p <> [].

(** The lines of a text, joined again. *)
Definition unlines (lines : list jsstring) : jsstring := join [10] lines.

(** What keeps parseRagOutput from reading a property of [null] and from
    handing the same line back to its loop for ever: inside a source box,
    and while code is collected, there is a current source. *)
Definition safe (st : Cli.state) : Prop :=
  (inSourceBox st = true -> currentSource st <> None)
  /\ (collectingCode st = true -> currentSource st <> None).

(** One iteration moves to the next line, or hands the line back and
    leaves the collecting of code. *)
Definition progress (st st' : Cli.state) : Prop :=
  i st' = i st
  \/ (i st' = i st - 1
      /\ collectingCode st = true /\ collectingCode st' = false).

(** A property of records holds of the sources pushed so far and of the
    current one. *)
Definition all_sources (P : record -> Prop) (st : Cli.state) : Prop :=
  Forall P (sources st)
  /\ forall cs, currentSource st = Some cs -> P cs.

(** The marker that opens the answer. *)
Definition answer_marker : jsstring := js "Answer:".

(** The answer text is made of pieces, each followed by a space, none of
    which contains the marker. *)
Definition answer_ok (a : jsstring) : Prop :=
  includes a answer_marker = false
  /\ (a = [] \/ exists a0, a = a0 ++ js " ").

(** The content of an answer line: the line without a [│] at its start and
    the white space that follows it, without a [│] at its end and the white
    space before it, and trimmed. *)
Definition answer_content (line : jsstring) : jsstring :=
  trim (remove_match (remove_match line Cli.leftBorderRe)
                     Cli.rightBorderRe).

(** The characters of the boundary of a box, [─ ┌ ┐ └ ┘]. *)
Definition is_boundary_char (c : Z) : bool :=
  existsb (Z.eqb c) (js "─┌┐└┘").

(** A piece of the answer: a content that is not empty and is not made of
    boundary characters only. *)
Definition is_piece (content : jsstring) : bool :=
  truthy content && negb (forallb is_boundary_char content).

(** The answer made of pieces: each piece is followed by a space, and the
    whole is trimmed. *)
Definition answer_of (pieces : list jsstring) : jsstring :=
  trim (List.concat (map (fun piece => piece ++ js " ") pieces)).

(** The answer is made of the contents of lines of the text, each of them a
    piece. *)
Definition made_of_pieces (lines : list jsstring) (a : jsstring) : Prop :=
  exists ls,
    Forall (fun line => In line lines
                        /\ is_piece (answer_content line) = true) ls
    /\ a = answer_of (map answer_content ls).

(** What one iteration does to the answer: nothing, or it adds a piece of
    a line that does not contain the marker. *)
Definition answer_step (line : jsstring) (st st' : Cli.state) : Prop :=
  answer st' = answer st
  \/ (includes (trim line) answer_marker = false
      /\ exists content u v,
           line = u ++ content ++ v
           /\ answer st' = answer st ++ content ++ js " ").

(** What one iteration of the loop of parseRagOutput keeps. *)
Definition step_ok (P : record -> Prop) (line : jsstring)
  (st st' : Cli.state) : Prop :=
  safe st'
  /\ (all_sources P st -> all_sources P st')
  /\ progress st st'
  /\ answer_step line st st'.

(** RAG output with one source box whose file path [foo/bar.py:10-20] is
    wrapped after its first [k] characters. *)
Definition wrapped_path_output (k : nat) : jsstring :=
  let path := js "foo/bar.py:10-20" in
  unlines [js "📚 Supporting Sources";
           js "┌──────── 1. FUNCTION: load ────────┐";
           js "│ 📄 " ++ firstn k path ++ js " │";
           js "│ " ++ skipn k path ++ js " │";
           js "└───────────────────────────────────┘"].

(** ** A file path wrapped across the lines of a source box *)










(** The record that a source header line of the RAG output announces. *)
Definition from_box_header (line : jsstring) (r : record) : Prop :=
  exists m ty nm,
    js_match line boxStartRe = Some m
    /\ group m 2 = Return ty /\ group m 3 = Return nm
    /\ r = new_record (toLowerCase ty) (trim nm).

(** The parser is inside a source box of the sources section: the header
    of the box has been read, and no bottom border has closed it. *)
Definition inside_box (st : Cli.state) : Prop :=
  inSourcesSection st = true
  /\ inSourceBox st = true
  /\ collectingCode st = false.

(** A state inside the box of a first source. *)
Definition in_first_box : Cli.state :=
  set_inSourceBox
    (set_currentSource (set_inSourcesSection Cli.initial true)
                       (Some (new_record (js "function") (js "connect"))))
    true.

(** ** The lines of a PR summary *)

(** A line that the loop of _parsePRSummary skips: blank, or made of [=]. *)
Definition pr_skipped (line : jsstring) : bool :=
  negb (truthy (trim line)) || test (trim line) ResultsView.separatorRe.

(** A line of metadata or of the commit history. *)
Definition pr_meta_or_commit (line : jsstring) : bool :=
  startsWith (trim line) (js "Branch:")
  || startsWith (trim line) (js "Commits:")
  || startsWith (trim line) (js "Changed files:")
  || test (trim line) ResultsView.commitRe.

(** A line that takes the parser out of the pipeline section: the top
    border of a file change, or the marker of the overall summary. *)
Definition ends_pipeline (line : jsstring) : bool :=
  negb (pr_skipped line) && negb (pr_meta_or_commit line)
  && (test (trim line) ResultsView.fileBoxRe
      || startsWith (trim line) (js "📝 Overall PR Summary:")).

(** What a line met in the pipeline section adds to [pipelineInfo]. *)
Definition pipeline_text (line : jsstring) : jsstring :=
  if pr_skipped line || pr_meta_or_commit line then []
  else trim line ++ [10].

(** A line with the pipeline marker, or that starts with a progress tag
    [[n/m]]. *)
Definition is_pipeline_marker (line : jsstring) : bool :=
  includes (trim line) (js "PR SUMMARIZATION PIPELINE")
  || test (trim line) ResultsView.progressRe.

(** No earlier branch of the chain takes the line before the test for the
    pipeline marker: it is not skipped, not metadata, not a commit line, not
    the top border of a file change, not a line of the file change that is
    open, not the marker of the overall summary, and the section is not the
    overall summary. *)
Definition reaches_pipeline_test (st : ResultsView.state) (line : jsstring)
  : bool :=
  negb (pr_skipped line) && negb (pr_meta_or_commit line)
  && negb (test (trim line) ResultsView.fileBoxRe)
  && negb (ResultsView.section_eqb (ResultsView.currentSection st)
                                   ResultsView.sec_fileChange
           && (test line ResultsView.leftBarRe
               || test line ResultsView.bottomRe))
  && negb (startsWith (trim line) (js "📝 Overall PR Summary:"))
  && negb (ResultsView.section_eqb (ResultsView.currentSection st)
                                   ResultsView.sec_overallSummary).

(** What the loop of _parsePRSummary does with a line that starts with the
    warning glyph, by section. *)
Definition warning_outcome (line : jsstring) (st st' : ResultsView.state)
  : Prop :=
  let r := ResultsView.result st in
  let r' := ResultsView.result st' in
  match ResultsView.currentSection st with
  | ResultsView.sec_overallSummary =>
      ResultsView.overallSummary r'
      = ResultsView.overallSummary r ++ trim line ++ js " "
      /\ ResultsView.warnings r' = ResultsView.warnings r
  | ResultsView.sec_pipeline =>
      ResultsView.pipelineInfo r'
      = ResultsView.pipelineInfo r ++ trim line ++ [10]
      /\ ResultsView.warnings r' = ResultsView.warnings r
  | _ =>
      if includes (trim line) (js "PR SUMMARIZATION PIPELINE")
      then ResultsView.pipelineInfo r'
           = ResultsView.pipelineInfo r ++ trim line ++ [10]
           /\ ResultsView.currentSection st' = ResultsView.sec_pipeline
           /\ ResultsView.warnings r' = ResultsView.warnings r
      else ResultsView.warnings r' = ResultsView.warnings r ++ [trim line]
  end.

End Spec.

(* ===================================================================== *)
(** * webview/resultsViewProvider.ts: what the views do with the results *)
(* ===================================================================== *)

Module Render.
Import JS RegExp Cli.

(** [s.replace(/c/g, text)] for a pattern of one character [c] and a
    replacement text without [$]: every occurrence is replaced. *)
Definition replace_char (c : Z) (text : jsstring) (s : jsstring) : jsstring :=
  flat_map (fun x => if x =? c then text else [x]) s.

(** [_escapeHtml]: the five replacements, in the order of the source
    (ampersand, less-than, greater-than, double quote, single quote). *)
Definition _escapeHtml (text : jsstring) : jsstring :=
  replace_char 39 (js "&#039;")
    (replace_char 34 (js "&quot;")
       (replace_char 62 (js "&gt;")
          (replace_char 60 (js "&lt;")
             (replace_char 38 (js "&amp;") text)))).

(** The entity that stands for one character in escaped text. *)
Definition escape_char (c : Z) : jsstring :=
  if c =? 38 then js "&amp;"
  else if c =? 60 then js "&lt;"
  else if c =? 62 then js "&gt;"
  else if c =? 34 then js "&quot;"
  else if c =? 39 then js "&#039;"
  else [c].

(** The characters that [_escapeHtml] replaces. *)
Definition is_html_special (c : Z) : bool :=
  (c =? 38) || (c =? 60) || (c =? 62) || (c =? 34) || (c =? 39).

(** [RELEVANCE_THRESHOLD] of [_getRagResultsHtml]. *)
Definition RELEVANCE_THRESHOLD : Q := 0.

(** [typeof s.similarity === 'number' && s.similarity >= RELEVANCE_THRESHOLD]:
    NaN is a number, and no comparison with NaN holds. *)
Definition is_relevant (s : record) : bool :=
  match similarity s with
  | Some (Num q) => Qle_bool RELEVANCE_THRESHOLD q
  | Some (Infinity negative) => negb negative
  | Some NaN => false
  | None => false
  end.

(** [relevantSources] of [_getRagResultsHtml]: [sources.filter(...)]. *)
Definition relevantSources (sources : list record) : list record :=
  filter is_relevant sources.

(** A source has a similarity that is a number other than NaN. *)
Definition has_numeric_similarity (s : record) : bool :=
  match similarity s with
  | Some (Num _) | Some (Infinity _) => true
  | _ => false
  end.

(** The text of a commit item in [_buildMainSummaryCard]:
    [commit.substring(1).trim()]. *)
Definition commit_item_text (commit : jsstring) : jsstring :=
  trim (substring 1 commit).

End Render.

(* ===================================================================== *)
(** * What the groups of a pattern capture *)
(* ===================================================================== *)

Module Captures.
Import JS RegExp Cli.

(** Whatever group [n] captures in [r] satisfies [Q]. *)
Fixpoint group_sat (n : nat) (Q : jsstring -> Prop) (r : regex) : Prop :=
  match r with
  | Group m r1 =>
      ((m =? n)%nat = true ->
       forall st st1,
         Matches r1 st st1 -> Q (firstn (pos st1 - pos st) (rest st)))
      /\ group_sat n Q r1
  | Seq r1 r2 | Alt r1 r2 => group_sat n Q r1 /\ group_sat n Q r2
  | Star _ r1 => group_sat n Q r1
  | _ => True
  end.

(** [r] takes at least one character whenever it matches. *)
Fixpoint consumes (r : regex) : bool :=
  match r with
  | Char _ => true
  | Seq r1 r2 => consumes r1 || consumes r2
  | Alt r1 r2 => consumes r1 && consumes r2
  | Group _ r1 => consumes r1
  | _ => false
  end.

(** The text of the kind in a header. *)
Definition kind_text (w : jsstring) : Prop :=
  w = js "FUNCTION" \/ w = js "CLASS".

(** A text of one or more characters of a class. *)
Definition some_of (p : Z -> bool) (w : jsstring) : Prop :=
  w <> [] /\ forallb p w = true.

(** The type of a record is one of the two kinds. *)
Definition kind_ok (r : record) : Prop :=
  type r = js "function" \/ type r = js "class".

(** The name of a record is an identifier: word characters, at least
    one. *)
Definition name_ok (r : record) : Prop := some_of is_word (name r).

(** A number that is an integer and is not negative, or the positive
    infinity that a run of digits too long for a double is read as: not
    NaN, not negative, without a fraction. *)
Definition is_line_number (x : number) : Prop :=
  x = Infinity false \/ exists n, 0 <= n /\ x = int n.

(** The line numbers of a record, when it has them, are such numbers. *)
Definition lines_ok (r : record) : Prop :=
  match start_line r, end_line r with
  | Some a, Some b => is_line_number a /\ is_line_number b
  | None, None => True
  | _, _ => False
  end.

End Captures.

(* ===================================================================== *)
(** * The sections of the RAG output *)
(* ===================================================================== *)

Module Sections.
Import JS RegExp Cli.

(** The line carries the marker of the sources section. *)
Definition is_sources_marker (line : jsstring) : bool :=
  includes (trim line) (js "Supporting Sources").

(** Nothing of the sources section has been seen: no section, no source,
    no box, no code. *)
Definition before_sources (st : Cli.state) : Prop :=
  inSourcesSection st = false
  /\ sources st = [] /\ currentSource st = None
  /\ inSourceBox st = false /\ collectingCode st = false.

(** The sources section has begun, with a given answer. *)
Definition in_sources_with (a : jsstring) (st : Cli.state) : Prop :=
  inSourcesSection st = true /\ answer st = a.

End Sections.

(* ===================================================================== *)
(** * The fields of a PR summary *)
(* ===================================================================== *)

Module Documents.
Import JS RegExp.

(** A text without white space at its two ends. *)
Definition is_trimmed (s : jsstring) : Prop := trim s = s.

(** A number that is an integer, or an infinity (what digits too many for
    a double are read as): not NaN, and without a fraction. *)
Definition integer_or_infinite (x : number) : Prop :=
  (exists negative, x = Infinity negative) \/ exists n, x = int n.

(** A commit line: the bullet, then the rest. *)
Definition is_commit_entry (c : jsstring) : Prop :=
  test c ResultsView.commitRe = true
  /\ is_trimmed c
  /\ exists t, c = 0x2022 :: t /\ Render.commit_item_text c = trim t.

(** The counts of the metadata are integers or infinite, never NaN. *)
Definition counts_ok (r : ResultsView.summary) : Prop :=
  integer_or_infinite (ResultsView.commits (ResultsView.meta r))
  /\ integer_or_infinite (ResultsView.changedFiles (ResultsView.meta r)).

(** The texts that the loop of _parsePRSummary stores trimmed. *)
Definition stored_trimmed (r : ResultsView.summary) : Prop :=
  is_trimmed (ResultsView.branch (ResultsView.meta r))
  /\ Forall is_trimmed (ResultsView.commitHistory r)
  /\ Forall (fun fc => is_trimmed (ResultsView.filename fc)
                       /\ is_trimmed (ResultsView.content fc))
            (ResultsView.fileChanges r)
  /\ Forall is_trimmed (ResultsView.warnings r).

(** The file changes pushed, and the one that is open. *)
Definition changes_seen (st : ResultsView.state) : nat :=
  List.length (ResultsView.fileChanges (ResultsView.result st))
  + match ResultsView.currentFileChange st with
    | Some _ => 1
    | None => 0
    end.

(** The line is the top border of a file change. *)
Definition is_file_top (line : jsstring) : bool :=
  test (trim line) ResultsView.fileBoxRe.

(** What the loop of _parsePRSummary keeps. *)
Definition pr_inv (st : ResultsView.state) : Prop :=
  counts_ok (ResultsView.result st)
  /\ stored_trimmed (ResultsView.result st)
  /\ Forall is_commit_entry (ResultsView.commitHistory (ResultsView.result st))
  /\ match ResultsView.currentFileChange st with
     | Some fc => is_trimmed (ResultsView.filename fc)
     | None => True
     end.

End Documents.

(* ===================================================================== *)
(** * resultsViewProvider.ts: the cards of a PR summary *)
(* ===================================================================== *)

Module Cards.
Import JS ResultsView Render.

(** The double quote and the line break of the texts below. *)
Definition dq : jsstring := [34].
Definition nl : jsstring := [10].

(** The card of one file change: the template of the [forEach] of
    [_buildFileChangeCards]. *)
Definition file_card (fileChange : file_change) : jsstring :=
  List.concat
    [nl; js "            <div class="; dq; js "file-card"; dq; js ">"; nl;
     js "                <div class="; dq; js "file-header"; dq; js ">";
     nl; js "                    <span class="; dq; js "file-icon"; dq;
     js ">🔹</span>"; nl; js "                    <span class="; dq;
     js "file-name"; dq; js ">"; _escapeHtml (filename fileChange);
     js "</span>"; nl; js "                </div>"; nl;
     js "                <div class="; dq; js "file-summary"; dq; js ">";
     nl; js "                    "; _escapeHtml (content fileChange); nl;
     js "                </div>"; nl; js "            </div>"].

(** [_buildFileChangeCards] *)
Definition _buildFileChangeCards (fileChanges : list file_change)
  : jsstring :=
  let html :=
    List.concat [js "<div class="; dq; js "file-changes-container"; dq;
                 js ">"] in
  let html :=
    html ++ List.concat [js "<h2 class="; dq; js "section-title"; dq;
                         js ">📂 File Changes</h2>"] in
  let html :=
    fold_left (fun html fileChange => html ++ file_card fileChange)
              fileChanges html in
  html ++ js "</div>".

(** [_buildOverallSummaryCard] *)
Definition _buildOverallSummaryCard (summary : jsstring) : jsstring :=
  List.concat
    [nl; js "        <div class="; dq;
     js "summary-card overall-summary-card"; dq; js ">"; nl;
     js "            <h2>💡 Overall Summary</h2>"; nl;
     js "            <p class="; dq; js "overall-summary-text"; dq;
     js ">"; _escapeHtml summary; js "</p>"; nl; js "        </div>"].

(** [_buildPipelineInfoCard] *)
Definition _buildPipelineInfoCard (pipelineInfo : jsstring) : jsstring :=
  if negb (truthy pipelineInfo) then []
  else
    List.concat
      [nl; js "        <details class="; dq; js "pipeline-details"; dq;
       js ">"; nl; js "            <summary class="; dq;
       js "pipeline-summary"; dq; js ">⚙️ Pipeline Details</summary>"; nl;
       js "            <div class="; dq; js "pipeline-content"; dq;
       js ">"; nl; js "                <pre><code>";
       _escapeHtml pipelineInfo; js "</code></pre>"; nl;
       js "            </div>"; nl; js "        </details>"].

(** One item of the commit list of [_buildMainSummaryCard]. *)
Definition commit_item (commit : jsstring) : jsstring :=
  List.concat
    [js "<li class="; dq; js "commit-item"; dq; js ">";
     _escapeHtml (commit_item_text commit); js "</li>"].

(** [commitsHtml] of [_buildMainSummaryCard]: the list of the commits, and
    nothing when there is none. *)
Definition commitsHtml (commitHistory : list jsstring) : jsstring :=
  if (0 <? List.length commitHistory)%nat then
    let html := List.concat
      [js "<div class="; dq; js "commits-section"; dq;
       js "><h3>Recent Commits</h3><ul class="; dq; js "commit-list"; dq;
       js ">"] in
    let html :=
      fold_left (fun html commit => html ++ commit_item commit)
                commitHistory html in
    html ++ js "</ul></div>"
  else [].

(** The characters that make the markup of a page: the angle brackets and
    the quotes. *)
Definition is_markup (c : Z) : bool :=
  (c =? 60) || (c =? 62) || (c =? 34) || (c =? 39).

(** The markup of a text: what is left of it when every other character
    is taken out. *)
Definition markup (html : jsstring) : jsstring := filter is_markup html.

End Cards.

(* ===================================================================== *)
(** * cliIntegration.ts: the message of a failed search *)
(* ===================================================================== *)

Module Commands.
Import JS RegExp Cli.

(** [CLIResult], what a run of the CLI resolves to.  [error] is the
    message of [result.error] when there is one. *)
Record CLIResult : Type := {
  success : bool;
  stdout : jsstring;
  stderr : jsstring;
  error : option jsstring
}.

(** [a || b] on two texts, where [undefined] is written as the empty text:
    both are falsy. *)
Definition or_else (a b : jsstring) : jsstring := if truthy a then a else b.

(** [[\s\S]] *)
Definition any : regex := Char (fun _ => true).

(** [/Traceback \(most recent call last\):[\s\S]+/] *)
Definition tracebackRe : regex :=
  seq [lit (js "Traceback (most recent call last):"); plus any].

(** [/Error.*?:.*/i]: with the [i] flag a letter of the pattern matches
    its two cases. *)
Definition errorRe : regex :=
  seq [one_of (js "Ee"); one_of (js "Rr"); one_of (js "Rr");
       one_of (js "Oo"); one_of (js "Rr"); Star false dot; lit (js ":");
       star dot].

(** [m[0]], the text that was matched. *)
Definition matched (s : jsstring) (m : match_result) : jsstring :=
  firstn (m_end m - m_start m) (skipn (m_start m) s).

(** [result.stderr || result.stdout || result.error?.message
     || 'Unknown error'] *)
Definition errorOutput (result : CLIResult) : jsstring :=
  or_else
    (or_else (or_else (stderr result) (stdout result))
             (match error result with Some message => message | None => [] end))
    (js "Unknown error").

(** [errorMsg] of searchCodeHyde: the traceback, or else the line of the
    error, or else the whole output. *)
Definition errorMsg (result : CLIResult) : jsstring :=
  let errorOutput := errorOutput result in
  let tracebackMatch := js_match errorOutput tracebackRe in
  let errorMatch := js_match errorOutput errorRe in
  match tracebackMatch with
  | Some m => matched errorOutput m
  | None =>
      match errorMatch with
      | Some m => matched errorOutput m
      | None => errorOutput
      end
  end.

(** The message of the error that searchCodeHyde throws after a failed
    run. *)
Definition hyde_error (result : CLIResult) : jsstring :=
  js "HyDE search error: " ++ errorMsg result.

(** A line terminator, the characters that [.] does not match. *)
Definition is_line_terminator (c : Z) : bool :=
  (c =? 10) || (c =? 13) || (c =? 0x2028) || (c =? 0x2029).

End Commands.

(* ===================================================================== *)
(** * apiKeyManager.ts *)
(* ===================================================================== *)

Module ApiKeyManager.
Import JS.

(** Where a key can come from: the entry of the SecretStorage, the
    environment variable [LLM_API_KEY] and the setting [apiKey], whose
    default is the empty text. *)
Record sources : Type := {
  secretKey : option jsstring;
  envKey : option jsstring;
  settingsKey : jsstring
}.

(** [k && k.trim()] as a condition. *)
Definition usable (k : option jsstring) : bool :=
  match k with
  | Some s => truthy s && truthy (trim s)
  | None => false
  end.

(** The text of a key, the empty text for [undefined]. *)
Definition text_of (k : option jsstring) : jsstring :=
  match k with Some s => s | None => [] end.

(** [getApiKey]: the SecretStorage, then the environment, then the
    settings. *)
Definition getApiKey (w : sources) : jsstring :=
  if usable (secretKey w) then text_of (secretKey w)
  else if usable (envKey w) then text_of (envKey w)
  else if usable (Some (settingsKey w)) then settingsKey w
  else [].

(** A call that stores: it is done, with the new state, or it has thrown
    an Error with a message. *)
Inductive outcome (A : Type) : Type :=
| Done (a : A)
| Failed (message : jsstring).
Arguments Done {A} a.
Arguments Failed {A} message.

(** [setApiKey] *)
Definition setApiKey (apiKey : jsstring) (w : sources) : outcome sources :=
  if negb (truthy apiKey) || negb (truthy (trim apiKey))
  then Failed (js "API key cannot be empty")
  else Done {| secretKey := Some apiKey; envKey := envKey w;
               settingsKey := settingsKey w |}.

(** [deleteApiKey] *)
Definition deleteApiKey (w : sources) : sources :=
  {| secretKey := None; envKey := envKey w; settingsKey := settingsKey w |}.

(** [getApiKeySource] *)
Definition getApiKeySource (w : sources) : jsstring :=
  if usable (secretKey w) then js "SecretStorage (Secure)"
  else if usable (envKey w) then js "Environment Variable"
  else if usable (Some (settingsKey w))
       then js "VS Code Settings (Not Recommended)"
  else js "Not Configured".

End ApiKeyManager.

(* ===================================================================== *)
(** * stateManager.ts: the name of a collection *)
(* ===================================================================== *)

Module StateManager.
Import JS.

(** [[a-z0-9_]] *)
Definition is_name_char (c : Z) : bool :=
  ((97 <=? c) && (c <=? 122)) || ((48 <=? c) && (c <=? 57)) || (c =? 95).

(** [s.replace(/[^a-z0-9_]/g, '_')]: every code unit out of the class is
    replaced. *)
Definition sanitize (s : jsstring) : jsstring :=
  map (fun c => if is_name_char c then c else 95) s.

Section Names.

(** [path.basename] of Node and [String.prototype.toLowerCase], which are
    not modelled: what follows holds whatever they return. *)
Variable basename : jsstring -> jsstring.
Variable toLowerCase : jsstring -> jsstring.

(** [generateCollectionName] *)
Definition generateCollectionName (repoPath : jsstring) : jsstring :=
  let baseName := basename repoPath in
  sanitize (toLowerCase baseName) ++ js "_code".

End Names.

End StateManager.

Import JS RegExp Cli Spec Captures Sections Documents.

(* ===================================================================== *)
(** * Strings: facts about trim, includes and startsWith *)
(* ===================================================================== *)

Lemma startsWith_app (s p : jsstring) :
  startsWith s p = true <-> exists v, s = p ++ v.
Proof.
  revert s; induction p as [|a p IH]; intros s; simpl.
  - split; [intros _; now exists s | reflexivity].
  - destruct s as [|b s]; simpl.
    + split; [discriminate | intros [v Hv]; discriminate].
    + rewrite andb_true_iff, Z.eqb_eq, IH. split.
      * intros [-> [v ->]]. now exists v.
      * intros [v Hv]. injection Hv as -> ->. split; [reflexivity | now exists v].
Qed.

Lemma includes_app (s p : jsstring) :
  includes s p = true <-> exists u v, s = u ++ p ++ v.
Proof.
  induction s as [|c s IH].
  - simpl. rewrite orb_false_r, startsWith_app. split.
    + intros [v Hv]. now exists [], v.
    + intros [u [v Huv]]. destruct u; [now exists v|discriminate].
  - cbn [includes]. rewrite orb_true_iff, startsWith_app, IH. split.
    + intros [[v Hv] | [u [v Huv]]].
      * now exists [], v.
      * exists (c :: u), v. now rewrite Huv.
    + intros [u [v Huv]]. destruct u as [|d u].
      * left. now exists v.
      * right. injection Huv as _ ->. now exists u, v.
Qed.

Lemma includes_within (s u v p : jsstring) :
  includes s p = true -> includes (u ++ s ++ v) p = true.
Proof.
  rewrite !includes_app. intros [a [b ->]].
  exists (u ++ a), (b ++ v). now rewrite <- !app_assoc.
Qed.

Lemma includes_false_within (s u v p : jsstring) :
  includes (u ++ s ++ v) p = false -> includes s p = false.
Proof.
  intros H. destruct (includes s p) eqn:E; [|reflexivity].
  now rewrite (includes_within _ u v _ E) in H.
Qed.

Lemma trimStart_suffix (s : jsstring) :
  exists u, s = u ++ trimStart s /\ forallb is_ws u = true.
Proof.
  induction s as [|c s [u [Hu Hw]]]; simpl.
  - now exists [].
  - destruct (is_ws c) eqn:E.
    + exists (c :: u). simpl. rewrite E, Hw. now rewrite <- Hu.
    + now exists [].
Qed.

Lemma trimEnd_prefix (s : jsstring) :
  exists v, s = trimEnd s ++ v /\ forallb is_ws v = true.
Proof.
  unfold trimEnd. destruct (trimStart_suffix (rev s)) as [u [Hu Hw]].
  exists (rev u). split.
  - rewrite <- rev_app_distr, <- Hu. now rewrite rev_involutive.
  - rewrite forallb_forall in *. intros x Hx. apply Hw. now apply in_rev.
Qed.

Lemma trim_within (s : jsstring) :
  exists u v, s = u ++ trim s ++ v
              /\ forallb is_ws u = true /\ forallb is_ws v = true.
Proof.
  unfold trim. destruct (trimStart_suffix s) as [u [Hu Hwu]].
  destruct (trimEnd_prefix (trimStart s)) as [v [Hv Hwv]].
  exists u, v. split; [|now split]. rewrite <- Hv. exact Hu.
Qed.

Lemma trimStart_keeps (c : Z) (s : jsstring) :
  is_ws c = false -> trimStart (c :: s) = c :: s.
Proof. intros H. simpl. now rewrite H. Qed.

Lemma trimStart_snoc (s : jsstring) (c : Z) :
  is_ws c = false -> trimStart (s ++ [c]) = trimStart s ++ [c].
Proof.
  intros H. induction s as [|d s IH]; simpl.
  - now rewrite H.
  - destruct (is_ws d); [exact IH | reflexivity].
Qed.

Lemma trimEnd_cons (c : Z) (s : jsstring) :
  is_ws c = false -> exists s', trimEnd (c :: s) = c :: s'.
Proof.
  intros H. unfold trimEnd. simpl. rewrite trimStart_snoc by exact H.
  rewrite rev_app_distr. simpl. eauto.
Qed.

Lemma trim_cons (c : Z) (s : jsstring) :
  is_ws c = false -> exists s', trim (c :: s) = c :: s'.
Proof.
  intros H. unfold trim. rewrite trimStart_keeps by exact H.
  now apply trimEnd_cons.
Qed.

(** The first character of [trim s] is the first character of [s] that is
    not white space. *)
Lemma trim_head (s : jsstring) (c : Z) (t : jsstring) :
  trim s = c :: t ->
  exists u v, s = u ++ c :: v /\ forallb is_ws u = true /\ is_ws c = false.
Proof.
  intros Ht. destruct (trimStart_suffix s) as [u [Hu Hw]].
  unfold trim in Ht.
  destruct (trimStart s) as [|d s'] eqn:E.
  - discriminate.
  - assert (Hd : is_ws d = false).
    { clear -E. induction s as [|x s IH]; simpl in E; [discriminate|].
      destruct (is_ws x) eqn:Ex; [auto|]. injection E as -> _. exact Ex. }
    destruct (trimEnd_cons d s' Hd) as [s'' Hs'']. rewrite Hs'' in Ht.
    injection Ht as -> _. exists u, s'. auto.
Qed.

Lemma includes_rev (s p : jsstring) :
  includes s p = true -> includes (rev s) (rev p) = true.
Proof.
  rewrite !includes_app. intros [u [v ->]].
  exists (rev v), (rev u). now rewrite !rev_app_distr, app_assoc.
Qed.

Lemma includes_trimStart (s p : jsstring) (c : Z) (p' : jsstring) :
  p = c :: p' -> is_ws c = false ->
  includes s p = true -> includes (trimStart s) p = true.
Proof.
  intros -> Hc. induction s as [|d s IH]; [auto|].
  cbn [trimStart]. destruct (is_ws d) eqn:Ed; [|auto].
  cbn [includes startsWith]. destruct (Z.eqb_spec c d) as [->|_].
  - congruence.
  - simpl. exact IH.
Qed.

(** A text whose first and last characters are not white space is in a
    string as soon as it is in the string before it is trimmed. *)
Lemma includes_trim (s p : jsstring) (c z : Z) (p1 p2 : jsstring) :
  p = c :: p1 -> p = p2 ++ [z] -> is_ws c = false -> is_ws z = false ->
  includes s p = true -> includes (trim s) p = true.
Proof.
  intros Hp1 Hp2 Hc Hz H. unfold trim, trimEnd.
  rewrite <- (rev_involutive p). apply includes_rev.
  apply includes_trimStart with (c := z) (p' := rev p2).
  - rewrite Hp2, rev_app_distr. reflexivity.
  - exact Hz.
  - apply includes_rev. eapply includes_trimStart; eauto.
Qed.

(* ===================================================================== *)
(** * Regular expressions: the matcher finds matches only *)
(* ===================================================================== *)

Lemma rmatch_sound (r : regex) :
  forall st k res,
    rmatch r st k = Some res ->
    exists st', Matches r st st' /\ k st' = Some res.
Proof.
  induction r as [|p|r1 IH1 r2 IH2|r1 IH1 r2 IH2|g r1 IH1|n r1 IH1| |];
    intros st k res H; cbn [rmatch] in H.
  - exists st. split; [constructor | exact H].
  - destruct (rest st) as [|c s'] eqn:E; [discriminate|].
    destruct (p c) eqn:Ep; [|discriminate].
    exists (advance st s'). split; [now apply M_Char with c | exact H].
  - apply IH1 in H. destruct H as [st1 [H1 H]].
    apply IH2 in H. destruct H as [st2 [H2 H]].
    exists st2. split; [now apply M_Seq with st1 | exact H].
  - destruct (rmatch r1 st k) eqn:E.
    + injection H as ->. apply IH1 in E. destruct E as [st' [H1 H]].
      exists st'. split; [now apply M_AltL | exact H].
    + apply IH2 in H. destruct H as [st' [H2 H]].
      exists st'. split; [now apply M_AltR | exact H].
  - revert H. generalize (S (List.length (rest st))). intros n. revert st res.
    induction n as [|n IHn]; intros st res H; simpl in H.
    + exists st. split; [apply M_StarStop | exact H].
    + assert (Hagain : forall res',
                 rmatch r1 st
                   (fun st1 => if (pos st <? pos st1)%nat
                               then iterate g (rmatch r1) k n st1
                               else None) = Some res' ->
                 exists st', Matches (Star g r1) st st' /\ k st' = Some res').
      { intros res' Hr. apply IH1 in Hr. destruct Hr as [st1 [H1 Hr]].
        destruct (pos st <? pos st1)%nat eqn:Elt; [|discriminate].
        apply Nat.ltb_lt in Elt. apply IHn in Hr.
        destruct Hr as [st2 [H2 Hr]].
        exists st2. split; [now apply M_StarStep with st1 | exact Hr]. }
      destruct g.
      * match type of H with
        | match ?X with _ => _ end = _ => destruct X eqn:E
        end.
        -- injection H as ->. now apply Hagain.
        -- exists st. split; [apply M_StarStop | exact H].
      * destruct (k st) eqn:E.
        -- injection H as ->. exists st. split; [apply M_StarStop | exact E].
        -- now apply Hagain.
  - apply IH1 in H. destruct H as [st1 [H1 H]].
    exists (capture n st st1). split; [now constructor | exact H].
  - destruct (pos st =? 0)%nat eqn:E; [|discriminate].
    apply Nat.eqb_eq in E. exists st. split; [now constructor | exact H].
  - destruct (rest st) eqn:E; [|discriminate].
    exists st. split; [now constructor | exact H].
Qed.

(** A match consumes a word [w] of the text, made of characters the
    pattern allows. *)
Lemma Matches_word (r : regex) (st st' : mstate) :
  Matches r st st' ->
  exists w, rest st = w ++ rest st'
            /\ pos st' = (pos st + List.length w)%nat
            /\ forall p, chars_in p r -> forallb p w = true.
Proof.
  induction 1 as [st|p st c s' Hr Hp|r1 r2 st st1 st2 _ IH1 _ IH2
                  |r1 r2 st st' _ IH|r1 r2 st st' _ IH|g r st
                  |g r st st1 st2 _ IH1 Hlt _ IH2|n r st st1 _ IH
                  |st Hp|st Hr].
  - exists []. simpl. repeat split; auto.
  - exists [c]. simpl. rewrite Hr. repeat split.
    + lia.
    + intros q Hq. now rewrite (Hq c Hp).
  - destruct IH1 as [w1 [E1 [P1 C1]]], IH2 as [w2 [E2 [P2 C2]]].
    exists (w1 ++ w2). rewrite E1, E2, P2, P1, length_app, <- app_assoc.
    repeat split; [lia|].
    intros p [Hp1 Hp2]. now rewrite forallb_app, C1, C2.
  - destruct IH as [w [E [P C]]]. exists w. repeat split; auto.
    intros p [Hp _]. auto.
  - destruct IH as [w [E [P C]]]. exists w. repeat split; auto.
    intros p [_ Hp]. auto.
  - exists []. simpl. repeat split; auto.
  - destruct IH1 as [w1 [E1 [P1 C1]]], IH2 as [w2 [E2 [P2 C2]]].
    exists (w1 ++ w2). rewrite E1, E2, P2, P1, length_app, <- app_assoc.
    repeat split; [lia|].
    intros p Hp. rewrite forallb_app, C1, C2; auto.
  - destruct IH as [w [E [P C]]]. exists w. simpl. repeat split; auto.
  - exists []. simpl. repeat split; auto.
  - exists []. simpl. repeat split; auto.
Qed.

(** A group that is captured stays captured. *)
Lemma Matches_caps_kept (r : regex) (st st' : mstate) (n : nat) :
  Matches r st st' -> lookup n (caps st) <> None -> lookup n (caps st') <> None.
Proof.
  induction 1; auto.
  intros Hn. simpl. destruct (n0 =? n)%nat; [discriminate | auto].
Qed.

(** A group on every path of the pattern takes part in the match. *)
Lemma Matches_defines (r : regex) (st st' : mstate) (n : nat) :
  Matches r st st' -> defines r n = true -> lookup n (caps st') <> None.
Proof.
  induction 1 as [st|p st c s' Hr Hp|r1 r2 st st1 st2 H1 IH1 H2 IH2
                  |r1 r2 st st' _ IH|r1 r2 st st' _ IH|g r st
                  |g r st st1 st2 _ IH1 Hlt _ IH2|m r st st1 _ IH
                  |st Hp|st Hr]; simpl; try discriminate.
  - rewrite orb_true_iff. intros [Hd | Hd].
    + eapply Matches_caps_kept; eauto.
    + auto.
  - rewrite andb_true_iff. intros [Hd _]. auto.
  - rewrite andb_true_iff. intros [_ Hd]. auto.
  - intros Hd. destruct (m =? n)%nat; [discriminate | auto].
Qed.

(** What [search_from] returns is a match of the pattern, at some index
    from [i] on. *)
Lemma search_from_spec (r : regex) (s : jsstring) :
  forall i m,
    search_from r i s = Some m ->
    exists u v st',
      s = u ++ v
      /\ m_start m = (i + List.length u)%nat
      /\ Matches r {| pos := m_start m; rest := v; caps := [] |} st'
      /\ m_end m = pos st' /\ m_caps m = caps st'.
Proof.
  induction s as [|c s IH]; intros i m H; simpl in H.
  - destruct (rmatch r _ Some) as [st|] eqn:E; [|discriminate].
    injection H as <-. apply rmatch_sound in E.
    destruct E as [st' [Hm E]]. injection E as ->.
    exists [], [], st. simpl. rewrite Nat.add_0_r. auto.
  - destruct (rmatch r _ Some) as [st|] eqn:E.
    + injection H as <-. apply rmatch_sound in E.
      destruct E as [st' [Hm E]]. injection E as ->.
      exists [], (c :: s), st. simpl. rewrite Nat.add_0_r. auto.
    + apply IH in H. destruct H as [u [v [st' [Es [Ei H]]]]].
      exists (c :: u), v, st'. simpl. rewrite Es, Ei.
      split; [reflexivity|]. split; [lia|]. rewrite <- Ei. exact H.
Qed.

Lemma js_match_spec (s : jsstring) (r : regex) (m : match_result) :
  js_match s r = Some m ->
  exists u v st',
    s = u ++ v /\ m_start m = List.length u
    /\ Matches r {| pos := m_start m; rest := v; caps := [] |} st'
    /\ m_end m = pos st' /\ m_caps m = caps st'.
Proof.
  intros H. apply search_from_spec in H.
  destruct H as [u [v [st' H]]]. exists u, v, st'. exact H.
Qed.

(** Reading a group that is on every path of the pattern does not throw. *)
Lemma group_defined (s : jsstring) (r : regex) (m : match_result) (n : nat) :
  js_match s r = Some m -> defines r n = true ->
  exists w, group m n = Return w.
Proof.
  intros H Hd. apply js_match_spec in H.
  destruct H as [u [v [st' [_ [_ [Hm [_ Hc]]]]]]].
  unfold group. rewrite Hc.
  destruct (lookup n (caps st')) as [w|] eqn:E.
  - now exists w.
  - exfalso. eapply Matches_defines; eauto.
Qed.

(** ** Patterns that cannot match *)

Lemma rmatch_blocked (r : regex) :
  forall st k,
    blocked r (hd_error (rest st)) = true -> rmatch r st k = None.
Proof.
  induction r as [|p|r1 IH1 r2 IH2|r1 IH1 r2 IH2|g r1 IH1|n r1 IH1| |];
    intros st k H; cbn [rmatch blocked] in *; try discriminate.
  - destruct (rest st) as [|c s']; [reflexivity|]. simpl in H.
    now destruct (p c).
  - apply orb_true_iff in H. destruct H as [H | H].
    + now apply IH1.
    + apply andb_true_iff in H. destruct H as [Hz H].
      destruct r1; try discriminate; cbn [rmatch].
      * now apply IH2.
      * destruct (pos st =? 0)%nat; [now apply IH2 | reflexivity].
  - apply andb_true_iff in H. destruct H as [H1 H2].
    now rewrite IH1, IH2.
  - now apply IH1.
  - destruct (rest st); [discriminate | reflexivity].
Qed.

(** A pattern that begins with [^] matches at index 0 or not at all. *)
Lemma search_from_bol (r : regex) (s : jsstring) (i : nat) :
  search_from (Seq Bol r) (S i) s = None.
Proof.
  revert i. induction s as [|c s IH]; intros i; simpl; auto.
Qed.

Lemma js_match_bol (r : regex) (s : jsstring) :
  js_match s (Seq Bol r)
  = match rmatch r {| pos := 0; rest := s; caps := [] |} Some with
    | Some st => Some {| m_start := 0; m_end := pos st; m_caps := caps st |}
    | None => None
    end.
Proof.
  unfold js_match. destruct s as [|c s]; simpl.
  - now destruct (rmatch r _ Some).
  - destruct (rmatch r _ Some); [reflexivity | apply search_from_bol].
Qed.

Lemma js_match_bol_start (r : regex) (s : jsstring) (m : match_result) :
  js_match s (Seq Bol r) = Some m -> m_start m = 0%nat.
Proof.
  rewrite js_match_bol. destruct (rmatch r _ Some); [|discriminate].
  now intros [= <-].
Qed.

(** An anchored pattern whose head cannot match the first character of
    the text does not match. *)
Lemma test_bol_blocked (r : regex) (s : jsstring) :
  blocked r (hd_error s) = true -> test s (Seq Bol r) = false.
Proof.
  intros H. unfold test. rewrite js_match_bol.
  now rewrite rmatch_blocked.
Qed.

Lemma test_blocked_head (r : regex) (s : jsstring) :
  match r with
  | Seq Bol r' => blocked r' (hd_error s)
  | _ => false
  end = true ->
  test s r = false.
Proof.
  destruct r as [| |r1 r2| | | | |]; try discriminate.
  destruct r1; try discriminate. apply test_bol_blocked.
Qed.

(** Whatever a group captures is made of the characters of its pattern. *)
Lemma Matches_group_class (r : regex) (st st' : mstate) (n : nat)
  (p : Z -> bool) :
  Matches r st st' -> group_class n p r ->
  (forall w, lookup n (caps st) = Some w -> forallb p w = true) ->
  forall w, lookup n (caps st') = Some w -> forallb p w = true.
Proof.
  induction 1 as [st|q st c s' Hr Hp|r1 r2 st st1 st2 H1 IH1 H2 IH2
                  |r1 r2 st st' _ IH|r1 r2 st st' _ IH|g r st
                  |g r st st1 st2 _ IH1 Hlt _ IH2|m r st st1 Hm IH
                  |st Hp|st Hr]; simpl; auto.
  - intros [G1 G2] H0. auto.
  - intros [G1 _]. auto.
  - intros [_ G2]. auto.
  - intros [G1 G2] H0 w. destruct (Matches_word _ _ _ Hm) as [w0 [E [P C]]].
    destruct (m =? n)%nat eqn:Emn.
    + intros [= <-]. rewrite P, E.
      replace (pos st + List.length w0 - pos st)%nat with (List.length w0) by lia.
      rewrite firstn_app, firstn_all, Nat.sub_diag. simpl. rewrite app_nil_r.
      auto.
    + apply IH; auto.
Qed.

Lemma group_in_class (s : jsstring) (r : regex) (m : match_result) (n : nat)
  (p : Z -> bool) (w : jsstring) :
  js_match s r = Some m -> group_class n p r -> group m n = Return w ->
  forallb p w = true.
Proof.
  intros H Hg Hw. apply js_match_spec in H.
  destruct H as [u [v [st' [_ [_ [Hm [_ Hc]]]]]]].
  unfold group in Hw. rewrite Hc in Hw.
  destruct (lookup n (caps st')) as [w'|] eqn:E; [|discriminate].
  injection Hw as ->.
  eapply Matches_group_class; eauto. simpl. discriminate.
Qed.

(* ===================================================================== *)
(** * parseSearchOutput *)
(* ===================================================================== *)

(** Rewrites the read of a group of a match by the text it returns. *)
Ltac read_group H n :=
  let w := fresh "w" in
  let Hw := fresh "Hw" in
  destruct (group_defined _ _ _ n H eq_refl) as [w Hw];
  rewrite Hw; cbn [bind].

Section SearchRecords.

(** A property of records that the assignments of the parsers keep. *)
Variable P : record -> Prop.
Hypothesis P_new : forall t n, P (new_record t n).
Hypothesis P_location :
  forall r p a b,
    P r -> P (set_end_line (set_start_line (set_file_path r p) a) b).
Hypothesis P_similarity :
  forall r w,
    P r -> forallb sim_char w = true -> P (set_similarity r (parseFloat w)).
Hypothesis P_docstring : forall r d, P r -> P (set_docstring r d).

(** One line of the search output: the body returns; a header line
    closes the open record and opens the one it announces; any other
    line leaves the records closed so far, and the type and the name of
    the open one, as they are. *)
Lemma search_body_cases (results : list record) (cur : option record)
  (line : jsstring) :
  exists results' cur',
    search_body (results, cur) line = Return (results', cur')
    /\ (Forall P (results ++ pending cur) ->
        Forall P (results' ++ pending cur'))
    /\ (if is_header line
        then exists r, from_header line r
                       /\ results' ++ pending cur'
                          = (results ++ pending cur) ++ [r]
        else results' = results
             /\ map (fun r => (type r, name r)) (pending cur')
                = map (fun r => (type r, name r)) (pending cur)).
Proof.
  unfold search_body, is_header, test.
  destruct (js_match line headerRe) as [hm|] eqn:Eh.
  - destruct (group_defined _ _ _ 3 Eh eq_refl) as [nm Hnm].
    destruct (group_defined _ _ _ 2 Eh eq_refl) as [ty Hty].
    rewrite Hnm, Hty. cbn [bind].
    eexists _, _. split; [reflexivity|]. split.
    + intros HP. destruct cur as [r|]; simpl in *.
      * apply Forall_app. split; [exact HP | auto].
      * rewrite app_nil_r in HP. apply Forall_app. auto.
    + exists (new_record (toLowerCase ty) nm). split.
      * exists hm, ty. auto.
      * destruct cur; simpl; [reflexivity | now rewrite app_nil_r].
  - destruct cur as [cur|].
    2:{ exists results, None. auto. }
    assert (Hupd : forall r', P cur -> P r' ->
               Forall P (results ++ pending (Some cur)) ->
               Forall P (results ++ pending (Some r'))).
    { intros r' _ Hr' HP. apply Forall_app in HP. destruct HP as [HP _].
      apply Forall_app. split; [exact HP | constructor; auto]. }
    assert (Hcur : Forall P (results ++ pending (Some cur)) -> P cur).
    { intros HP. apply Forall_app in HP. destruct HP as [_ HP].
      now inversion HP. }
    destruct (js_match line fileRe) as [fm|] eqn:Ef.
    { read_group Ef 1%nat. read_group Ef 2%nat. read_group Ef 3%nat.
      eexists _, _. split; [reflexivity|]. split; [|auto].
      intros HP. apply Hupd; auto. }
    destruct (js_match line simRe) as [sm|] eqn:Es.
    { destruct (group_defined _ _ _ 1%nat Es eq_refl) as [w Hw].
      rewrite Hw. cbn [bind].
      eexists _, _. split; [reflexivity|]. split; [|auto].
      intros HP. apply Hupd; auto. apply P_similarity; auto.
      eapply group_in_class; [exact Es | | exact Hw].
      simpl. intuition. }
    destruct (js_match line docRe) as [dm|] eqn:Ed.
    { read_group Ed 1%nat.
      eexists _, _. split; [reflexivity|]. split; [|auto].
      intros HP. apply Hupd; auto. }
    exists results, (Some cur). auto.
Qed.

Lemma search_loop_keeps (lines : list jsstring) :
  forall results cur,
    Forall P (results ++ pending cur) ->
    exists results' cur',
      for_each search_body lines (results, cur) = Return (results', cur')
      /\ Forall P (results' ++ pending cur').
Proof.
  induction lines as [|line lines IH]; intros results cur HP;
    cbn [for_each].
  - eauto.
  - destruct (search_body_cases results cur line)
      as [results1 [cur1 [E [HP1 _]]]].
    rewrite E. cbn [bind]. apply IH. auto.
Qed.

Lemma parseSearchOutput_keeps (output : jsstring) :
  exists rs, parseSearchOutput output = Return rs /\ Forall P rs.
Proof.
  unfold parseSearchOutput.
  destruct (search_loop_keeps (lines_of output) [] None)
    as [results [cur [E HP]]]; [constructor|].
  rewrite E. cbn [bind]. eexists. split; [reflexivity|].
  destruct cur; simpl in *; [exact HP | now rewrite app_nil_r in HP].
Qed.

End SearchRecords.

(** The record of a header line is known by its type and its name. *)
Lemma from_header_same_key (line : jsstring) (r r' : record) :
  type r' = type r -> name r' = name r ->
  from_header line r -> from_header line r'.
Proof.
  intros Ht Hn [m [ty [Hm [H2 [Hty H3]]]]].
  exists m, ty. rewrite Ht, Hn. auto.
Qed.

Lemma search_loop_headers (lines : list jsstring) :
  forall results cur hs,
    Forall2 from_header hs (results ++ pending cur) ->
    exists results' cur',
      for_each search_body lines (results, cur) = Return (results', cur')
      /\ Forall2 from_header (hs ++ filter is_header lines)
                 (results' ++ pending cur').
Proof.
  induction lines as [|line lines IH]; intros results cur hs H;
    cbn [for_each filter].
  - exists results, cur. rewrite app_nil_r. auto.
  - destruct (search_body_cases (fun _ => True) (fun _ _ => I)
                (fun _ _ _ _ _ => I) (fun _ _ _ _ => I) (fun _ _ _ => I)
                results cur line)
      as [results1 [cur1 [E [_ Hc]]]].
    rewrite E. cbn [bind].
    destruct (is_header line).
    + destruct Hc as [r [Hr Hall]].
      replace (hs ++ line :: filter is_header lines)
        with ((hs ++ [line]) ++ filter is_header lines)
        by now rewrite <- app_assoc.
      apply IH. rewrite Hall. apply Forall2_app; auto.
    + destruct Hc as [-> Hkey]. apply IH.
      apply Forall2_app_inv_r in H.
      destruct H as [h1 [h2 [F1 [F2 ->]]]].
      apply Forall2_app; [exact F1|].
      destruct cur as [r|], cur1 as [r1|]; simpl in *; try discriminate; auto.
      inversion F2 as [|x y l l' Hxy Hl]; subst. inversion Hl; subst.
      injection Hkey as Ht Hn. constructor; [|constructor].
      eapply from_header_same_key; eauto.
Qed.

(* ===================================================================== *)
(** * parseRagOutput *)
(* ===================================================================== *)

Ltac split_ifs :=
  repeat match goal with
         | |- context [if ?c then _ else _] =>
             let E := fresh "E" in destruct c eqn:E; simpl
         end.

Ltac step_leaf tac :=
  unfold step_ok, safe, progress, all_sources, answer_step; simpl;
  repeat split; intros;
  repeat match goal with
         | H : _ /\ _ |- _ => destruct H
         | H : Some _ = Some _ |- _ => injection H as H; subst
         | H : forall c, Some ?x = Some c -> _ |- _ => specialize (H x eq_refl)
         | H : true = true -> None <> None |- _ =>
             exfalso; apply H; reflexivity
         end;
  try discriminate; try congruence;
  try (left; reflexivity); try (right; repeat split; reflexivity);
  try (apply Forall_app; split; [assumption | constructor; [|constructor]]);
  tac.

(** The text between the borders of a line is a part of the line. *)
Lemma remove_match_bol (s : jsstring) (r : regex) :
  exists u, s = u ++ remove_match s (Seq Bol r).
Proof.
  unfold remove_match. destruct (js_match s (Seq Bol r)) as [m|] eqn:E.
  - rewrite (js_match_bol_start _ _ _ E). simpl.
    exists (firstn (m_end m) s). now rewrite firstn_skipn.
  - now exists [].
Qed.

Lemma Matches_eol (r : regex) (st st' : mstate) :
  Matches r st st' -> ends_with_eol r = true -> rest st' = [].
Proof.
  induction 1; simpl; try discriminate; auto.
Qed.

Lemma remove_match_eol (s : jsstring) (r : regex) :
  ends_with_eol r = true -> exists v, s = remove_match s r ++ v.
Proof.
  intros Hr. unfold remove_match. destruct (js_match s r) as [m|] eqn:E.
  - apply js_match_spec in E.
    destruct E as [u [v [st' [Es [Hstart [Hm [Hend _]]]]]]].
    pose proof (Matches_eol _ _ _ Hm Hr) as Hrest.
    destruct (Matches_word _ _ _ Hm) as [w [Ew [Pw _]]].
    simpl in Ew, Pw. rewrite Hrest, app_nil_r in Ew. subst w.
    exists v. rewrite Hend, Pw, Hstart, Es.
    rewrite <- length_app, skipn_all, app_nil_r.
    rewrite firstn_app, firstn_all, Nat.sub_diag. simpl.
    now rewrite app_nil_r.
  - exists []. now rewrite app_nil_r.
Qed.

Lemma answer_content_within (line : jsstring) :
  exists u v,
    line = u ++ trim (remove_match (remove_match line Cli.leftBorderRe)
                                   Cli.rightBorderRe) ++ v.
Proof.
  destruct (remove_match_bol line (seq [lit (js "│"); star ws])) as [u Hu].
  change (Seq Bol (seq [lit (js "│"); star ws])) with Cli.leftBorderRe in Hu.
  destruct (remove_match_eol (remove_match line Cli.leftBorderRe)
              Cli.rightBorderRe eq_refl) as [v Hv].
  destruct (trim_within (remove_match (remove_match line Cli.leftBorderRe)
                                      Cli.rightBorderRe)) as [u' [v' [Ht _]]].
  exists (u ++ u'), (v' ++ v).
  rewrite Hu at 1. rewrite Hv at 1. rewrite Ht at 1.
  now rewrite <- !app_assoc.
Qed.

(** Two texts without [p], joined by a space that [p] does not have, make
    a text without [p]. *)
Lemma includes_spaced (x y p : jsstring) :
  p <> [] -> ~ In 32 p ->
  includes x p = false -> includes y p = false ->
  includes (x ++ js " " ++ y) p = false.
Proof.
  intros Hne Hsp Hx Hy.
  destruct (includes (x ++ js " " ++ y) p) eqn:E; [exfalso|reflexivity].
  apply includes_app in E. destruct E as [u [v E]].
  change (js " ") with [32] in E. simpl in E.
  apply app_eq_app in E. destruct E as [l [[Ex E] | [Eu E]]].
  - apply app_eq_app in E. destruct E as [l2 [[Ep E] | [El E]]].
    + destruct l2 as [|c l2].
      * rewrite app_nil_r in Ep. subst l x.
        assert (includes (u ++ p ++ []) p = true) as Hin
          by (apply includes_app; eauto).
        rewrite app_nil_r in Hin. congruence.
      * injection E as <- _. apply Hsp. rewrite Ep. apply in_or_app.
        right. now left.
    + subst l x. assert (includes (u ++ p ++ l2) p = true) as Hin
        by (apply includes_app; eauto).
      congruence.
  - destruct l as [|c l].
    + simpl in E. destruct p as [|c p]; [congruence|].
      injection E as <- _. apply Hsp. now left.
    + injection E as _ E. subst y.
      assert (includes (l ++ p ++ v) p = true) as Hin
        by (apply includes_app; eauto).
      congruence.
Qed.

Lemma answer_marker_shape :
  answer_marker <> [] /\ ~ In 32 answer_marker
  /\ (exists c p1, answer_marker = c :: p1 /\ is_ws c = false)
  /\ (exists z p2, answer_marker = p2 ++ [z] /\ is_ws z = false).
Proof.
  unfold answer_marker.
  let l := eval vm_compute in (js "Answer:") in change (js "Answer:") with l.
  split; [discriminate|]. split.
  - simpl. intuition discriminate.
  - split.
    + eexists _, _. split; reflexivity.
    + exists 58, [65; 110; 115; 119; 101; 114]. split; reflexivity.
Qed.

(** An iteration keeps the marker out of the answer. *)
Lemma answer_ok_step (line : jsstring) (st st' : Cli.state) :
  answer_ok (answer st) -> answer_step line st st' -> answer_ok (answer st').
Proof.
  intros [Hno Hsh] [-> | [Hline [content [u [v [El ->]]]]]].
  - split; assumption.
  - destruct answer_marker_shape
      as [Hne [Hsp [[c [p1 [Ec Hc]]] [z [p2 [Ez Hz]]]]]].
    assert (Hcontent : includes content answer_marker = false).
    { destruct (includes content answer_marker) eqn:E; [|reflexivity].
      apply (includes_within _ u v) in E. rewrite <- El in E.
      apply (includes_trim _ _ c z p1 p2 Ec Ez Hc Hz) in E. congruence. }
    assert (Hpiece : includes (content ++ js " ") answer_marker = false).
    { rewrite <- (app_nil_r (js " ")).
      apply includes_spaced; auto. }
    split.
    + destruct Hsh as [E0 | [a0 E0]]; rewrite E0 in *; [exact Hpiece|].
      rewrite <- app_assoc. apply includes_spaced; auto.
      apply (includes_false_within _ [] (js " ")). exact Hno.
    + right. exists (answer st ++ content). now rewrite <- app_assoc.
Qed.

Section RagRecords.

Variable P : record -> Prop.
Hypothesis P_new : forall t n, P (new_record t n).
Hypothesis P_location :
  forall r p a b,
    P r -> P (set_end_line (set_start_line (set_file_path r p) a) b).
Hypothesis P_similarity :
  forall r w,
    P r -> forallb sim_char w = true -> P (set_similarity r (parseFloat w)).
Hypothesis P_docstring : forall r d, P r -> P (set_docstring r d).
Hypothesis P_code : forall r c, P r -> P (set_code_snippet r c).

Lemma P_with_code (r : record) (l : list jsstring) :
  P r -> P (with_code r l).
Proof. destruct l; simpl; auto. Qed.

Local Opaque js_match test includes trim startsWith parseFloat parseInt
  join toLowerCase remove_match str_eqb truthy Z.sub Z.add.

Lemma code_line_ok (line trimmed : jsstring) (st : Cli.state) :
  safe st -> step_ok P line st (code_line line trimmed st).
Proof.
  destruct st as [i0 ans srcs cur inA inS inB cc cl cfp fpl].
  intros [Hb Hc]. simpl in Hb, Hc. unfold code_line. simpl.
  destruct cc, inB; simpl; split_ifs; try destruct cur as [cs|]; simpl.
  all: step_leaf ltac:(auto using P_with_code).
Qed.

Lemma box_line_ok (line trimmed : jsstring) (st : Cli.state) :
  safe st -> inSourceBox st = true ->
  exists st', box_line line trimmed st = Return st' /\ step_ok P line st st'.
Proof.
  intros Hs HB. unfold box_line.
  destruct (includes line (js "📄") && negb (collectingFilePath st)) eqn:E1.
  { destruct (js_match line pathRe) as [pm|] eqn:Em.
    - read_group Em 1%nat. destruct (truthy (trim w));
        (eexists; split; [reflexivity|]); destruct st, Hs; simpl in *;
        step_leaf auto.
    - eexists; split; [reflexivity|]. destruct st, Hs; simpl in *.
      step_leaf auto. }
  destruct (collectingFilePath st) eqn:E2.
  { destruct (js_match line pathLineRe) as [pm|] eqn:Em.
    2:{ eexists; split; [reflexivity|]. destruct st, Hs; simpl in *.
        step_leaf auto. }
    read_group Em 1%nat.
    match goal with
    | |- context [if ?c then _ else _] => destruct c
    end.
    2:{ eexists; split; [reflexivity|]. destruct st, Hs; simpl in *.
        step_leaf auto. }
    cbv zeta.
    match goal with
    | |- context [js_match ?a completeRe] =>
        destruct (js_match a completeRe) as [cm|] eqn:Ec
    end.
    2:{ eexists; split; [reflexivity|]. destruct st, Hs; simpl in *.
        step_leaf auto. }
    destruct st as [i0 ans srcs cur inA inS inB cc cl cfp fpl].
    destruct Hs as [Hb Hc]. simpl in *. subst inB.
    destruct cur as [cs|]; [|exfalso; now apply Hb]. cbn [deref bind].
    read_group Ec 1%nat. read_group Ec 2%nat. read_group Ec 3%nat.
    eexists; split; [reflexivity|]. step_leaf auto. }
  destruct (currentSource st) as [cs|] eqn:Ecur.
  2:{ exfalso. destruct Hs as [Hb _]. now apply Hb. }
  destruct (js_match line boxSimRe) as [sm|] eqn:Es.
  { destruct (group_defined _ _ _ 1%nat Es eq_refl) as [w Hw].
    rewrite Hw. cbn [bind].
    assert (Hcls : forallb sim_char w = true).
    { eapply group_in_class; [exact Es | | exact Hw]. simpl. intuition. }
    eexists; split; [reflexivity|]. destruct st, Hs; simpl in *.
    step_leaf auto. }
  destruct (js_match line boxDocRe) as [dm|] eqn:Ed.
  { read_group Ed 1%nat.
    eexists; split; [reflexivity|]. destruct st, Hs; simpl in *.
    step_leaf auto. }
  destruct (test line boxEndRe).
  { eexists; split; [reflexivity|]. destruct st, Hs; simpl in *.
    step_leaf auto. }
  eexists; split; [reflexivity|]. now apply code_line_ok.
Qed.

Lemma sources_line_ok (line trimmed : jsstring) (st : Cli.state) :
  safe st ->
  exists st',
    sources_line line trimmed st = Return st' /\ step_ok P line st st'.
Proof.
  intros Hs. unfold sources_line.
  destruct (js_match line boxStartRe) as [bm|] eqn:Em.
  - read_group Em 2%nat. read_group Em 3%nat.
    eexists; split; [reflexivity|].
    destruct st as [i0 ans srcs cur inA inS inB cc cl cfp fpl].
    destruct Hs as [Hb Hc]. simpl in *.
    destruct cur as [cs|]; [destruct cc|]; simpl;
      step_leaf ltac:(auto using P_with_code).
  - destruct (inSourceBox st) eqn:EB.
    + now apply box_line_ok.
    + eexists; split; [reflexivity|]. now apply code_line_ok.
Qed.

Lemma body_ok (line : jsstring) (st : Cli.state) :
  safe st ->
  exists st', body line st = Return st' /\ step_ok P line st st'.
Proof.
  intros Hs. unfold body. cbv zeta.
  destruct (negb (truthy (trim line)) && negb (collectingCode st)).
  { eexists; split; [reflexivity|]. destruct st, Hs; simpl in *.
    step_leaf auto. }
  destruct ((includes (trim line) (js "💡")
             || includes (trim line) (js "Answer:"))
            && negb (inSourcesSection st)) eqn:Emark.
  { eexists; split; [reflexivity|]. destruct st, Hs; simpl in *.
    step_leaf auto. }
  repeat match goal with
         | |- context [if ?c then Return _ else _] =>
             destruct c;
             [eexists; split; [reflexivity|]; destruct st, Hs; simpl in *;
              step_leaf auto|]
         end.
  destruct (inSourcesSection st) eqn:ES.
  - now apply sources_line_ok.
  - rewrite andb_true_r in Emark. apply orb_false_iff in Emark.
    destruct Emark as [_ Emark].
    destruct (inAnswerSection st && negb false);
      (eexists; split; [reflexivity|]).
    + unfold answer_line. cbv zeta.
      destruct (answer_content_within line) as [u [v Hline]].
      destruct st, Hs; simpl in *. split_ifs; step_leaf auto.
      all: right; split; [exact Emark|]; eauto.
    + destruct st, Hs; simpl in *. step_leaf auto.
Qed.

Lemma line_at_in_range (lines : list jsstring) (i : Z) :
  0 <= i < Z.of_nat (List.length lines) ->
  exists line, line_at lines i = Return line.
Proof.
  intros [Hlo Hhi]. unfold line_at.
  destruct (Z.ltb_spec i 0); [lia|].
  destruct (nth_error lines (Z.to_nat i)) as [line|] eqn:E.
  - now exists line.
  - apply nth_error_None in E. lia.
Qed.

(** The loop finishes within the iterations the measure allows:
    two for each line left, and one more while code is collected. *)
Lemma loop_ok (lines : list jsstring) :
  forall n st,
    safe st -> all_sources P st -> answer_ok (answer st) -> 0 <= i st ->
    2 * Z.max 0 (Z.of_nat (List.length lines) - i st)
    + (if collectingCode st then 1 else 0) < Z.of_nat n ->
    exists st',
      loop n lines st = Return st'
      /\ safe st' /\ all_sources P st' /\ answer_ok (answer st').
Proof.
  induction n as [|n IH]; intros st Hs HP Ha Hi Hn.
  - destruct (collectingCode st); lia.
  - cbn [loop].
    destruct (Z.ltb_spec (i st) (Z.of_nat (List.length lines))) as [Hlt|Hge].
    2:{ exists st. auto. }
    destruct (line_at_in_range lines (i st)) as [line El]; [lia|].
    rewrite El. cbn [bind].
    destruct (body_ok line st Hs) as [st1 [E [Hs1 [HP1 [Hpr Hans]]]]].
    rewrite E. cbn [bind]. apply IH.
    + destruct st1, Hs1. split; auto.
    + destruct st1. apply HP1 in HP. exact HP.
    + apply (answer_ok_step _ _ _ Ha) in Hans. destruct st1. exact Hans.
    + destruct st1. unfold progress in Hpr. cbn [i set_i] in *. lia.
    + destruct st1 as [i1 ans srcs cur inA inS inB cc cl cfp fpl].
      unfold progress in Hpr. cbn [i collectingCode set_i] in *.
      destruct Hpr as [-> | [-> [Hc ->]]].
      * destruct cc, (collectingCode st); lia.
      * rewrite Hc in Hn. lia.
Qed.

Lemma parseRagOutput_keeps (output : jsstring) :
  exists out,
    parseRagOutput output = Return out
    /\ Forall P (rag_sources out)
    /\ includes (rag_answer out) answer_marker = false.
Proof.
  unfold parseRagOutput, parseRagOutput_within.
  destruct (loop_ok (lines_of output)
              (S (2 * List.length (lines_of output))) initial)
    as [st [E [Hs [[HF Hcur] [Ha _]]]]].
  - split; discriminate.
  - split; [constructor | discriminate].
  - split; [reflexivity | now left].
  - cbn [i initial]. lia.
  - cbn [i collectingCode initial]. lia.
  - rewrite E. cbn [bind]. eexists. split; [reflexivity|].
    unfold finish. cbn [rag_sources rag_answer]. split.
    + destruct (currentSource st) as [cs|]; [|exact HF].
      match goal with
      | |- context [if ?c then _ else _] => destruct c
      end; [|exact HF].
      apply Forall_app. split; [exact HF|].
      constructor; [|constructor]. apply P_with_code. auto.
    + destruct (trim_within (answer st)) as [u [v [Et _]]].
      rewrite Et in Ha. apply includes_false_within in Ha. exact Ha.
Qed.

End RagRecords.

(** A larger bound on the iterations does not change what the loop
    returns or throws. *)
Lemma loop_more (lines : list jsstring) (n k : nat) :
  forall st,
    loop n lines st <> Diverges ->
    loop (n + k) lines st = loop n lines st.
Proof.
  induction n as [|n IH]; intros st H; cbn [loop Nat.add] in *.
  - congruence.
  - destruct (i st <? Z.of_nat (List.length lines)); [|reflexivity].
    destruct (line_at lines (i st)) as [line| |]; cbn [bind] in *; auto.
    destruct (body line st) as [st1| |]; cbn [bind] in *; auto.
Qed.

(** The loop of parseRagOutput finishes, for every input. *)
Lemma loop_returns (output : jsstring) :
  exists st,
    loop (S (2 * List.length (lines_of output))) (lines_of output) initial
    = Return st.
Proof.
  destruct (loop_ok (fun _ => True) (fun _ _ => I) (fun _ _ _ _ _ => I)
              (fun _ _ _ _ => I) (fun _ _ _ => I) (fun _ _ _ => I)
              (lines_of output)
              (S (2 * List.length (lines_of output))) initial)
    as [st [E _]].
  - split; discriminate.
  - split; [constructor | discriminate].
  - split; [reflexivity | now left].
  - cbn [i initial]. lia.
  - cbn [i collectingCode initial]. lia.
  - now exists st.
Qed.

(** What holds before the loop and is kept by every iteration holds of
    the state the loop returns. *)
Lemma loop_invariant (I : Cli.state -> Prop) (lines : list jsstring) :
  (forall line st st',
      In line lines -> I st -> body line st = Return st' ->
      I (set_i st' (i st' + 1))) ->
  forall n st st', I st -> loop n lines st = Return st' -> I st'.
Proof.
  intros Hbody. induction n as [|n IH]; intros st st' HI H; cbn [loop] in H.
  - discriminate.
  - destruct (i st <? Z.of_nat (List.length lines)).
    2:{ now injection H as <-. }
    unfold line_at in H. destruct (i st <? 0); [discriminate|].
    destruct (nth_error lines (Z.to_nat (i st))) as [line|] eqn:El;
      [|discriminate].
    cbn [deref bind] in H.
    destruct (body line st) as [st1| |] eqn:Eb; try discriminate.
    cbn [bind] in H. apply (IH _ _ (Hbody _ _ _ (nth_error_In _ _ El) HI Eb) H).
Qed.

(* ===================================================================== *)
(** * _parsePRSummary *)
(* ===================================================================== *)

Lemma pr_body_returns (st : ResultsView.state) (line : jsstring) :
  exists st', ResultsView.body st line = Return st'.
Proof.
  unfold ResultsView.body. cbv zeta.
  repeat match goal with
         | |- context [if ?c then Return _ else _] =>
             destruct c; [eexists; reflexivity|]
         end.
  destruct (test (trim line) ResultsView.fileBoxRe).
  - destruct (js_match (trim line) ResultsView.fileNameRe) as [fm|] eqn:Em.
    + read_group Em 1%nat. eexists; reflexivity.
    + cbn [bind]. eexists; reflexivity.
  - repeat match goal with
           | |- context [if ?c then _ else _] =>
               destruct c; try (eexists; reflexivity)
           end.
Qed.

Lemma pr_loop_returns (lines : list jsstring) :
  forall st, exists st', for_each ResultsView.body lines st = Return st'.
Proof.
  induction lines as [|line lines IH]; intros st; cbn [for_each].
  - now exists st.
  - destruct (pr_body_returns st line) as [st1 E]. rewrite E. cbn [bind].
    apply IH.
Qed.

Lemma parsePRSummary_returns (text : jsstring) :
  exists doc, ResultsView._parsePRSummary text = Return doc.
Proof.
  unfold ResultsView._parsePRSummary.
  destruct (pr_loop_returns (split 10 text) ResultsView.initial) as [st E].
  rewrite E. cbn [bind]. eexists; reflexivity.
Qed.

(* ===================================================================== *)
(** * Numbers read by parseFloat *)
(* ===================================================================== *)

Lemma takeWhile_all (p : Z -> bool) (s : jsstring) :
  forallb p (takeWhile p s) = true.
Proof.
  induction s as [|c s IH]; simpl; [reflexivity|].
  destruct (p c) eqn:E; simpl; [now rewrite E | reflexivity].
Qed.

Lemma fraction_part_digits (s : jsstring) :
  forallb is_digit (fst (fraction_part s)) = true.
Proof.
  destruct s as [|c s]; simpl; [reflexivity|].
  destruct (c =? 46); simpl; [apply takeWhile_all | reflexivity].
Qed.

Lemma digits_value_nonneg (ds : jsstring) :
  forallb is_digit ds = true -> 0 <= digits_value 10 ds.
Proof.
  unfold digits_value.
  assert (G : forall acc, 0 <= acc -> forallb is_digit ds = true ->
                0 <= fold_left (fun a d => a * 10 + digit_val d) ds acc).
  { induction ds as [|d ds IH]; intros acc Hacc H; simpl in *; [exact Hacc|].
    apply andb_true_iff in H. destruct H as [Hd H].
    apply IH; [|exact H].
    unfold digit_val. rewrite Hd. unfold is_digit in Hd.
    apply andb_true_iff in Hd. destruct Hd as [H1 H2].
    apply Z.leb_le in H1. lia. }
  apply G. lia.
Qed.

Lemma scale10_nonneg (m e : Z) : 0 <= m -> (0 <= scale10 m e)%Q.
Proof.
  intros Hm. unfold scale10. rewrite Qred_correct.
  destruct (0 <=? e) eqn:E.
  - apply Z.leb_le in E. unfold Qle, inject_Z. simpl.
    assert (0 <= 10 ^ e) by (apply Z.pow_nonneg; lia). nia.
  - unfold Qle. simpl. lia.
Qed.

Lemma sim_char_cases (c : Z) :
  sim_char c = true -> is_ws c = false /\ c <> 45 /\ c <> 43 /\ c <> 73.
Proof.
  unfold sim_char.
  let l := eval vm_compute in (js "0123456789.") in
  change (js "0123456789.") with l.
  simpl. rewrite !orb_true_iff, !Z.eqb_eq.
  intros H. repeat destruct H as [H|H]; try discriminate; subst c;
    repeat split; (reflexivity || discriminate).
Qed.

(** The text matched by [[\\d.]+] is read as NaN or as a number that is
    not negative. *)
Lemma parseFloat_not_negative (w : jsstring) :
  forallb sim_char w = true -> not_negative (parseFloat w).
Proof.
  intros H. unfold parseFloat. destruct w as [|c w].
  - simpl. exact I.
  - simpl in H. apply andb_true_iff in H. destruct H as [Hc _].
    destruct (sim_char_cases c Hc) as [Hws [H45 [H43 H73]]].
    cbn [trimStart]. rewrite Hws. unfold split_sign.
    destruct (Z.eqb_spec c 45); [contradiction|].
    destruct (Z.eqb_spec c 43); [contradiction|].
    replace (startsWith (c :: w) (js "Infinity")) with false.
    2:{ let l := eval vm_compute in (js "Infinity") in
        change (js "Infinity") with l.
        cbn [startsWith]. destruct (Z.eqb_spec 73 c); [congruence|reflexivity]. }
    pose proof (fraction_part_digits (dropWhile is_digit (c :: w))) as Hfp.
    destruct (fraction_part (dropWhile is_digit (c :: w))) as [fp s3].
    cbn [fst] in Hfp.
    destruct (takeWhile is_digit (c :: w) ++ fp) as [|d ds] eqn:E.
    + exact I.
    + cbn [not_negative]. apply scale10_nonneg.
      rewrite <- E. rewrite Z.mul_1_l. apply digits_value_nonneg.
      rewrite forallb_app, takeWhile_all, Hfp. reflexivity.
Qed.

(* ===================================================================== *)
(** * The examples of the specification *)
(* ===================================================================== *)

(** The search panel of the specification gives the record it announces. *)
Example search_panel :
  parseSearchOutput
    (unlines [js "┌──────── 1. FUNCTION: connect_db ────────┐";
              js "│ 📄 db/conn.py:10-20                      │";
              js "│ 📊 Similarity: 0.8421                    │";
              js "│ 📝 Opens a pooled database connection.   │";
              js "└───────────────────────────────────────────┘"])
  = Return [{| type := js "function";
               name := js "connect_db";
               file_path := Some (js "db/conn.py");
               start_line := Some (int 10);
               end_line := Some (int 20);
               similarity := Some (Num (8421 # 10000));
               docstring := Some (js "Opens a pooled database connection.");
               code_snippet := None |}].
Proof. vm_compute. reflexivity. Qed.

(** A file-change box with one interior line gives one file change. *)
Example file_change_box :
  exists doc,
    ResultsView._parsePRSummary
      (unlines [js "┌──── 🔹 src/app.py ────┐";
                js "│ adds error handling   │";
                js "└───────────────────────┘"]) = Return doc
    /\ ResultsView.fileChanges doc
       = [{| ResultsView.filename := js "src/app.py";
             ResultsView.content := js "adds error handling" |}].
Proof. eexists. split; [vm_compute; reflexivity | reflexivity]. Qed.

(** The counts of the metadata are 0 when their lines are absent or do
    not carry a number. *)
Example meta_defaults :
  exists doc,
    ResultsView._parsePRSummary
      (unlines [js "Branch: feature/retry"; js "Commits: many"]) = Return doc
    /\ ResultsView.meta doc
       = {| ResultsView.branch := js "feature/retry";
            ResultsView.commits := int 0;
            ResultsView.changedFiles := int 0 |}.
Proof. eexists. split; [vm_compute; reflexivity | reflexivity]. Qed.

(** On the empty text the parsers return empty results. *)
Example parsers_on_empty_text :
  parseSearchOutput [] = Return []
  /\ parseRagOutput [] = Return {| rag_answer := []; rag_sources := [] |}
  /\ ResultsView._parsePRSummary [] = Return (ResultsView.result ResultsView.initial).
Proof. repeat split. Qed.

(** A RAG output with an answer panel and two sources, each followed by
    its code. *)
Example rag_panels :
  parseRagOutput
    (unlines [js "Code Search - RAG Mode Query: how is the db opened";
              js "┌──────────── 💡 Answer ────────────┐";
              js "│ The pool is opened                │";
              js "│ lazily.                           │";
              js "└───────────────────────────────────┘";
              js "📚 Supporting Sources";
              js "┌──────── 1. FUNCTION: connect ────────┐";
              js "│ 📄 db/conn.py:10-                     │";
              js "│ 20                                    │";
              js "│ 📊 Similarity: 0.65                   │";
              js "│ 📝 Opens the pool.                    │";
              js "└──────────────────────────────────────┘";
              js "def connect():";
              js "    return Pool()"])
  = Return {| rag_answer := js "The pool is opened lazily.";
              rag_sources :=
                [{| type := js "function";
                    name := js "connect";
                    file_path := Some (js "db/conn.py");
                    start_line := Some (int 10);
                    end_line := Some (int 20);
                    similarity := Some (Num (13 # 20));
                    docstring := Some (js "Opens the pool.");
                    code_snippet :=
                      Some (unlines [js "def connect():";
                                     js "    return Pool()"]) |}] |}.
Proof. vm_compute. reflexivity. Qed.

(** parseInt gives a double: above [2^53] the integer is rounded, and a
    run of 310 digits is read as the infinity. *)
Example parseInt_is_a_double :
  parseInt (js "9007199254740993") = int 9007199254740992
  /\ parseInt (js "9007199254740995") = int 9007199254740996
  /\ parseInt (repeat 57 310) = Infinity false
  /\ parseInt (45 :: repeat 57 310) = Infinity true
  /\ parseInt (js "-42") = int (-42).
Proof. repeat split; vm_compute; reflexivity. Qed.

(* ===================================================================== *)
(** * The claims *)
(* ===================================================================== *)

(** C1.  For every search output, parseSearchOutput returns exactly one
    record for each line that matches the header pattern
    [<index>. <KIND>: <name>], in the order of these lines, the record
    taking its type and name from its line; with no header line it returns
    the empty sequence. *)
Theorem parseSearchOutput_one_record_per_header (output : jsstring) :
  exists rs,
    parseSearchOutput output = Return rs
    /\ List.length rs = List.length (filter is_header (lines_of output))
    /\ Forall2 from_header (filter is_header (lines_of output)) rs
    /\ (filter is_header (lines_of output) = [] <-> rs = []).
Proof.
  unfold parseSearchOutput.
  destruct (search_loop_headers (lines_of output) [] None [])
    as [results [cur [E HF]]]; [constructor|].
  rewrite E. cbn [bind app] in *.
  exists (results ++ pending cur). split.
  - destruct cur; simpl; [reflexivity | now rewrite app_nil_r].
  - pose proof (Forall2_length HF) as Hlen.
    split; [now symmetry|]. split; [exact HF|].
    split; intros H0; rewrite H0 in Hlen; simpl in Hlen.
    + now apply length_zero_iff_nil.
    + now apply length_zero_iff_nil.
Qed.

(** C2.  For every input text, each of parseSearchOutput, parseRagOutput
    and _parsePRSummary returns a value: none throws (no property of null or
    of a group that did not match is read), and the loop of parseRagOutput,
    which can hand a line back to itself, finishes. *)
Theorem parsers_total (text : jsstring) :
  (exists rs, parseSearchOutput text = Return rs)
  /\ (exists out, parseRagOutput text = Return out)
  /\ (exists doc, ResultsView._parsePRSummary text = Return doc).
Proof.
  split; [|split].
  - destruct (parseSearchOutput_keeps (fun _ => True) (fun _ _ => I)
                (fun _ _ _ _ _ => I) (fun _ _ _ _ => I) (fun _ _ _ => I) text)
      as [rs [E _]].
    now exists rs.
  - destruct (parseRagOutput_keeps (fun _ => True) (fun _ _ => I)
                (fun _ _ _ _ _ => I) (fun _ _ _ _ => I) (fun _ _ _ => I)
                (fun _ _ _ => I) text)
      as [out [E _]].
    now exists out.
  - apply parsePRSummary_returns.
Qed.

(** C9.  For every input, in every record returned by parseSearchOutput
    and in every source returned by parseRagOutput, the fields file_path,
    start_line and end_line are all present or all absent. *)
Theorem location_fields_together (text : jsstring) :
  (exists rs, parseSearchOutput text = Return rs /\ Forall together rs)
  /\ (exists out, parseRagOutput text = Return out
                  /\ Forall together (rag_sources out)).
Proof.
  split.
  - apply parseSearchOutput_keeps; intros; unfold together in *; simpl; auto.
  - destruct (parseRagOutput_keeps together) with (output := text)
      as [out [E [HF _]]];
      try (intros; unfold together in *; simpl; auto; fail).
    now exists out.
Qed.

(** C7, counterexample.  A similarity line that carries 5.5 gives a record
    whose similarity is 5.5, in both parsers: the text matched by [[\\d.]+]
    is handed to parseFloat as it is. *)
Lemma similarity_above_one :
  (exists r,
      parseSearchOutput
        (unlines [js "1. FUNCTION: f"; js "📊 Similarity: 5.5"]) = Return [r]
      /\ similarity r = Some (Num (11 # 2)) /\ ~ similarity_in_range r)
  /\ (exists out r,
         parseRagOutput
           (unlines [js "Supporting Sources";
                     js "┌─ 1. FUNCTION: f ─┐";
                     js "│ 📊 Similarity: 5.5 │";
                     js "└──┘";
                     js "┌─ 2. FUNCTION: g ─┐"]) = Return out
         /\ rag_sources out = [r]
         /\ similarity r = Some (Num (11 # 2)) /\ ~ similarity_in_range r).
Proof.
  split.
  - eexists. split; [vm_compute; reflexivity|]. split; [reflexivity|].
    unfold similarity_in_range, in_unit_interval. simpl.
    intros [_ H]. revert H. unfold Qle. simpl. lia.
  - eexists _, _. split; [vm_compute; reflexivity|]. split; [reflexivity|].
    split; [reflexivity|].
    unfold similarity_in_range, in_unit_interval. simpl.
    intros [_ H]. revert H. unfold Qle. simpl. lia.
Qed.

(** C7, amended.  For every input, every record returned by
    parseSearchOutput and every source returned by parseRagOutput that has a
    similarity has one that is NaN or a number that is not negative: it is
    what parseFloat reads in a text of digits and dots, and no upper bound
    is enforced. *)
Theorem similarity_is_not_negative (text : jsstring) :
  (exists rs,
      parseSearchOutput text = Return rs /\ Forall similarity_not_negative rs)
  /\ (exists out,
         parseRagOutput text = Return out
         /\ Forall similarity_not_negative (rag_sources out)).
Proof.
  split.
  - apply parseSearchOutput_keeps; intros;
      unfold similarity_not_negative in *; simpl; auto.
    now apply parseFloat_not_negative.
  - destruct (parseRagOutput_keeps similarity_not_negative)
      with (output := text) as [out [E [HF _]]];
      try (intros; unfold similarity_not_negative in *; simpl; auto; fail).
    + intros. unfold similarity_not_negative. simpl.
      now apply parseFloat_not_negative.
    + now exists out.
Qed.

(** C4, counterexample.  A border character inside an answer line stays in
    the answer: only what is at the two ends of the line is removed. *)
Lemma answer_keeps_inner_border :
  exists out,
    parseRagOutput
      (unlines [js "┌──────────── 💡 Answer ────────────┐";
                js "│ Routes map │ URLs to views. │";
                js "└──────────────────────────────────┘"]) = Return out
    /\ rag_answer out = js "Routes map │ URLs to views."
    /\ includes (rag_answer out) (js "│") = true.
Proof.
  eexists. split; [vm_compute; reflexivity|]. split; reflexivity.
Qed.

(** The patterns, one step at a time. *)
Lemma rmatch_seq_eq (r1 r2 : regex) (st : mstate)
  (k : mstate -> option mstate) :
  rmatch (Seq r1 r2) st k = rmatch r1 st (fun st1 => rmatch r2 st1 k).
Proof. reflexivity. Qed.

Lemma rmatch_char_eq (p : Z -> bool) (st : mstate)
  (k : mstate -> option mstate) :
  rmatch (Char p) st k
  = match rest st with
    | c :: s' => if p c then k (advance st s') else None
    | [] => None
    end.
Proof. reflexivity. Qed.

Lemma rmatch_star_eq (g : bool) (r : regex) (st : mstate)
  (k : mstate -> option mstate) :
  rmatch (Star g r) st k
  = iterate g (rmatch r) k (S (List.length (rest st))) st.
Proof. reflexivity. Qed.

(** A greedy [p*] followed by [$] matches a text made of [p]. *)
Lemma star_to_end (p : Z -> bool) :
  forall n st,
    forallb p (rest st) = true ->
    (List.length (rest st) < n)%nat ->
    exists res,
      iterate true (rmatch (Char p)) (fun st2 => rmatch Eol st2 Some) n st
      = Some res.
Proof.
  induction n as [|n IH]; intros st Hp Hn; [lia|].
  cbn [iterate]. rewrite rmatch_char_eq.
  destruct (rest st) as [|c s'] eqn:Er.
  - exists st. cbn [rmatch]. now rewrite Er.
  - simpl in Hp. apply andb_true_iff in Hp. destruct Hp as [Hc Hs].
    rewrite Hc.
    assert (Hlt : (pos st <? pos (advance st s'))%nat = true).
    { apply Nat.ltb_lt. simpl. lia. }
    rewrite Hlt.
    destruct (IH (advance st s')) as [res E]; [exact Hs | simpl in *; lia|].
    rewrite E. now exists res.
Qed.

(** A text made of boundary characters only is taken for a boundary. *)
Lemma border_only_matches (s : jsstring) :
  s <> [] -> forallb is_boundary_char s = true ->
  test s borderOnlyRe = true.
Proof.
  intros Hne Hs. unfold test.
  change borderOnlyRe
    with (Seq Bol (Seq (Seq (Char is_boundary_char)
                            (Star true (Char is_boundary_char))) Eol)).
  rewrite js_match_bol, !rmatch_seq_eq, rmatch_char_eq.
  destruct s as [|c s']; [congruence|].
  simpl in Hs. apply andb_true_iff in Hs. destruct Hs as [Hc Hs].
  cbn [rest]. rewrite Hc, rmatch_star_eq.
  destruct (star_to_end is_boundary_char
              (S (List.length (rest (advance
                                       {| pos := 0; rest := c :: s';
                                          caps := [] |} s'))))
              (advance {| pos := 0; rest := c :: s'; caps := [] |} s'))
    as [res E]; [exact Hs | lia|].
  now rewrite E.
Qed.

(** What the answer branch adds is a piece. *)
Lemma added_content_is_piece (content : jsstring) :
  truthy content && negb (test content borderOnlyRe)
  && negb (str_eqb content (js "Answer:")) = true ->
  is_piece content = true.
Proof.
  rewrite !andb_true_iff, !negb_true_iff. intros [[Ht Hb] _].
  unfold is_piece. rewrite Ht. cbn [andb]. apply negb_true_iff.
  destruct (forallb is_boundary_char content) eqn:E; [|reflexivity].
  rewrite border_only_matches in Hb; [discriminate | | exact E].
  intros ->. discriminate.
Qed.

Section AnswerPieces.

Local Opaque js_match test includes trim startsWith parseFloat parseInt
  join toLowerCase remove_match str_eqb truthy Z.sub Z.add group.

(** The sources section leaves the answer as it is. *)
Lemma sources_line_answer (line trimmed : jsstring) (st st' : Cli.state) :
  sources_line line trimmed st = Return st' -> answer st' = answer st.
Proof.
  destruct st as [i0 ans srcs cur inA inS inB cc cl cfp fpl].
  unfold sources_line, box_line, code_line, bind, deref. cbv zeta.
  repeat match goal with
         | |- context [match ?x with _ => _ end] => destruct x
         end;
    try discriminate; intros [= <-]; reflexivity.
Qed.

(** One iteration leaves the answer as it is, or adds to it the content of
    its line, which is a piece, and a space. *)
Lemma body_answer (line : jsstring) (st st' : Cli.state) :
  body line st = Return st' ->
  answer st' = answer st
  \/ (is_piece (answer_content line) = true
      /\ answer st' = answer st ++ answer_content line ++ js " ").
Proof.
  unfold body. cbv zeta.
  repeat match goal with
         | |- context [if ?c then Return _ else _] =>
             destruct c; [intros [= <-]; destruct st; now left|]
         end.
  destruct (inSourcesSection st).
  { intros H. left. exact (sources_line_answer _ _ _ _ H). }
  destruct (inAnswerSection st && negb false);
    [|intros [= <-]; now left].
  intros [= <-]. unfold answer_line. cbv zeta.
  fold (answer_content line).
  destruct (truthy (answer_content line)
            && negb (test (answer_content line) borderOnlyRe)
            && negb (str_eqb (answer_content line) (js "Answer:"))) eqn:E.
  - right. split; [exact (added_content_is_piece _ E)|].
    destruct st. destruct (test line boxEndRe); reflexivity.
  - left. destruct st. destruct (test line boxEndRe); reflexivity.
Qed.

End AnswerPieces.

(** The answer that the loop has built is made of pieces. *)
Lemma loop_answer (lines : list jsstring) (n : nat) (st : Cli.state) :
  loop n lines initial = Return st ->
  exists ls,
    Forall (fun line => In line lines
                        /\ is_piece (answer_content line) = true) ls
    /\ answer st
       = List.concat (map (fun piece => piece ++ js " ")
                          (map answer_content ls)).
Proof.
  apply (loop_invariant
           (fun st =>
              exists ls,
                Forall (fun line => In line lines
                                    /\ is_piece (answer_content line) = true)
                       ls
                /\ answer st
                   = List.concat (map (fun piece => piece ++ js " ")
                                      (map answer_content ls)))).
  - intros line s s' Hin [ls [Hls Ha]] Hb.
    apply body_answer in Hb. destruct Hb as [E | [Hp E]].
    + exists ls. split; [exact Hls|]. destruct s'. simpl in *. congruence.
    + exists (ls ++ [line]). split.
      * apply Forall_app. split; [exact Hls|]. repeat constructor; auto.
      * destruct s'. simpl in *. rewrite E, Ha, !map_app, concat_app.
        simpl. now rewrite app_nil_r.
  - exists []. split; [constructor | reflexivity].
Qed.

(** A boundary line inside the answer box adds nothing to the answer. *)
Example answer_drops_boundary_line :
  exists out,
    parseRagOutput
      (unlines [js "┌──────────── 💡 Answer ────────────┐";
                js "│ Routes map URLs to views.        │";
                js "│ ───                              │";
                js "│ See urls.py.                     │";
                js "└──────────────────────────────────┘"]) = Return out
    /\ rag_answer out = js "Routes map URLs to views. See urls.py.".
Proof.
  eexists. split; [vm_compute; reflexivity | reflexivity].
Qed.

(** C4, amended.  For every input, the answer returned by parseRagOutput
    does not contain the literal [Answer:], and it is made of pieces, each
    followed by a space before the whole is trimmed: each piece is what a
    line of the input leaves when a [│] at its start with the white space
    after it, and a [│] at its end with the white space before it, are
    removed and the rest is trimmed; and no piece is empty or made only of
    the boundary characters [─ ┌ ┐ └ ┘], so that the boundary lines of a
    box add nothing to the answer. *)
Theorem answer_has_no_marker_nor_boundary_line (text : jsstring) :
  exists out,
    parseRagOutput text = Return out
    /\ includes (rag_answer out) (js "Answer:") = false
    /\ made_of_pieces (lines_of text) (rag_answer out).
Proof.
  destruct (parseRagOutput_keeps (fun _ => True) (fun _ _ => I)
              (fun _ _ _ _ _ => I) (fun _ _ _ _ => I) (fun _ _ _ => I)
              (fun _ _ _ => I) text)
    as [out [E [_ Ha]]].
  exists out. split; [exact E|]. split; [exact Ha|].
  unfold parseRagOutput, parseRagOutput_within in E.
  destruct (loop _ (lines_of text) initial) as [st| |] eqn:El;
    try discriminate.
  cbn [bind] in E. injection E as <-.
  destruct (loop_answer _ _ _ El) as [ls [Hls Hans]].
  exists ls. split; [exact Hls|].
  unfold finish, answer_of. cbn [rag_answer]. now rewrite Hans.
Qed.

(** C3.  A source whose box has no file-path line is pushed, without a
    file path, when the next header comes after its box is closed: only the
    save at the end of the input looks at the file path. *)
Lemma source_without_file_path_is_pushed :
  exists out first second,
    parseRagOutput
      (unlines [js "📚 Supporting Sources";
                js "┌──────── 1. FUNCTION: connect ────────┐";
                js "│ 📊 Similarity: 0.91                   │";
                js "└──────────────────────────────────────┘";
                js "def connect(): ...";
                js "┌──────── 2. FUNCTION: close ────────┐";
                js "│ 📄 db/conn.py:30-                   │";
                js "│ 41                                  │";
                js "└────────────────────────────────────┘"]) = Return out
    /\ rag_sources out = [first; second]
    /\ name first = js "connect" /\ file_path first = None
    /\ ~ has_file_path first
    /\ name second = js "close" /\ file_path second = Some (js "db/conn.py").
Proof.
  eexists _, _, _. split; [vm_compute; reflexivity|].
  split; [reflexivity|]. split; [reflexivity|]. split; [reflexivity|].
  split; [|split; reflexivity].
  intros [p [Hp _]]. discriminate.
Qed.

(** The same source box on whole outputs: the path is broken after any
    [k] of its characters into the line of the marker and the next line, and
    the source is returned with its path and its lines. *)
Example wrapped_path_outputs (k : nat) :
  (1 <= k <= 15)%nat ->
  parseRagOutput (wrapped_path_output k)
  = Return {| rag_answer := [];
              rag_sources :=
                [set_end_line
                   (set_start_line
                      (set_file_path (new_record (js "function") (js "load"))
                                     (js "foo/bar.py"))
                      (int 10))
                   (int 20)] |}.
Proof.
  intros [Hlo Hhi].
  do 16 (destruct k as [|k]; [try lia; vm_compute; reflexivity|]).
  lia.
Qed.









Lemma truthy_not_nil (u : jsstring) : u <> [] -> truthy u = true.
Proof. destruct u; [congruence | reflexivity]. Qed.


Section WrappedPath.

Local Opaque js_match test includes trim startsWith parseFloat parseInt
  join toLowerCase remove_match str_eqb truthy Z.sub Z.add group.



End WrappedPath.



(** A source header line begins with the top-left corner. *)
Lemma box_start_head (line : jsstring) :
  test line boxStartRe = true -> exists s, line = 0x250C :: s.
Proof.
  intros H. destruct line as [|c s].
  - rewrite test_blocked_head in H; [discriminate | reflexivity].
  - destruct (Z.eqb_spec 0x250C c) as [<-|Hc]; [now exists s|].
    rewrite test_blocked_head in H; [discriminate|].
    cbn -[Z.eqb]. apply Z.eqb_neq in Hc. now rewrite Hc.
Qed.

(** C10.  Inside a source box that no bottom border has closed, a source
    header line (one that is not taken for the line of the sources marker)
    opens the record it announces in place of the current one, and nothing
    is pushed: the record that was current is lost. *)
Theorem header_in_open_box_discards_record (line : jsstring) (st : Cli.state) :
  inside_box st ->
  test line boxStartRe = true ->
  includes (trim line) (js "Supporting Sources") = false ->
  exists st' r,
    body line st = Return st'
    /\ from_box_header line r
    /\ currentSource st' = Some r
    /\ sources st' = sources st
    /\ inside_box st'
    /\ i st' = i st.
Proof.
  intros [HS [HB HC]] Htest Hmark.
  destruct (box_start_head line Htest) as [s ->].
  destruct (trim_cons 0x250C s eq_refl) as [t Ht].
  unfold body. cbv zeta. rewrite Ht in *. rewrite HS, Hmark.
  cbn [truthy negb andb]. rewrite andb_false_r.
  replace (startsWith (0x250C :: t) (js "Code Search - RAG Mode Query:"))
    with false by reflexivity.
  replace (startsWith (0x250C :: t) (js "Query:")) with false by reflexivity.
  cbn [orb]. unfold sources_line. unfold test in Htest.
  destruct (js_match (0x250C :: s) boxStartRe) as [m|] eqn:Em; [|discriminate].
  destruct (group_defined _ _ _ 2%nat Em eq_refl) as [ty Hty].
  destruct (group_defined _ _ _ 3%nat Em eq_refl) as [nm Hnm].
  rewrite Hty, Hnm. cbn [bind].
  eexists _, (new_record (toLowerCase ty) (trim nm)).
  split; [reflexivity|]. split.
  - exists m, ty, nm. auto.
  - destruct st as [i0 ans srcs cur inA inS inB cc cl cfp fpl].
    unfold inside_box. simpl in *. subst.
    destruct cur; simpl; repeat split; reflexivity.
Qed.

(** C10 at the header of a second source met inside the box of a first. *)
Lemma header_in_open_box_discards_record_witness :
  exists st' r,
    body (js "┌──────── 2. CLASS: Pool ────────┐") in_first_box = Return st'
    /\ from_box_header (js "┌──────── 2. CLASS: Pool ────────┐") r
    /\ currentSource st' = Some r
    /\ sources st' = sources in_first_box
    /\ inside_box st'
    /\ i st' = i in_first_box.
Proof.
  apply (header_in_open_box_discards_record
           (js "┌──────── 2. CLASS: Pool ────────┐") in_first_box).
  - repeat split.
  - vm_compute. reflexivity.
  - vm_compute. reflexivity.
Defined.

(** The same on a whole output: the source whose box is cut short by the
    next header is not returned. *)
Example overwritten_source_is_lost :
  exists out r,
    parseRagOutput
      (unlines [js "📚 Supporting Sources";
                js "┌──────── 1. FUNCTION: connect ────────┐";
                js "│ 📊 Similarity: 0.91                   │";
                js "┌──────── 2. CLASS: Pool ────────┐";
                js "│ 📄 db/pool.py:5-                │";
                js "│ 40                              │";
                js "└────────────────────────────────┘"]) = Return out
    /\ rag_sources out = [r]
    /\ name r = js "Pool" /\ type r = js "class".
Proof.
  eexists _, _. split; [vm_compute; reflexivity|]. repeat split.
Qed.

(** One line met in the pipeline section. *)
Lemma pipeline_step (st : ResultsView.state) (line : jsstring) :
  ResultsView.currentSection st = ResultsView.sec_pipeline ->
  ends_pipeline line = false ->
  exists st',
    ResultsView.body st line = Return st'
    /\ ResultsView.currentSection st' = ResultsView.sec_pipeline
    /\ ResultsView.pipelineInfo (ResultsView.result st')
       = ResultsView.pipelineInfo (ResultsView.result st) ++ pipeline_text line
    /\ ResultsView.warnings (ResultsView.result st')
       = ResultsView.warnings (ResultsView.result st)
    /\ ResultsView.overallSummary (ResultsView.result st')
       = ResultsView.overallSummary (ResultsView.result st).
Proof.
  intros Hsec Hend.
  unfold ends_pipeline, pipeline_text, pr_skipped, pr_meta_or_commit in *.
  unfold ResultsView.body. cbv zeta. rewrite Hsec.
  destruct (negb (truthy (trim line))
            || test (trim line) ResultsView.separatorRe).
  { exists st. rewrite app_nil_r. auto. }
  destruct (startsWith (trim line) (js "Branch:")).
  { eexists; split; [reflexivity|]. simpl. rewrite app_nil_r. auto. }
  destruct (startsWith (trim line) (js "Commits:")).
  { eexists; split; [reflexivity|]. simpl. rewrite app_nil_r. auto. }
  destruct (startsWith (trim line) (js "Changed files:")).
  { eexists; split; [reflexivity|]. simpl. rewrite app_nil_r. auto. }
  destruct (test (trim line) ResultsView.commitRe).
  { eexists; split; [reflexivity|]. simpl. rewrite app_nil_r. auto. }
  cbn [negb orb andb] in *.
  apply orb_false_iff in Hend. destruct Hend as [Hbox Hsum].
  rewrite Hbox, Hsum. cbn [ResultsView.section_eqb andb].
  destruct (includes (trim line) (js "PR SUMMARIZATION PIPELINE")
            || test (trim line) ResultsView.progressRe);
    (eexists; split; [reflexivity|]); simpl; auto.
Qed.

(** C5, counterexample.  After the progress line that opens the pipeline
    section, a metadata line is read as metadata and the marker of the
    overall summary ends the section: neither these lines nor the summary
    that follows reach [pipelineInfo]. *)
Lemma pipeline_section_ends_early :
  let lines := [js "[1/3] Collecting diff";
                js "Branch: main";
                js "📝 Overall PR Summary:";
                js "Adds retries."] in
  exists doc,
    ResultsView._parsePRSummary (unlines lines) = Return doc
    /\ ResultsView.pipelineInfo doc = js "[1/3] Collecting diff"
    /\ ResultsView.pipelineInfo doc <> unlines lines
    /\ ResultsView.branch (ResultsView.meta doc) = js "main"
    /\ ResultsView.overallSummary doc = js "Adds retries.".
Proof.
  eexists. split; [vm_compute; reflexivity|].
  repeat split; try reflexivity. vm_compute. discriminate.
Qed.

(** A run of lines met in the pipeline section. *)
Lemma pipeline_run (lines : list jsstring) :
  forall st,
    ResultsView.currentSection st = ResultsView.sec_pipeline ->
    Forall (fun line => ends_pipeline line = false) lines ->
    exists st',
      for_each ResultsView.body lines st = Return st'
      /\ ResultsView.currentSection st' = ResultsView.sec_pipeline
      /\ ResultsView.pipelineInfo (ResultsView.result st')
         = ResultsView.pipelineInfo (ResultsView.result st)
           ++ List.concat (map pipeline_text lines)
      /\ ResultsView.warnings (ResultsView.result st')
         = ResultsView.warnings (ResultsView.result st)
      /\ ResultsView.overallSummary (ResultsView.result st')
         = ResultsView.overallSummary (ResultsView.result st).
Proof.
  induction lines as [|line lines IH]; intros st Hsec Hall;
    cbn [for_each map List.concat].
  - exists st. rewrite app_nil_r. auto.
  - inversion Hall as [|x l Hline Hrest]; subst.
    destruct (pipeline_step st line Hsec Hline)
      as [st1 [E [Hsec1 [Hp1 [Hw1 Ho1]]]]].
    rewrite E. cbn [bind].
    destruct (IH st1 Hsec1 Hrest) as [st' [E' [Hsec' [Hp' [Hw' Ho']]]]].
    exists st'. split; [exact E'|]. split; [exact Hsec'|].
    rewrite Hp', Hp1, Hw', Hw1, Ho', Ho1, app_assoc. auto.
Qed.

(** A marker line that reaches the pipeline test opens the section. *)
Lemma pipeline_open (st : ResultsView.state) (line : jsstring) :
  is_pipeline_marker line = true ->
  reaches_pipeline_test st line = true ->
  exists st',
    ResultsView.body st line = Return st'
    /\ ResultsView.currentSection st' = ResultsView.sec_pipeline
    /\ ResultsView.pipelineInfo (ResultsView.result st')
       = ResultsView.pipelineInfo (ResultsView.result st) ++ trim line ++ [10]
    /\ ResultsView.warnings (ResultsView.result st')
       = ResultsView.warnings (ResultsView.result st)
    /\ ResultsView.overallSummary (ResultsView.result st')
       = ResultsView.overallSummary (ResultsView.result st).
Proof.
  unfold is_pipeline_marker, reaches_pipeline_test, pr_skipped,
    pr_meta_or_commit.
  intros Hm Hr. rewrite !andb_true_iff, !negb_true_iff in Hr.
  destruct Hr as [[[[[H1 H2] H3] H4] H5] H6].
  rewrite !orb_false_iff in H2. destruct H2 as [[[Hb Hc] Hf] Hcm].
  unfold ResultsView.body. cbv zeta.
  rewrite H1, Hb, Hc, Hf, Hcm, H3, H5, H6, Hm.
  apply andb_false_iff in H4.
  destruct (ResultsView.section_eqb (ResultsView.currentSection st)
                                    ResultsView.sec_fileChange).
  - destruct H4 as [H4|H4]; [discriminate|].
    apply orb_false_iff in H4. destruct H4 as [-> ->]. cbn [andb].
    eexists; split; [reflexivity|]. simpl. auto.
  - cbn [andb]. eexists; split; [reflexivity|]. simpl. auto.
Qed.

(** C5, amended.  A line with the pipeline marker or a progress tag that
    reaches the pipeline test of the chain opens the pipeline section and
    is added to [pipelineInfo].  From then on, as long as no top border of a
    file change and no marker of the overall summary is met, every line
    that is not blank, not a separator, not a line of metadata and not a
    commit line is added, trimmed and followed by a newline, to
    [pipelineInfo] (warning lines included, so that [warnings] does not
    grow); the section stays pipeline, and the other lines add nothing to
    [pipelineInfo]. *)
Theorem pipeline_section_accumulates (st : ResultsView.state)
  (marker : jsstring) (lines : list jsstring) :
  is_pipeline_marker marker = true ->
  reaches_pipeline_test st marker = true ->
  Forall (fun line => ends_pipeline line = false) lines ->
  exists st',
    for_each ResultsView.body (marker :: lines) st = Return st'
    /\ ResultsView.currentSection st' = ResultsView.sec_pipeline
    /\ ResultsView.pipelineInfo (ResultsView.result st')
       = ResultsView.pipelineInfo (ResultsView.result st)
         ++ (trim marker ++ [10]) ++ List.concat (map pipeline_text lines)
    /\ ResultsView.warnings (ResultsView.result st')
       = ResultsView.warnings (ResultsView.result st).
Proof.
  intros Hm Hr Hall. cbn [for_each].
  destruct (pipeline_open st marker Hm Hr) as [st1 [E [Hsec [Hp [Hw _]]]]].
  rewrite E. cbn [bind].
  destruct (pipeline_run lines st1 Hsec Hall) as [st' [E' [Hsec' [Hp' [Hw' _]]]]].
  exists st'. split; [exact E'|]. split; [exact Hsec'|].
  rewrite Hp', Hp, Hw', Hw, <- app_assoc. auto.
Qed.

(** C5, amended, at a pipeline log of six lines. *)
Lemma pipeline_section_accumulates_witness :
  exists st',
    for_each ResultsView.body
      (js "[1/3] Collecting diff"
       :: [js "  cloning repository"; js ""; js "⚠️ shallow clone";
           js "Branch: main"; js "[2/3] Summarizing"])
      ResultsView.initial = Return st'
    /\ ResultsView.currentSection st' = ResultsView.sec_pipeline
    /\ ResultsView.pipelineInfo (ResultsView.result st')
       = ResultsView.pipelineInfo (ResultsView.result ResultsView.initial)
         ++ (trim (js "[1/3] Collecting diff") ++ [10])
         ++ List.concat
              (map pipeline_text
                 [js "  cloning repository"; js ""; js "⚠️ shallow clone";
                  js "Branch: main"; js "[2/3] Summarizing"])
    /\ ResultsView.warnings (ResultsView.result st')
       = ResultsView.warnings (ResultsView.result ResultsView.initial).
Proof.
  apply (pipeline_section_accumulates ResultsView.initial
           (js "[1/3] Collecting diff")
           [js "  cloning repository"; js ""; js "⚠️ shallow clone";
            js "Branch: main"; js "[2/3] Summarizing"]).
  - vm_compute. reflexivity.
  - vm_compute. reflexivity.
  - repeat constructor.
Defined.

(** C6, counterexample.  A warning line met in the overall-summary section
    goes to the summary text, and one met in the pipeline section goes to
    [pipelineInfo]; [warnings] stays empty. *)
Lemma warning_not_collected :
  (exists doc,
      ResultsView._parsePRSummary
        (unlines [js "📝 Overall PR Summary:"; js "Adds retries.";
                  js "⚠️ Large diff"]) = Return doc
      /\ ResultsView.warnings doc = []
      /\ ResultsView.overallSummary doc = js "Adds retries. ⚠️ Large diff")
  /\ (exists doc,
         ResultsView._parsePRSummary
           (unlines [js "[1/3] Collecting diff"; js "⚠️ Large diff"])
         = Return doc
         /\ ResultsView.warnings doc = []
         /\ ResultsView.pipelineInfo doc
            = unlines [js "[1/3] Collecting diff"; js "⚠️ Large diff"]).
Proof.
  split; eexists; (split; [vm_compute; reflexivity|]); split; reflexivity.
Qed.

(** A line that starts with the warning glyph once trimmed is not white
    space at its first character that counts, and does not begin with a
    box border. *)
Lemma warning_line_head (line : jsstring) :
  startsWith (trim line) (js "⚠️") = true ->
  (exists t, trim line = 0x26A0 :: 0xFE0F :: t)
  /\ test line ResultsView.leftBarRe = false
  /\ test line ResultsView.bottomRe = false.
Proof.
  intros H. apply startsWith_app in H. destruct H as [t Ht].
  change (js "⚠️") with [0x26A0; 0xFE0F] in Ht. simpl in Ht.
  split; [now exists t|].
  destruct (trim_head _ _ _ Ht) as [u [v [El [Hu Hc]]]].
  assert (Hhd : exists c, hd_error line = Some c
                          /\ (c = 0x26A0 \/ is_ws c = true)).
  { rewrite El. destruct u as [|d u]; simpl.
    - exists 0x26A0. auto.
    - exists d. simpl in Hu. apply andb_true_iff in Hu. tauto. }
  destruct Hhd as [c [Hhd Hc']].
  assert (Hbar : (0x2502 =? c) = false /\ (0x2514 =? c) = false).
  { destruct Hc' as [-> | Hws]; [split; reflexivity|].
    split; apply Z.eqb_neq; intros <-; discriminate. }
  destruct Hbar as [H1 H2].
  split; apply test_blocked_head; rewrite Hhd; cbn -[Z.eqb];
    [rewrite H1 | rewrite H2]; reflexivity.
Qed.

(** C6, amended.  A line that starts with the warning glyph is added to
    [warnings] when the section is header, fileChange or between and the
    line does not contain the pipeline marker; in the overall-summary
    section it is added to the summary text, and in the pipeline section,
    or when it contains the pipeline marker, to [pipelineInfo]. *)
Theorem warning_line_by_section (line : jsstring) (st : ResultsView.state) :
  startsWith (trim line) (js "⚠️") = true ->
  exists st',
    ResultsView.body st line = Return st' /\ warning_outcome line st st'.
Proof.
  intros H. destruct (warning_line_head line H) as [[t Ht] [Hbar Hbot]].
  unfold ResultsView.body, warning_outcome. cbv zeta.
  rewrite H, Hbar, Hbot, Ht.
  rewrite (test_blocked_head ResultsView.separatorRe) by reflexivity.
  rewrite (test_blocked_head ResultsView.commitRe) by reflexivity.
  rewrite (test_blocked_head ResultsView.fileBoxRe) by reflexivity.
  rewrite (test_blocked_head ResultsView.boxCharsRe) by reflexivity.
  rewrite (test_blocked_head ResultsView.progressRe) by reflexivity.
  replace (startsWith (0x26A0 :: 0xFE0F :: t) (js "Branch:"))
    with false by reflexivity.
  replace (startsWith (0x26A0 :: 0xFE0F :: t) (js "Commits:"))
    with false by reflexivity.
  replace (startsWith (0x26A0 :: 0xFE0F :: t) (js "Changed files:"))
    with false by reflexivity.
  replace (startsWith (0x26A0 :: 0xFE0F :: t) (js "📝 Overall PR Summary:"))
    with false by reflexivity.
  cbn [truthy negb orb andb]. rewrite !andb_false_r, !andb_true_r, !orb_false_r.
  destruct (ResultsView.currentSection st) eqn:Esec;
    cbn [ResultsView.section_eqb];
    try (destruct (includes (0x26A0 :: 0xFE0F :: t)
                            (js "PR SUMMARIZATION PIPELINE")));
    eexists; (split; [reflexivity|]); simpl; auto.
Qed.

(** C6, amended, at a warning line met in the header section. *)
Lemma warning_line_by_section_witness :
  exists st',
    ResultsView.body ResultsView.initial (js "⚠️ Large diff") = Return st'
    /\ warning_outcome (js "⚠️ Large diff") ResultsView.initial st'.
Proof.
  apply (warning_line_by_section (js "⚠️ Large diff") ResultsView.initial).
  vm_compute. reflexivity.
Defined.

(* ===================================================================== *)
(** * Further properties: escaping *)
(* ===================================================================== *)

Lemma flat_map_compose (f g : Z -> jsstring) (s : jsstring) :
  flat_map g (flat_map f s) = flat_map (fun x => flat_map g (f x)) s.
Proof.
  induction s as [|c s IH]; simpl; [reflexivity|].
  now rewrite flat_map_app, IH.
Qed.

(** The five replacements, one after the other, come to replacing each
    character by its entity: the ampersands of the entities written by the
    later replacements are not escaped again. *)
Lemma escapeHtml_by_char (text : jsstring) :
  Render._escapeHtml text = flat_map Render.escape_char text.
Proof.
  unfold Render._escapeHtml, Render.replace_char.
  rewrite !flat_map_compose. apply flat_map_ext. intros c.
  unfold Render.escape_char.
  destruct (Z.eqb_spec c 38) as [->|H38]; [reflexivity|].
  destruct (Z.eqb_spec c 60) as [->|H60]; [reflexivity|].
  destruct (Z.eqb_spec c 62) as [->|H62]; [reflexivity|].
  destruct (Z.eqb_spec c 34) as [->|H34]; [reflexivity|].
  destruct (Z.eqb_spec c 39) as [->|H39]; [reflexivity|].
  cbn [flat_map app].
  repeat match goal with
         | H : c <> ?k |- context [c =? ?k] =>
             rewrite (proj2 (Z.eqb_neq c k) H); cbn [flat_map app]
         end.
  reflexivity.
Qed.

(** X1.  Escaped text has no less-than sign, no greater-than sign and no
    quote of either kind, whatever the text. *)
Theorem escapeHtml_no_markup (text : jsstring) :
  Forall (fun c => c <> 60 /\ c <> 62 /\ c <> 34 /\ c <> 39)
         (Render._escapeHtml text).
Proof.
  rewrite escapeHtml_by_char.
  induction text as [|c text IH]; simpl; [constructor|].
  apply Forall_app. split; [|exact IH].
  unfold Render.escape_char.
  destruct (Z.eqb_spec c 38); [repeat constructor; discriminate|].
  destruct (Z.eqb_spec c 60); [repeat constructor; discriminate|].
  destruct (Z.eqb_spec c 62); [repeat constructor; discriminate|].
  destruct (Z.eqb_spec c 34); [repeat constructor; discriminate|].
  destruct (Z.eqb_spec c 39); [repeat constructor; discriminate|].
  repeat constructor; assumption.
Qed.

Lemma escape_char_cases (c : Z) :
  (Render.is_html_special c = false /\ c <> 38 /\ Render.escape_char c = [c])
  \/ (c = 38 /\ Render.escape_char c = [38; 97; 109; 112; 59])
  \/ (c = 60 /\ Render.escape_char c = [38; 108; 116; 59])
  \/ (c = 62 /\ Render.escape_char c = [38; 103; 116; 59])
  \/ (c = 34 /\ Render.escape_char c = [38; 113; 117; 111; 116; 59])
  \/ (c = 39 /\ Render.escape_char c = [38; 35; 48; 51; 57; 59]).
Proof.
  unfold Render.escape_char, Render.is_html_special.
  destruct (Z.eqb_spec c 38) as [->|H38]; [right; left; split; reflexivity|].
  destruct (Z.eqb_spec c 60) as [->|H60];
    [right; right; left; split; reflexivity|].
  destruct (Z.eqb_spec c 62) as [->|H62];
    [right; right; right; left; split; reflexivity|].
  destruct (Z.eqb_spec c 34) as [->|H34];
    [right; right; right; right; left; split; reflexivity|].
  destruct (Z.eqb_spec c 39) as [->|H39];
    [right; right; right; right; right; split; reflexivity|].
  left. auto.
Qed.

Lemma escape_chars_injective (a : jsstring) :
  forall b,
    flat_map Render.escape_char a = flat_map Render.escape_char b -> a = b.
Proof.
  induction a as [|x a IH]; intros [|y b] H; cbn [flat_map] in H.
  - reflexivity.
  - destruct (escape_char_cases y)
      as [[_ [_ E]]|[[_ E]|[[_ E]|[[_ E]|[[_ E]|[_ E]]]]]];
      rewrite E in H; discriminate.
  - destruct (escape_char_cases x)
      as [[_ [_ E]]|[[_ E]|[[_ E]|[[_ E]|[[_ E]|[_ E]]]]]];
      rewrite E in H; discriminate.
  - destruct (escape_char_cases x)
      as [[_ [Nx Ex]]|[[-> Ex]|[[-> Ex]|[[-> Ex]|[[-> Ex]|[-> Ex]]]]]];
      destruct (escape_char_cases y)
        as [[_ [Ny Ey]]|[[-> Ey]|[[-> Ey]|[[-> Ey]|[[-> Ey]|[-> Ey]]]]]];
      rewrite ?Ex, ?Ey in H; simpl in H;
      try (injection H as -> H; f_equal; now apply IH);
      try (injection H as H; f_equal; now apply IH);
      try discriminate;
      try (injection H as Hx _; congruence).
Qed.

(** X2.  Escaping loses nothing: two texts have the same escaped form
    exactly when they are the same text. *)
Theorem escapeHtml_injective (a b : jsstring) :
  Render._escapeHtml a = Render._escapeHtml b <-> a = b.
Proof.
  split; [|now intros ->].
  rewrite !escapeHtml_by_char. apply escape_chars_injective.
Qed.

(** X3.  A text is left as it is exactly when it has none of the five
    characters; and the escaped form of two texts put together is their
    escaped forms put together. *)
Theorem escapeHtml_plain_and_append (a b : jsstring) :
  (Render._escapeHtml a = a <-> existsb Render.is_html_special a = false)
  /\ Render._escapeHtml (a ++ b)
     = Render._escapeHtml a ++ Render._escapeHtml b.
Proof.
  split.
  - rewrite escapeHtml_by_char. split.
    + intros H.
      assert (G : forall s, (List.length s
                             <= List.length (flat_map Render.escape_char s))%nat).
      { induction s as [|c s IHs]; simpl; [lia|]. rewrite length_app.
        destruct (escape_char_cases c)
          as [[_ [_ E]]|[[_ E]|[[_ E]|[[_ E]|[[_ E]|[_ E]]]]]];
          rewrite E; simpl; lia. }
      induction a as [|c a IH]; simpl in *; [reflexivity|].
      destruct (escape_char_cases c)
        as [[Hs [_ E]]|[[_ E]|[[_ E]|[[_ E]|[[_ E]|[_ E]]]]]];
        rewrite E in H; simpl in H.
      * rewrite Hs. simpl. apply IH. now injection H.
      * exfalso. apply (f_equal (@List.length Z)) in H. simpl in H.
        pose proof (G a). lia.
      * exfalso. apply (f_equal (@List.length Z)) in H. simpl in H.
        pose proof (G a). lia.
      * exfalso. apply (f_equal (@List.length Z)) in H. simpl in H.
        pose proof (G a). lia.
      * exfalso. apply (f_equal (@List.length Z)) in H. simpl in H.
        pose proof (G a). lia.
      * exfalso. apply (f_equal (@List.length Z)) in H. simpl in H.
        pose proof (G a). lia.
    + intros H. induction a as [|c a IH]; simpl in *; [reflexivity|].
      apply orb_false_iff in H. destruct H as [Hc H].
      destruct (escape_char_cases c)
        as [[_ [_ E]]|[[-> _]|[[-> _]|[[-> _]|[[-> _]|[-> _]]]]]];
        try discriminate.
      rewrite E. simpl. now rewrite IH.
  - rewrite !escapeHtml_by_char. apply flat_map_app.
Qed.

(* ===================================================================== *)
(** * Further properties: what the records are made of *)
(* ===================================================================== *)

Lemma Matches_progress (r : regex) (st st' : mstate) :
  Matches r st st' ->
  (pos st <= pos st')%nat /\ (consumes r = true -> (pos st < pos st')%nat).
Proof.
  induction 1 as [st|p st c s' Hr Hp|r1 r2 st st1 st2 _ IH1 _ IH2
                  |r1 r2 st st' _ IH|r1 r2 st st' _ IH|g r st
                  |g r st st1 st2 _ IH1 Hlt _ IH2|n r st st1 _ IH
                  |st Hp|st Hr]; simpl;
    try (split; [lia | discriminate]).
  - split; [lia | intros _; lia].
  - destruct IH1 as [L1 S1], IH2 as [L2 S2]. split; [lia|].
    rewrite orb_true_iff. intros [C|C]; [apply S1 in C | apply S2 in C]; lia.
  - destruct IH as [L S]. split; [lia|].
    rewrite andb_true_iff. intros [C _]. auto.
  - destruct IH as [L S]. split; [lia|].
    rewrite andb_true_iff. intros [_ C]. auto.
  - exact IH.
Qed.

(** The text taken by a pattern made of one class, used at least once. *)
Lemma Matches_some_of (p : Z -> bool) (r : regex) (st st' : mstate) :
  Matches r st st' -> chars_in p r -> consumes r = true ->
  some_of p (firstn (pos st' - pos st) (rest st)).
Proof.
  intros Hm Hc Hn.
  destruct (Matches_word _ _ _ Hm) as [w [E [Pw C]]].
  destruct (Matches_progress _ _ _ Hm) as [_ Hlt]. specialize (Hlt Hn).
  rewrite Pw, E.
  replace (pos st + List.length w - pos st)%nat with (List.length w) by lia.
  rewrite firstn_app, firstn_all, Nat.sub_diag. simpl. rewrite app_nil_r.
  split; [|auto].
  intros ->. simpl in Pw. lia.
Qed.

(** A literal takes its own text. *)
Lemma Matches_lit (s : jsstring) :
  forall st st',
    Matches (lit s) st st' ->
    firstn (pos st' - pos st) (rest st) = s.
Proof.
  induction s as [|c s IH]; intros st st' H.
  - inversion H; subst. now rewrite Nat.sub_diag.
  - destruct s as [|d s].
    + inversion H as [|p st0 c0 s' Hr Hp| | | | | | | |]; subst.
      apply Z.eqb_eq in Hp. subst c0. rewrite Hr.
      change (pos (advance st s')) with (S (pos st)).
      replace (S (pos st) - pos st)%nat with 1%nat by lia. reflexivity.
    + change (lit (c :: d :: s)) with (Seq (chr c) (lit (d :: s))) in H.
      inversion H as [| |r1 r2 st0 st1 st2 H1 H2| | | | | | |]; subst.
      inversion H1 as [|p st0 c0 s' Hr Hp| | | | | | | |]; subst.
      apply Z.eqb_eq in Hp. subst c0.
      pose proof (IH _ _ H2) as IH'.
      destruct (Matches_progress _ _ _ H2) as [Hle _].
      change (pos (advance st s')) with (S (pos st)) in IH', Hle.
      change (rest (advance st s')) with s' in IH'.
      rewrite Hr.
      replace (pos st' - pos st)%nat with (S (pos st' - S (pos st))) by lia.
      cbn [firstn]. now rewrite IH'.
Qed.

(** Whatever a group captures has the property of its pattern. *)
Lemma Matches_group_sat (r : regex) (st st' : mstate) (n : nat)
  (Q : jsstring -> Prop) :
  Matches r st st' -> group_sat n Q r ->
  (forall w, lookup n (caps st) = Some w -> Q w) ->
  forall w, lookup n (caps st') = Some w -> Q w.
Proof.
  induction 1 as [st|q st c s' Hr Hp|r1 r2 st st1 st2 H1 IH1 H2 IH2
                  |r1 r2 st st' _ IH|r1 r2 st st' _ IH|g r st
                  |g r st st1 st2 _ IH1 Hlt _ IH2|m r st st1 Hm IH
                  |st Hp|st Hr]; simpl; auto.
  - intros [G1 G2] H0. auto.
  - intros [G1 _]. auto.
  - intros [_ G2]. auto.
  - intros [G1 G2] H0 w. destruct (m =? n)%nat eqn:Emn.
    + intros [= <-]. now apply G1.
    + apply IH; auto.
Qed.

Lemma group_satisfies (s : jsstring) (r : regex) (m : match_result) (n : nat)
  (Q : jsstring -> Prop) (w : jsstring) :
  js_match s r = Some m -> group_sat n Q r -> group m n = Return w -> Q w.
Proof.
  intros H Hg Hw. apply js_match_spec in H.
  destruct H as [u [v [st' [_ [_ [Hm [_ Hc]]]]]]].
  unfold group in Hw. rewrite Hc in Hw.
  destruct (lookup n (caps st')) as [w'|] eqn:E; [|discriminate].
  injection Hw as ->.
  eapply Matches_group_sat; eauto. simpl. discriminate.
Qed.

(** The kind of a header is FUNCTION or CLASS. *)
Lemma kind_alternatives (st st' : mstate) :
  Matches (Alt (lit (js "FUNCTION")) (lit (js "CLASS"))) st st' ->
  kind_text (firstn (pos st' - pos st) (rest st)).
Proof.
  inversion 1 as [| | |r1 r2 st0 st1 Hm|r1 r2 st0 st1 Hm| | | | |]; subst.
  - left. now apply Matches_lit.
  - right. now apply Matches_lit.
Qed.

Lemma kind_lowercase (ty : jsstring) :
  kind_text ty ->
  toLowerCase ty = js "function" \/ toLowerCase ty = js "class".
Proof. intros [-> | ->]; [left | right]; reflexivity. Qed.

Lemma takeWhile_id (p : Z -> bool) (w : jsstring) :
  forallb p w = true -> takeWhile p w = w.
Proof.
  induction w as [|d w IH]; simpl; [reflexivity|].
  intros H. apply andb_true_iff in H. destruct H as [Hd Hw].
  rewrite Hd. f_equal. auto.
Qed.

Lemma digit_cases (c : Z) :
  is_digit c = true ->
  c = 48 \/ c = 49 \/ c = 50 \/ c = 51 \/ c = 52 \/ c = 53
  \/ c = 54 \/ c = 55 \/ c = 56 \/ c = 57.
Proof.
  unfold is_digit. rewrite andb_true_iff, !Z.leb_le. lia.
Qed.

(** A text of digits has no [0x] at its head. *)
Lemma no_hex_prefix (s : jsstring) :
  forallb is_digit s = true ->
  match s with
  | 48 :: 120 :: s' => (16, s')
  | 48 :: 88 :: s' => (16, s')
  | _ => (10, s)
  end = (10, s).
Proof.
  destruct s as [|c s]; [reflexivity|]. simpl.
  rewrite andb_true_iff. intros [Hc Hs].
  destruct (digit_cases c Hc) as [->|[->|[->|[->|[->|[->|[->|[->|[->| ->]]]]]]]]];
    try reflexivity.
  destruct s as [|d s]; [reflexivity|].
  simpl in Hs. apply andb_true_iff in Hs. destruct Hs as [Hd _].
  destruct (digit_cases d Hd) as [->|[->|[->|[->|[->|[->|[->|[->|[->| ->]]]]]]]]];
    reflexivity.
Qed.

(** The double of an integer is the positive infinity or an integer, which
    is not negative when the integer is not. *)
Lemma round_to_double_cases (n : Z) :
  round_to_double n = Infinity false
  \/ exists v, round_to_double n = int v /\ (0 <= n -> 0 <= v).
Proof.
  unfold round_to_double. cbv zeta.
  destruct (Z.log2 n - 52 <=? 0); [right; eauto|].
  match goal with
  | |- context [if 1024 <=? Z.log2 (Z.shiftl ?m ?e) then _ else _] =>
      destruct (1024 <=? Z.log2 (Z.shiftl m e)); [now left|];
      right; exists (Z.shiftl m e); split; [reflexivity|];
      intros Hn; apply Z.shiftl_nonneg
  end.
  pose proof (proj2 (Z.shiftr_nonneg n (Z.log2 n - 52)) Hn).
  match goal with
  | |- context [if ?c then _ else _] => destruct c
  end; lia.
Qed.

(** A text of digits is read by parseInt as the integer it writes, rounded
    to a double. *)
Lemma parseInt_digits (w : jsstring) :
  some_of is_digit w -> is_line_number (parseInt w).
Proof.
  intros [Hne Hd].
  assert (E : parseInt w = round_to_double (digits_value 10 w)).
  { unfold parseInt. destruct w as [|c w]; [congruence|].
    pose proof Hd as Hd'. simpl in Hd'. apply andb_true_iff in Hd'.
    destruct Hd' as [Hc _].
    assert (Hws : is_ws c = false /\ (c =? 45) = false /\ (c =? 43) = false).
    { destruct (digit_cases c Hc)
        as [->|[->|[->|[->|[->|[->|[->|[->|[->| ->]]]]]]]]];
        repeat split. }
    destruct Hws as [Hws [H45 H43]].
    cbn [trimStart]. rewrite Hws. unfold split_sign. rewrite H45, H43.
    rewrite (no_hex_prefix (c :: w) Hd).
    change (10 =? 16) with false. cbv iota.
    now rewrite (takeWhile_id _ _ Hd). }
  rewrite E.
  destruct (round_to_double_cases (digits_value 10 w)) as [-> | [v [-> Hv]]].
  - now left.
  - right. exists v. split; [|reflexivity].
    apply Hv. now apply digits_value_nonneg.
Qed.

Ltac split_groups :=
  simpl;
  repeat match goal with
         | |- _ /\ _ => split
         | |- True => exact I
         | |- false = true -> _ => discriminate
         end.

Lemma headerRe_groups :
  group_sat 2 kind_text headerRe /\ group_sat 3 (some_of is_word) headerRe.
Proof.
  split; split_groups; intros _ st st1 Hm.
  - exact (kind_alternatives _ _ Hm).
  - apply (Matches_some_of is_word _ _ _ Hm); simpl; auto.
Qed.

Lemma fileRe_groups :
  group_sat 2 (some_of is_digit) fileRe
  /\ group_sat 3 (some_of is_digit) fileRe.
Proof.
  split; split_groups; intros _ st st1 Hm;
    apply (Matches_some_of is_digit _ _ _ Hm); simpl; auto.
Qed.

Lemma boxStartRe_groups : group_sat 2 kind_text boxStartRe.
Proof.
  split_groups; intros _ st st1 Hm.
  exact (kind_alternatives _ _ Hm).
Qed.

Lemma completeRe_groups :
  group_sat 2 (some_of is_digit) completeRe
  /\ group_sat 3 (some_of is_digit) completeRe.
Proof.
  split; split_groups; intros _ st st1 Hm;
    apply (Matches_some_of is_digit _ _ _ Hm); simpl; auto.
Qed.

Section SearchProvenance.

(** A property of records kept by the assignments of parseSearchOutput,
    given what the groups of its patterns capture. *)
Variable P : record -> Prop.
Hypothesis P_new :
  forall ty nm,
    kind_text ty -> some_of is_word nm -> P (new_record (toLowerCase ty) nm).
Hypothesis P_location :
  forall r p a b,
    P r -> some_of is_digit a -> some_of is_digit b ->
    P (set_end_line (set_start_line (set_file_path r p) (parseInt a))
                    (parseInt b)).
Hypothesis P_similarity : forall r x, P r -> P (set_similarity r x).
Hypothesis P_docstring : forall r d, P r -> P (set_docstring r d).

Lemma search_body_from (results : list record) (cur : option record)
  (line : jsstring) :
  Forall P (results ++ pending cur) ->
  exists results' cur',
    search_body (results, cur) line = Return (results', cur')
    /\ Forall P (results' ++ pending cur').
Proof.
  intros HP. unfold search_body.
  destruct (js_match line headerRe) as [hm|] eqn:Eh.
  - destruct (group_defined _ _ _ 3 Eh eq_refl) as [nm Hnm].
    destruct (group_defined _ _ _ 2 Eh eq_refl) as [ty Hty].
    rewrite Hnm, Hty. cbn [bind].
    pose proof (group_satisfies _ _ _ _ _ _ Eh (proj1 headerRe_groups) Hty).
    pose proof (group_satisfies _ _ _ _ _ _ Eh (proj2 headerRe_groups) Hnm).
    eexists _, _. split; [reflexivity|].
    destruct cur as [r|]; simpl in *.
    + apply Forall_app. split; [exact HP | auto].
    + rewrite app_nil_r in HP. apply Forall_app. auto.
  - destruct cur as [cur|].
    2:{ exists results, None. auto. }
    apply Forall_app in HP. destruct HP as [HP Hcur].
    assert (Pcur : P cur) by now inversion Hcur.
    assert (Hupd : forall r', P r' -> Forall P (results ++ pending (Some r'))).
    { intros r' Hr'. apply Forall_app. split; [exact HP | constructor; auto]. }
    destruct (js_match line fileRe) as [fm|] eqn:Ef.
    { read_group Ef 1%nat.
      destruct (group_defined _ _ _ 2%nat Ef eq_refl) as [a Ha].
      destruct (group_defined _ _ _ 3%nat Ef eq_refl) as [b Hb].
      rewrite Ha, Hb. cbn [bind].
      pose proof (group_satisfies _ _ _ _ _ _ Ef (proj1 fileRe_groups) Ha).
      pose proof (group_satisfies _ _ _ _ _ _ Ef (proj2 fileRe_groups) Hb).
      eexists _, _. split; [reflexivity|]. apply Hupd; auto. }
    destruct (js_match line simRe) as [sm|] eqn:Es.
    { read_group Es 1%nat.
      eexists _, _. split; [reflexivity|]. apply Hupd; auto. }
    destruct (js_match line docRe) as [dm|] eqn:Ed.
    { read_group Ed 1%nat.
      eexists _, _. split; [reflexivity|]. apply Hupd; auto. }
    exists results, (Some cur). split; [reflexivity|]. apply Hupd; auto.
Qed.

Lemma parseSearchOutput_from (output : jsstring) :
  exists rs, parseSearchOutput output = Return rs /\ Forall P rs.
Proof.
  unfold parseSearchOutput.
  assert (G : forall lines results cur,
             Forall P (results ++ pending cur) ->
             exists results' cur',
               for_each search_body lines (results, cur)
               = Return (results', cur')
               /\ Forall P (results' ++ pending cur')).
  { induction lines as [|line lines IH]; intros results cur HP;
      cbn [for_each]; [eauto|].
    destruct (search_body_from results cur line HP)
      as [results1 [cur1 [E HP1]]].
    rewrite E. cbn [bind]. now apply IH. }
  destruct (G (lines_of output) [] None) as [results [cur [E HP]]];
    [constructor|].
  rewrite E. cbn [bind]. eexists. split; [reflexivity|].
  destruct cur; simpl in *; [exact HP | now rewrite app_nil_r in HP].
Qed.

End SearchProvenance.

(** X4.  Every record returned by parseSearchOutput has the type
    [function] or [class], a name that is an identifier (word characters,
    at least one), and, when it has line numbers, line numbers that are
    integers and not negative, or the positive infinity when their digits
    are too many for a double: never NaN, never negative, never with a
    fraction. *)
Theorem search_records_well_formed (output : jsstring) :
  exists rs,
    parseSearchOutput output = Return rs
    /\ Forall (fun r => kind_ok r /\ name_ok r /\ lines_ok r) rs.
Proof.
  apply parseSearchOutput_from.
  - intros ty nm Hk Hn. unfold kind_ok, name_ok, lines_ok. simpl.
    split; [now apply kind_lowercase | split; [exact Hn | exact I]].
  - intros r p a b [Hk [Hn Hl]] Ha Hb.
    split; [exact Hk | split; [exact Hn|]].
    unfold lines_ok. simpl. split; now apply parseInt_digits.
  - intros r x H. exact H.
  - intros r d H. exact H.
Qed.

Section RagProvenance.

(** A property of records kept by the assignments of parseRagOutput, given
    what the groups of its patterns capture. *)
Variable P : record -> Prop.
Hypothesis P_new :
  forall ty nm, kind_text ty -> P (new_record (toLowerCase ty) nm).
Hypothesis P_location :
  forall r p a b,
    P r -> some_of is_digit a -> some_of is_digit b ->
    P (set_end_line (set_start_line (set_file_path r p) (parseInt a))
                    (parseInt b)).
Hypothesis P_similarity : forall r x, P r -> P (set_similarity r x).
Hypothesis P_docstring : forall r d, P r -> P (set_docstring r d).
Hypothesis P_code : forall r c, P r -> P (set_code_snippet r c).

Local Opaque js_match test includes trim startsWith parseFloat parseInt
  join toLowerCase remove_match str_eqb truthy Z.sub Z.add.

Lemma box_line_from (line trimmed : jsstring) (st : Cli.state) :
  safe st -> inSourceBox st = true ->
  exists st', box_line line trimmed st = Return st' /\ step_ok P line st st'.
Proof.
  intros Hs HB. unfold box_line.
  destruct (includes line (js "📄") && negb (collectingFilePath st)) eqn:E1.
  { destruct (js_match line pathRe) as [pm|] eqn:Em.
    - read_group Em 1%nat. destruct (truthy (trim w));
        (eexists; split; [reflexivity|]); destruct st, Hs; simpl in *;
        step_leaf auto.
    - eexists; split; [reflexivity|]. destruct st, Hs; simpl in *.
      step_leaf auto. }
  destruct (collectingFilePath st) eqn:E2.
  { destruct (js_match line pathLineRe) as [pm|] eqn:Em.
    2:{ eexists; split; [reflexivity|]. destruct st, Hs; simpl in *.
        step_leaf auto. }
    read_group Em 1%nat.
    match goal with
    | |- context [if ?c then _ else _] => destruct c
    end.
    2:{ eexists; split; [reflexivity|]. destruct st, Hs; simpl in *.
        step_leaf auto. }
    cbv zeta.
    match goal with
    | |- context [js_match ?a completeRe] =>
        destruct (js_match a completeRe) as [cm|] eqn:Ec
    end.
    2:{ eexists; split; [reflexivity|]. destruct st, Hs; simpl in *.
        step_leaf auto. }
    destruct st as [i0 ans srcs cur inA inS inB cc cl cfp fpl].
    destruct Hs as [Hb Hc]. simpl in *. subst inB.
    destruct cur as [cs|]; [|exfalso; now apply Hb]. cbn [deref bind].
    read_group Ec 1%nat.
    destruct (group_defined _ _ _ 2%nat Ec eq_refl) as [a Ha].
    destruct (group_defined _ _ _ 3%nat Ec eq_refl) as [b Hb'].
    rewrite Ha, Hb'. cbn [bind].
    pose proof (group_satisfies _ _ _ _ _ _ Ec (proj1 completeRe_groups) Ha)
      as Da.
    pose proof (group_satisfies _ _ _ _ _ _ Ec (proj2 completeRe_groups) Hb')
      as Db.
    pose proof (fun r p Hr => P_location r p a b Hr Da Db) as Ploc.
    eexists; split; [reflexivity|]. step_leaf auto. }
  destruct (currentSource st) as [cs|] eqn:Ecur.
  2:{ exfalso. destruct Hs as [Hb _]. now apply Hb. }
  destruct (js_match line boxSimRe) as [sm|] eqn:Es.
  { read_group Es 1%nat.
    eexists; split; [reflexivity|]. destruct st, Hs; simpl in *.
    step_leaf auto. }
  destruct (js_match line boxDocRe) as [dm|] eqn:Ed.
  { read_group Ed 1%nat.
    eexists; split; [reflexivity|]. destruct st, Hs; simpl in *.
    step_leaf auto. }
  destruct (test line boxEndRe).
  { eexists; split; [reflexivity|]. destruct st, Hs; simpl in *.
    step_leaf auto. }
  eexists; split; [reflexivity|]. now apply code_line_ok.
Qed.

Lemma sources_line_from (line trimmed : jsstring) (st : Cli.state) :
  safe st ->
  exists st',
    sources_line line trimmed st = Return st' /\ step_ok P line st st'.
Proof.
  intros Hs. unfold sources_line.
  destruct (js_match line boxStartRe) as [bm|] eqn:Em.
  - destruct (group_defined _ _ _ 2%nat Em eq_refl) as [ty Hty].
    rewrite Hty. cbn [bind].
    pose proof (group_satisfies _ _ _ _ _ _ Em boxStartRe_groups Hty) as Hk.
    read_group Em 3%nat.
    pose proof (P_new ty (trim w) Hk) as Pnew.
    pose proof (P_with_code P P_code) as Pcode.
    eexists; split; [reflexivity|].
    destruct st as [i0 ans srcs cur inA inS inB cc cl cfp fpl].
    destruct Hs as [Hb Hc]. simpl in *.
    destruct cur as [cs|]; [destruct cc|]; simpl;
      step_leaf ltac:(auto).
  - destruct (inSourceBox st) eqn:EB.
    + now apply box_line_from.
    + eexists; split; [reflexivity|]. now apply code_line_ok.
Qed.

Lemma body_from (line : jsstring) (st : Cli.state) :
  safe st ->
  exists st', body line st = Return st' /\ step_ok P line st st'.
Proof.
  intros Hs.
  destruct (inSourcesSection st) eqn:ES.
  - unfold body. cbv zeta. rewrite ES.
    repeat match goal with
           | |- context [if ?c then Return _ else _] =>
               destruct c;
               [eexists; split; [reflexivity|]; destruct st, Hs; simpl in *;
                step_leaf auto|]
           end.
    cbv iota. now apply sources_line_from.
  - destruct (body_ok (fun _ => True) (fun _ _ => I) (fun _ _ _ _ _ => I)
                (fun _ _ _ _ => I) (fun _ _ _ => I) (fun _ _ _ => I)
                line st Hs) as [st' [E [Hs' [_ [Hpr Hans]]]]].
    exists st'. split; [exact E|]. split; [exact Hs'|].
    split; [|split; assumption].
    revert E. unfold body. cbv zeta. rewrite ES.
    repeat match goal with
           | |- context [if ?c then Return _ else _] =>
               destruct c;
               [intros [= <-]; destruct st; simpl; tauto|]
           end.
    unfold answer_line. cbv zeta.
    repeat match goal with
           | |- context [if ?c then _ else _] => destruct c
           end;
      intros [= <-]; destruct st; simpl; tauto.
Qed.

Lemma loop_from (lines : list jsstring) :
  forall n st,
    safe st -> all_sources P st -> 0 <= i st ->
    2 * Z.max 0 (Z.of_nat (List.length lines) - i st)
    + (if collectingCode st then 1 else 0) < Z.of_nat n ->
    exists st',
      loop n lines st = Return st' /\ all_sources P st'.
Proof.
  induction n as [|n IH]; intros st Hs HP Hi Hn.
  - destruct (collectingCode st); lia.
  - cbn [loop].
    destruct (Z.ltb_spec (i st) (Z.of_nat (List.length lines))) as [Hlt|Hge].
    2:{ exists st. auto. }
    destruct (line_at_in_range lines (i st)) as [line El]; [lia|].
    rewrite El. cbn [bind].
    destruct (body_from line st Hs) as [st1 [E [Hs1 [HP1 [Hpr Hans]]]]].
    rewrite E. cbn [bind]. apply IH.
    + destruct st1, Hs1. split; auto.
    + destruct st1. apply HP1 in HP. exact HP.
    + destruct st1. unfold progress in Hpr. cbn [i set_i] in *. lia.
    + destruct st1 as [i1 ans srcs cur inA inS inB cc cl cfp fpl].
      unfold progress in Hpr. cbn [i collectingCode set_i] in *.
      destruct Hpr as [-> | [-> [Hc ->]]].
      * destruct cc, (collectingCode st); lia.
      * rewrite Hc in Hn. lia.
Qed.

Lemma parseRagOutput_from (output : jsstring) :
  exists out,
    parseRagOutput output = Return out /\ Forall P (rag_sources out).
Proof.
  unfold parseRagOutput, parseRagOutput_within.
  destruct (loop_from (lines_of output)
              (S (2 * List.length (lines_of output))) initial)
    as [st [E [HF Hcur]]].
  - split; discriminate.
  - split; [constructor | discriminate].
  - cbn [i initial]. lia.
  - cbn [i collectingCode initial]. lia.
  - rewrite E. cbn [bind]. eexists. split; [reflexivity|].
    unfold finish. cbn [rag_sources].
    destruct (currentSource st) as [cs|]; [|exact HF].
    match goal with
    | |- context [if ?c then _ else _] => destruct c
    end; [|exact HF].
    apply Forall_app. split; [exact HF|].
    constructor; [|constructor]. apply P_with_code; auto.
Qed.

End RagProvenance.

(** X5.  Every source returned by parseRagOutput has the type [function]
    or [class] and, when it has line numbers, line numbers that are
    integers and not negative, or the positive infinity when their digits
    are too many for a double: never NaN, never negative, never with a
    fraction. *)
Theorem rag_sources_well_formed (output : jsstring) :
  exists out,
    parseRagOutput output = Return out
    /\ Forall (fun r => kind_ok r /\ lines_ok r) (rag_sources out).
Proof.
  apply parseRagOutput_from.
  - intros ty nm Hk. split; [now apply kind_lowercase | exact I].
  - intros r p a b [Hk Hl] Ha Hb. split; [exact Hk|].
    unfold lines_ok. simpl. split; now apply parseInt_digits.
  - intros r x H. exact H.
  - intros r d H. exact H.
  - intros r c H. exact H.
Qed.

(* ===================================================================== *)
(** * Further properties: the sections of the RAG output *)
(* ===================================================================== *)

(** Splits the result of the body of the loop into its cases. *)
Ltac body_cases :=
  unfold body, sources_line, box_line, code_line, answer_line, bind, deref;
  cbv zeta;
  repeat match goal with
         | |- context [match ?x with _ => _ end] => destruct x
         end.

Section SectionsOfRag.

Local Opaque js_match test includes trim startsWith parseFloat parseInt
  join toLowerCase remove_match str_eqb truthy Z.sub Z.add group.

(** In the sources section the answer is not touched, and the section is
    not left. *)
Lemma body_in_sources (a : jsstring) (line : jsstring) (st st' : Cli.state) :
  in_sources_with a st -> body line st = Return st' ->
  in_sources_with a (set_i st' (i st' + 1)).
Proof.
  destruct st as [i0 ans srcs cur inA inS inB cc cl cfp fpl].
  unfold in_sources_with. simpl. intros [-> ->].
  unfold body. cbv zeta. cbn [negb inSourcesSection inAnswerSection].
  rewrite !andb_false_r.
  body_cases; intros [= <-]; simpl; auto.
Qed.

(** Before the marker of the sources section, no source is collected. *)
Lemma body_before_sources (line : jsstring) (st st' : Cli.state) :
  is_sources_marker line = false ->
  before_sources st -> body line st = Return st' ->
  before_sources (set_i st' (i st' + 1)).
Proof.
  destruct st as [i0 ans srcs cur inA inS inB cc cl cfp fpl].
  unfold before_sources, is_sources_marker. simpl.
  intros Hm [-> [-> [-> [-> ->]]]].
  unfold body. cbv zeta. rewrite Hm.
  cbn [negb inSourcesSection inAnswerSection collectingCode].
  rewrite !andb_true_r.
  repeat match goal with
         | |- context [if ?c then Return _ else _] =>
             destruct c; [intros [= <-]; simpl; auto|]
         end.
  all: try (intros [= <-]); unfold answer_line; cbv zeta;
    repeat match goal with
           | |- context [if ?c then _ else _] => destruct c
           end; simpl; auto.
Qed.

End SectionsOfRag.

(** X6.  Without a line that carries [Supporting Sources], parseRagOutput
    returns no source, whatever boxes the text has. *)
Theorem no_sources_without_marker (text : jsstring) :
  Forall (fun line => is_sources_marker line = false) (lines_of text) ->
  exists out, parseRagOutput text = Return out /\ rag_sources out = [].
Proof.
  intros Hall. destruct (loop_returns text) as [st E].
  unfold parseRagOutput, parseRagOutput_within. rewrite E. cbn [bind].
  eexists. split; [reflexivity|].
  assert (HI : before_sources st).
  { apply (loop_invariant before_sources (lines_of text)) with (3 := E).
    - intros line s s' Hin. apply body_before_sources.
      rewrite Forall_forall in Hall. auto.
    - repeat split. }
  destruct HI as [_ [Hs [Hc _]]]. unfold finish. cbn [rag_sources].
  now rewrite Hc, Hs.
Qed.

(** X6 at an output with an answer panel and a source box, but no marker
    of the sources section. *)
Lemma no_sources_without_marker_witness :
  exists out,
    parseRagOutput
      (unlines [js "┌──── 💡 Answer ────┐";
                js "│ The pool is lazy. │";
                js "└───────────────────┘";
                js "┌──────── 1. FUNCTION: connect ────────┐";
                js "│ 📄 db/conn.py:10-20                   │";
                js "└──────────────────────────────────────┘"]) = Return out
    /\ rag_sources out = [].
Proof.
  apply (no_sources_without_marker
           (unlines [js "┌──── 💡 Answer ────┐";
                     js "│ The pool is lazy. │";
                     js "└───────────────────┘";
                     js "┌──────── 1. FUNCTION: connect ────────┐";
                     js "│ 📄 db/conn.py:10-20                   │";
                     js "└──────────────────────────────────────┘"])).
  vm_compute. repeat constructor.
Defined.

(** X7.  Once the sources section has begun, the loop of parseRagOutput
    leaves the answer as it is and stays in the section, whatever lines
    follow. *)
Theorem answer_is_final_in_sources (lines : list jsstring) (n : nat)
  (st st' : Cli.state) :
  inSourcesSection st = true ->
  loop n lines st = Return st' ->
  answer st' = answer st /\ inSourcesSection st' = true.
Proof.
  intros HS E.
  assert (HI : in_sources_with (answer st) st') .
  { apply (loop_invariant (in_sources_with (answer st)) lines) with (3 := E).
    - intros line s s' _. apply body_in_sources.
    - split; [exact HS | reflexivity]. }
  destruct HI as [H1 H2]. auto.
Qed.

(** X7 at two lines that would add to the answer before the section. *)
Lemma answer_is_final_in_sources_witness :
  exists st',
    loop 5 [js "│ 💡 Answer: late │"; js "│ more text │"]
         (set_inSourcesSection (set_inAnswerSection
                                  (set_answer initial (js "The pool is lazy. "))
                                  true) true) = Return st'
    /\ answer st' = js "The pool is lazy. "
    /\ inSourcesSection st' = true.
Proof.
  eexists. split; [vm_compute; reflexivity|].
  apply (answer_is_final_in_sources
           [js "│ 💡 Answer: late │"; js "│ more text │"] 5
           (set_inSourcesSection (set_inAnswerSection
                                    (set_answer initial (js "The pool is lazy. "))
                                    true) true)).
  - reflexivity.
  - vm_compute. reflexivity.
Defined.

(* ===================================================================== *)
(** * Further properties: the fields of a PR summary *)
(* ===================================================================== *)

(** A trimmed text is empty, or begins and ends with characters that are
    not white space. *)
Lemma trimStart_head (s : jsstring) :
  trimStart s = [] \/ exists c t, trimStart s = c :: t /\ is_ws c = false.
Proof.
  induction s as [|c s IH]; simpl; [now left|].
  destruct (is_ws c) eqn:E; [exact IH|].
  right. now exists c, s.
Qed.

Lemma trimStart_idempotent (s : jsstring) :
  trimStart (trimStart s) = trimStart s.
Proof.
  destruct (trimStart_head s) as [-> | [c [t [-> Hc]]]]; [reflexivity|].
  now apply trimStart_keeps.
Qed.

Lemma trim_idempotent (s : jsstring) : is_trimmed (trim s).
Proof.
  unfold is_trimmed.
  destruct (trimStart_head s) as [E | [c [t [E Hc]]]].
  - unfold trim. rewrite E. reflexivity.
  - assert (Hhead : exists t', trim s = c :: t').
    { unfold trim. rewrite E. now apply trimEnd_cons. }
    destruct Hhead as [t' Ht'].
    unfold trim at 1. rewrite Ht', trimStart_keeps by exact Hc.
    rewrite <- Ht'. unfold trim, trimEnd.
    now rewrite rev_involutive, trimStart_idempotent.
Qed.

Lemma parseInt_integer_or_nan (s : jsstring) :
  parseInt s = NaN \/ integer_or_infinite (parseInt s).
Proof.
  unfold parseInt.
  destruct (split_sign (trimStart s)) as [neg s1].
  match goal with
  | |- context [let (radix, s2) := ?x in _] => destruct x as [radix s2]
  end.
  destruct (takeWhile _ s2) as [|d ds]; [now left | right]. cbv zeta.
  destruct (round_to_double_cases (digits_value radix (d :: ds)))
    as [-> | [v [-> _]]]; destruct neg; simpl.
  - left. now exists true.
  - left. now exists false.
  - right. now exists (- v).
  - right. now exists v.
Qed.

Lemma or_zero_integer (s : jsstring) :
  integer_or_infinite (or_zero (parseInt s)).
Proof.
  destruct (parseInt_integer_or_nan s) as [-> | [[b ->] | [n ->]]].
  - right. now exists 0.
  - left. now exists b.
  - unfold or_zero, int. destruct (Qeq_bool (inject_Z n) 0); right.
    + now exists 0.
    + now exists n.
Qed.

(** A commit line begins with the bullet. *)
Lemma commit_line_head (c : jsstring) :
  test c ResultsView.commitRe = true -> exists t, c = 0x2022 :: t.
Proof.
  intros H. destruct c as [|x t].
  - rewrite test_blocked_head in H; [discriminate | reflexivity].
  - destruct (Z.eqb_spec 0x2022 x) as [<-|Hx]; [now exists t|].
    rewrite test_blocked_head in H; [discriminate|].
    cbn -[Z.eqb]. apply Z.eqb_neq in Hx. now rewrite Hx.
Qed.

Lemma commit_line_entry (line : jsstring) :
  test (trim line) ResultsView.commitRe = true -> is_commit_entry (trim line).
Proof.
  intros H. split; [exact H|]. split; [apply trim_idempotent|].
  destruct (commit_line_head _ H) as [t Ht]. exists t. split; [exact Ht|].
  unfold Render.commit_item_text, substring. now rewrite Ht.
Qed.

Lemma pr_loop_invariant (I : ResultsView.state -> Prop)
  (lines : list jsstring) :
  (forall line st st',
      I st -> ResultsView.body st line = Return st' -> I st') ->
  forall st st',
    I st -> for_each ResultsView.body lines st = Return st' -> I st'.
Proof.
  intros Hbody. induction lines as [|line lines IH]; intros st st' HI H;
    cbn [for_each] in H.
  - now injection H as <-.
  - destruct (ResultsView.body st line) as [st1| |] eqn:E; try discriminate.
    cbn [bind] in H. eauto.
Qed.

Section FieldsOfSummary.

Local Opaque js_match test includes trim startsWith parseFloat parseInt
  join toLowerCase remove_match str_eqb truthy group or_zero substring.

Lemma pr_body_keeps (line : jsstring) (st st' : ResultsView.state) :
  pr_inv st -> ResultsView.body st line = Return st' -> pr_inv st'.
Proof.
  destruct st as [[[br co cf] ch fcs os pinfo ws] sec cfc fcc].
  unfold pr_inv, counts_ok, stored_trimmed. simpl.
  intros [[Hco Hcf] [[Hbr [Hch [Hfc Hws]]] [Hce Hcur]]].
  pose proof (trim_idempotent) as Ht.
  pose proof (or_zero_integer) as Hz.
  unfold ResultsView.body. cbv zeta. simpl.
  destruct (negb (truthy (trim line))
            || test (trim line) ResultsView.separatorRe).
  { intros [= <-]. simpl. tauto. }
  destruct (startsWith (trim line) (js "Branch:")).
  { intros [= <-]. simpl. repeat split; auto. }
  destruct (startsWith (trim line) (js "Commits:")).
  { intros [= <-]. simpl. repeat split; auto. }
  destruct (startsWith (trim line) (js "Changed files:")).
  { intros [= <-]. simpl. repeat split; auto. }
  destruct (test (trim line) ResultsView.commitRe) eqn:Ec.
  { intros [= <-]. simpl. repeat split; auto.
    - apply Forall_app. split; [exact Hch | constructor; auto].
    - apply Forall_app. split; [exact Hce|].
      constructor; [now apply commit_line_entry | constructor]. }
  destruct (test (trim line) ResultsView.fileBoxRe).
  { assert (Hpush : Forall (fun fc => is_trimmed (ResultsView.filename fc)
                                       /\ is_trimmed (ResultsView.content fc))
                      (ResultsView.fileChanges
                         match cfc with
                         | Some fc =>
                             ResultsView.push_file_change
                               (ResultsView.Summary (ResultsView.Meta br co cf)
                                  ch fcs os pinfo ws) fc fcc
                         | None =>
                             ResultsView.Summary (ResultsView.Meta br co cf)
                               ch fcs os pinfo ws
                         end)).
    { destruct cfc as [fc|]; simpl; [|exact Hfc].
      apply Forall_app. split; [exact Hfc|]. constructor; [|constructor].
      simpl. split; auto. }
    destruct (js_match (trim line) ResultsView.fileNameRe) as [fm|] eqn:Em.
    - destruct (group_defined _ _ _ 1%nat Em eq_refl) as [w Hw].
      rewrite Hw. cbn [bind]. intros [= <-]. simpl.
      destruct cfc; simpl in *; repeat split; auto.
    - cbn [bind]. intros [= <-]. simpl.
      destruct cfc; simpl in *; repeat split; auto. }
  destruct (ResultsView.section_eqb sec ResultsView.sec_fileChange
            && test line ResultsView.leftBarRe).
  { match goal with
    | |- context [if ?c then _ else _] => destruct c
    end; intros [= <-]; simpl; tauto. }
  destruct (ResultsView.section_eqb sec ResultsView.sec_fileChange
            && test line ResultsView.bottomRe).
  { intros [= <-]. destruct cfc as [fc|]; simpl; repeat split; auto.
    apply Forall_app. split; [exact Hfc|]. constructor; [|constructor].
    simpl. split; auto. }
  repeat match goal with
         | |- context [if ?c then _ else _] =>
             destruct c; [intros [= <-]; simpl; repeat split; auto|]
         end.
  - apply Forall_app. split; [exact Hws | constructor; auto].
  - intros [= <-]. simpl. tauto.
Qed.

(** A line adds at most one file change, and only the top border of a box
    adds one. *)
Lemma pr_body_changes (line : jsstring) (st st' : ResultsView.state) :
  ResultsView.body st line = Return st' ->
  (changes_seen st'
   <= changes_seen st + if is_file_top line then 1 else 0)%nat.
Proof.
  destruct st as [[m ch fcs os pinfo ws] sec cfc fcc].
  unfold changes_seen, is_file_top, ResultsView.body. cbv zeta. simpl.
  destruct (negb (truthy (trim line))
            || test (trim line) ResultsView.separatorRe).
  { intros [= <-]. simpl. lia. }
  destruct (startsWith (trim line) (js "Branch:")).
  { intros [= <-]. simpl. lia. }
  destruct (startsWith (trim line) (js "Commits:")).
  { intros [= <-]. simpl. lia. }
  destruct (startsWith (trim line) (js "Changed files:")).
  { intros [= <-]. simpl. lia. }
  destruct (test (trim line) ResultsView.commitRe).
  { intros [= <-]. simpl. lia. }
  destruct (test (trim line) ResultsView.fileBoxRe).
  { destruct (js_match (trim line) ResultsView.fileNameRe) as [fm|] eqn:Em.
    - destruct (group_defined _ _ _ 1%nat Em eq_refl) as [w Hw].
      rewrite Hw. cbn [bind]. intros [= <-]. simpl.
      destruct cfc; simpl; rewrite ?length_app; simpl; lia.
    - cbn [bind]. intros [= <-]. simpl.
      destruct cfc; simpl; rewrite ?length_app; simpl; lia. }
  destruct (ResultsView.section_eqb sec ResultsView.sec_fileChange
            && test line ResultsView.leftBarRe).
  { match goal with
    | |- context [if ?c then _ else _] => destruct c
    end; intros [= <-]; simpl; lia. }
  destruct (ResultsView.section_eqb sec ResultsView.sec_fileChange
            && test line ResultsView.bottomRe).
  { intros [= <-]. destruct cfc as [fc|]; simpl; rewrite ?length_app; simpl;
      lia. }
  repeat match goal with
         | |- context [if ?c then _ else _] =>
             destruct c; [intros [= <-]; simpl; lia|]
         end.
  intros [= <-]. simpl. lia.
Qed.

End FieldsOfSummary.

Lemma parsePRSummary_keeps (text : jsstring) :
  exists st,
    for_each ResultsView.body (split 10 text) ResultsView.initial = Return st
    /\ ResultsView._parsePRSummary text = Return (ResultsView.finish st)
    /\ pr_inv st.
Proof.
  destruct (pr_loop_returns (split 10 text) ResultsView.initial) as [st E].
  exists st. split; [exact E|]. split.
  - unfold ResultsView._parsePRSummary. now rewrite E.
  - apply (pr_loop_invariant pr_inv (split 10 text)) with (3 := E).
    + intros line s s'. apply pr_body_keeps.
    + repeat split; try (right; now exists 0); constructor.
Qed.

(** X8.  The counts of the metadata of a PR summary are never NaN,
    whatever the text: each is an integer, or an infinity when its digits
    are too many for a double. *)
Theorem summary_counts_are_never_nan (text : jsstring) :
  exists doc,
    ResultsView._parsePRSummary text = Return doc /\ counts_ok doc.
Proof.
  destruct (parsePRSummary_keeps text) as [st [_ [E [H _]]]].
  eexists. split; [exact E|]. destruct st as [[m ch fcs os pinfo ws] ? ? ?].
  exact H.
Qed.

(** X9.  Every entry of the commit history is a trimmed line that matches
    the commit pattern and begins with the bullet, so that the text shown
    for it by the summary card, [commit.substring(1).trim()], is the entry
    without its bullet. *)
Theorem commit_history_entries (text : jsstring) :
  exists doc,
    ResultsView._parsePRSummary text = Return doc
    /\ Forall is_commit_entry (ResultsView.commitHistory doc).
Proof.
  destruct (parsePRSummary_keeps text) as [st [_ [E [_ [_ [H _]]]]]].
  eexists. split; [exact E|]. destruct st as [[m ch fcs os pinfo ws] ? ? ?].
  exact H.
Qed.

(** X10.  Every text of a PR summary is stored without white space at its
    ends: the branch, the commit lines, the names and the contents of the
    file changes, the warnings, the overall summary and the pipeline
    log. *)
Theorem summary_texts_are_trimmed (text : jsstring) :
  exists doc,
    ResultsView._parsePRSummary text = Return doc
    /\ stored_trimmed doc
    /\ is_trimmed (ResultsView.overallSummary doc)
    /\ is_trimmed (ResultsView.pipelineInfo doc).
Proof.
  destruct (parsePRSummary_keeps text) as [st [_ [E [_ [H _]]]]].
  eexists. split; [exact E|]. destruct st as [[m ch fcs os pinfo ws] ? ? ?].
  split; [exact H|]. split; apply trim_idempotent.
Qed.

Lemma pr_loop_changes (lines : list jsstring) :
  forall st st',
    for_each ResultsView.body lines st = Return st' ->
    (changes_seen st'
     <= changes_seen st + List.length (filter is_file_top lines))%nat.
Proof.
  induction lines as [|line lines IH]; intros st st' H;
    cbn [for_each filter] in *.
  - injection H as <-. lia.
  - destruct (ResultsView.body st line) as [st1| |] eqn:E; try discriminate.
    cbn [bind] in H. apply IH in H. apply pr_body_changes in E.
    destruct (is_file_top line); simpl; lia.
Qed.

(** X11.  A PR summary has at most as many file changes as the text has
    top borders of file-change boxes. *)
Theorem file_changes_bounded (text : jsstring) :
  exists doc,
    ResultsView._parsePRSummary text = Return doc
    /\ (List.length (ResultsView.fileChanges doc)
        <= List.length (filter is_file_top (split 10 text)))%nat.
Proof.
  destruct (parsePRSummary_keeps text) as [st [Eloop [E _]]].
  eexists. split; [exact E|].
  apply pr_loop_changes in Eloop.
  destruct st as [[m ch fcs os pinfo ws] ? ? ?].
  unfold changes_seen in Eloop. simpl in *. lia.
Qed.

(* ===================================================================== *)
(** * Further properties: the sources that are shown *)
(* ===================================================================== *)

Lemma rag_similarity_not_negative (text : jsstring) :
  exists out,
    parseRagOutput text = Return out
    /\ Forall similarity_not_negative (rag_sources out).
Proof.
  destruct (parseRagOutput_keeps similarity_not_negative)
    with (output := text) as [out [E [HF _]]];
    try (intros; unfold similarity_not_negative in *; simpl; auto; fail).
  - intros. unfold similarity_not_negative. simpl.
    now apply parseFloat_not_negative.
  - now exists out.
Qed.

(** X12.  The filter of the results view, applied to the sources that
    parseRagOutput returns, removes the sources without a similarity and
    those whose similarity is NaN, and no other: with the threshold 0.0 no
    source is removed for its score. *)
Theorem relevance_filter_keeps_scored_sources (text : jsstring) :
  exists out,
    parseRagOutput text = Return out
    /\ Render.relevantSources (rag_sources out)
       = filter Render.has_numeric_similarity (rag_sources out).
Proof.
  destruct (rag_similarity_not_negative text) as [out [E HF]].
  exists out. split; [exact E|].
  unfold Render.relevantSources. apply filter_ext_in.
  intros r Hr. rewrite Forall_forall in HF. specialize (HF r Hr).
  unfold similarity_not_negative in HF.
  unfold Render.is_relevant, Render.has_numeric_similarity.
  destruct (similarity r) as [[| neg | q]|]; try reflexivity.
  - simpl in HF. now subst neg.
  - simpl in HF. unfold Render.RELEVANCE_THRESHOLD.
    apply Qle_bool_iff. exact HF.
Qed.

(* ===================================================================== *)
(** * Further properties: the blocks of the search output *)
(* ===================================================================== *)

Lemma split_not_nil (sep : Z) (s : jsstring) : split sep s <> [].
Proof.
  destruct s as [|c s]; simpl; [discriminate|].
  destruct (c =? sep); [discriminate|].
  destruct (split sep s); discriminate.
Qed.

Lemma split_app (sep : Z) (a b : jsstring) :
  split sep (a ++ sep :: b) = split sep a ++ split sep b.
Proof.
  induction a as [|c a IH]; simpl.
  - now rewrite Z.eqb_refl.
  - destruct (c =? sep); [now rewrite IH|].
    rewrite IH. pose proof (split_not_nil sep a) as Hn.
    destruct (split sep a); [contradiction | reflexivity].
Qed.

Lemma lines_of_app (a b : jsstring) :
  lines_of (a ++ 10 :: b) = lines_of a ++ lines_of b.
Proof.
  unfold lines_of, remove_cr. rewrite filter_app. simpl.
  apply split_app.
Qed.

Lemma for_each_app {S : Type} (body : S -> jsstring -> completion S)
  (l1 l2 : list jsstring) :
  forall st,
    for_each body (l1 ++ l2) st
    = (st' <- for_each body l1 st ;; for_each body l2 st').
Proof.
  induction l1 as [|x l1 IH]; intros st; simpl; [reflexivity|].
  destruct (body st x); simpl; auto.
Qed.

(** The records closed before a line pass through it unchanged. *)
Lemma search_body_prefix (rs rs' : list record) (cur cur' : option record)
  (line : jsstring) :
  search_body (rs, cur) line = Return (rs', cur') ->
  forall pre, search_body (pre ++ rs, cur) line = Return (pre ++ rs', cur').
Proof.
  unfold search_body.
  destruct (js_match line headerRe) as [hm|].
  - destruct (group hm 3); cbn [bind]; try discriminate.
    destruct (group hm 2); cbn [bind]; try discriminate.
    intros [= <- <-] pre. destruct cur; now rewrite <- ?app_assoc.
  - destruct cur as [c|]; [|now intros [= <- <-]].
    repeat match goal with
           | |- context [match js_match ?l ?r with _ => _ end] =>
               destruct (js_match l r)
           | |- context [bind (group ?m ?n) _] =>
               destruct (group m n); cbn [bind]; try discriminate
           end; now intros [= <- <-].
Qed.

Lemma search_loop_prefix (lines : list jsstring) :
  forall rs rs' cur cur',
    for_each search_body lines (rs, cur) = Return (rs', cur') ->
    forall pre,
      for_each search_body lines (pre ++ rs, cur) = Return (pre ++ rs', cur').
Proof.
  induction lines as [|line lines IH]; intros rs rs' cur cur' H pre;
    cbn [for_each] in *.
  - injection H as <- <-. reflexivity.
  - destruct (search_body (rs, cur) line) as [[rs1 cur1]| |] eqn:E;
      try discriminate.
    cbn [bind] in H. rewrite (search_body_prefix _ _ _ _ _ E). cbn [bind].
    now apply IH.
Qed.

Lemma search_loop_returns (lines : list jsstring) :
  forall st, exists st', for_each search_body lines st = Return st'.
Proof.
  induction lines as [|line lines IH]; intros [rs cur]; cbn [for_each].
  - eauto.
  - destruct (search_body_cases (fun _ => True) (fun _ _ => I)
                (fun _ _ _ _ _ => I) (fun _ _ _ _ => I) (fun _ _ _ => I)
                rs cur line) as [rs1 [cur1 [E _]]].
    rewrite E. cbn [bind]. apply IH.
Qed.

(** The records of a search output. *)
Lemma search_loop_banner (lines : list jsstring) :
  Forall (fun l => test l headerRe = false) lines ->
  for_each search_body lines ([], None) = Return ([], None).
Proof.
  induction 1 as [|line lines Hl _ IH]; cbn [for_each]; [reflexivity|].
  unfold search_body at 1. unfold test in Hl.
  destruct (js_match line headerRe); [discriminate|]. cbn [bind]. exact IH.
Qed.

(** The result of parseSearchOutput from the state of its loop. *)
Lemma parseSearchOutput_of_loop (output : jsstring) (st : search_state) :
  for_each search_body (lines_of output) ([], None) = Return st ->
  parseSearchOutput output = Return (fst st ++ pending (snd st)).
Proof.
  intros E. unfold parseSearchOutput. rewrite E. cbn [bind].
  destruct st as [rs [c|]]; simpl; now rewrite ?app_nil_r.
Qed.

(** X13.  The search output is read block by block: when the text [b]
    begins with a header line, the records of [a], a line break and [b]
    are the records of [a] followed by the records of [b]. *)
Theorem search_blocks_are_independent (a b : jsstring) :
  test (hd [] (lines_of b)) headerRe = true ->
  exists ra rb,
    parseSearchOutput a = Return ra
    /\ parseSearchOutput b = Return rb
    /\ parseSearchOutput (a ++ 10 :: b) = Return (ra ++ rb).
Proof.
  intros Hh.
  destruct (search_loop_returns (lines_of a) ([], None)) as [[ra0 ca] Ea].
  destruct (search_loop_returns (lines_of b) ([], None)) as [[rb0 cb] Eb].
  exists (ra0 ++ pending ca), (rb0 ++ pending cb).
  split; [apply (parseSearchOutput_of_loop _ _ Ea)|].
  split; [apply (parseSearchOutput_of_loop _ _ Eb)|].
  assert (E : for_each search_body (lines_of (a ++ 10 :: b)) ([], None)
              = Return ((ra0 ++ pending ca) ++ rb0, cb)).
  { rewrite lines_of_app, for_each_app, Ea. cbn [bind].
    destruct (lines_of b) as [|h ls]; [discriminate Hh|].
    cbn [hd] in Hh. cbn [for_each] in Eb |- *.
    unfold search_body at 1. unfold search_body at 1 in Eb.
    unfold test in Hh.
    destruct (js_match h headerRe) as [hm|]; [|discriminate].
    destruct (group hm 3) as [nm| |]; cbn [bind] in *; try discriminate.
    destruct (group hm 2) as [ty| |]; cbn [bind] in *; try discriminate.
    pose proof (search_loop_prefix _ _ _ _ _ Eb (ra0 ++ pending ca)) as Eb'.
    rewrite app_nil_r in Eb'.
    destruct ca; simpl in *; rewrite ?app_nil_r in *; exact Eb'. }
  rewrite (parseSearchOutput_of_loop _ _ E). simpl.
  now rewrite app_assoc.
Qed.

Lemma search_blocks_are_independent_witness :
  test (hd [] (lines_of (js "2. CLASS: Router"))) headerRe = true
  /\ exists ra rb,
       parseSearchOutput (js "1. FUNCTION: get_user") = Return ra
       /\ parseSearchOutput (js "2. CLASS: Router") = Return rb
       /\ parseSearchOutput
            (js "1. FUNCTION: get_user" ++ 10 :: js "2. CLASS: Router")
          = Return (ra ++ rb).
Proof.
  split; [reflexivity|].
  apply (search_blocks_are_independent (js "1. FUNCTION: get_user")
           (js "2. CLASS: Router")).
  reflexivity.
Defined.

(** X14.  What comes before the first header line is not read: when no
    line of [a] is a header line, the records of [a], a line break and
    [b] are those of [b]. *)
Theorem search_banner_is_ignored (a b : jsstring) :
  Forall (fun l => test l headerRe = false) (lines_of a) ->
  parseSearchOutput (a ++ 10 :: b) = parseSearchOutput b.
Proof.
  intros Ha. unfold parseSearchOutput.
  rewrite lines_of_app, for_each_app, (search_loop_banner _ Ha).
  reflexivity.
Qed.

Lemma search_banner_is_ignored_witness :
  Forall (fun l => test l headerRe = false)
    (lines_of (js "Found 1 result for: user lookup"))
  /\ parseSearchOutput
       (js "Found 1 result for: user lookup" ++ 10
          :: js "1. FUNCTION: get_user")
     = parseSearchOutput (js "1. FUNCTION: get_user").
Proof.
  assert (H : Forall (fun l => test l headerRe = false)
                (lines_of (js "Found 1 result for: user lookup"))).
  { repeat constructor. }
  split; [exact H|].
  exact (search_banner_is_ignored _ _ H).
Defined.

(* ===================================================================== *)
(** * Further properties: the message of a failed search *)
(* ===================================================================== *)

(** A search that succeeds, as a run of the matcher. *)
Lemma search_from_run (r : regex) (s : jsstring) :
  forall i m,
    search_from r i s = Some m ->
    exists u v res,
      s = u ++ v
      /\ m_start m = (i + List.length u)%nat
      /\ rmatch r {| pos := m_start m; rest := v; caps := [] |} Some
         = Some res
      /\ m_end m = pos res.
Proof.
  induction s as [|c s IH]; intros i m H; simpl in H.
  - destruct (rmatch r _ Some) as [st|] eqn:E; [|discriminate].
    injection H as <-. exists [], [], st. simpl. rewrite Nat.add_0_r. auto.
  - destruct (rmatch r _ Some) as [st|] eqn:E.
    + injection H as <-. exists [], (c :: s), st. simpl.
      rewrite Nat.add_0_r. auto.
    + apply IH in H. destruct H as [u [v [res [Es [Ei H]]]]].
      exists (c :: u), v, res. simpl. rewrite Es, Ei.
      split; [reflexivity|]. split; [lia|]. rewrite <- Ei. exact H.
Qed.

(** The last pattern of a sequence runs from where the others stopped. *)
Lemma rmatch_seq (rs : list regex) (last : regex) :
  forall st k res,
    rmatch (seq (rs ++ [last])) st k = Some res ->
    exists st1, Matches (seq rs) st st1 /\ rmatch last st1 k = Some res.
Proof.
  induction rs as [|r rs IH]; intros st k res H.
  - exists st. split; [constructor | exact H].
  - destruct rs as [|r' rs].
    + change (seq ([r] ++ [last])) with (Seq r last) in H.
      cbn [rmatch] in H. apply rmatch_sound in H.
      destruct H as [st1 [Hm H]]. exists st1. auto.
    + change (seq ((r :: r' :: rs) ++ [last]))
        with (Seq r (seq ((r' :: rs) ++ [last]))) in H.
      cbn [rmatch] in H. apply rmatch_sound in H.
      destruct H as [st1 [Hm H]]. apply IH in H.
      destruct H as [st2 [Hm2 H]]. exists st2. split; [|exact H].
      change (seq (r :: r' :: rs)) with (Seq r (seq (r' :: rs))).
      econstructor; eauto.
Qed.

(** A greedy [p*] at the end of a pattern takes every character of the
    class that follows. *)
Lemma star_char_greedy (p : Z -> bool) :
  forall n st,
    (List.length (rest st) < n)%nat ->
    exists w res,
      iterate true (rmatch (Char p)) Some n st = Some res
      /\ rest st = w ++ rest res
      /\ forallb p w = true
      /\ pos res = (pos st + List.length w)%nat
      /\ match rest res with [] => True | c :: _ => p c = false end.
Proof.
  induction n as [|n IH]; intros st Hn; [lia|].
  cbn [iterate].
  change (rmatch (Char p) st)
    with (fun k : mstate -> option mstate =>
            match rest st with
            | c :: s' => if p c then k (advance st s') else None
            | [] => None
            end).
  cbv beta.
  destruct (rest st) as [|c s'] eqn:Er.
  - exists [], st. rewrite Er. simpl. repeat split; auto; lia.
  - destruct (p c) eqn:Ep.
    + assert (Hlt : (pos st <? pos (advance st s'))%nat = true).
      { apply Nat.ltb_lt. simpl. lia. }
      rewrite Hlt.
      destruct (IH (advance st s')) as [w [res [E [Ew [Pw [Ps Hend]]]]]].
      { simpl in *. lia. }
      rewrite E. exists (c :: w), res. simpl in *. rewrite Ep, Pw, Ew.
      repeat split; auto; lia.
    + exists [], st. rewrite Er. simpl. repeat split; auto; lia.
Qed.

Lemma rmatch_star_char (p : Z -> bool) (st : mstate)
  (k : mstate -> option mstate) :
  rmatch (Star true (Char p)) st k
  = iterate true (rmatch (Char p)) k (S (List.length (rest st))) st.
Proof. reflexivity. Qed.

Lemma Matches_seq_inv (r1 r2 : regex) (st st' : mstate) :
  Matches (Seq r1 r2) st st' ->
  exists st1, Matches r1 st st1 /\ Matches r2 st1 st'.
Proof. intros H. inversion H; subst. eauto. Qed.

Lemma Matches_char_inv (p : Z -> bool) (st st' : mstate) :
  Matches (Char p) st st' ->
  exists c s', rest st = c :: s' /\ p c = true /\ st' = advance st s'.
Proof. intros H. inversion H; subst. eauto. Qed.

Lemma startsWith_prefix (p s : jsstring) : startsWith (p ++ s) p = true.
Proof.
  induction p as [|c p IH]; simpl; [reflexivity|].
  now rewrite Z.eqb_refl, IH.
Qed.

(** The text of a match that begins after [u] and takes [x]. *)
Lemma matched_at (u x post : jsstring) (m : match_result) :
  m_start m = List.length u ->
  m_end m = (List.length u + List.length x)%nat ->
  Commands.matched (u ++ x ++ post) m = x.
Proof.
  intros Hs He. unfold Commands.matched. rewrite Hs, He.
  replace (List.length u + List.length x - List.length u)%nat
    with (List.length x) by lia.
  rewrite skipn_app, skipn_all, Nat.sub_diag. simpl.
  rewrite firstn_app, firstn_all, Nat.sub_diag. simpl.
  now rewrite app_nil_r.
Qed.

(** What a pattern that takes a character matches is a piece of the text
    that is not empty. *)
Lemma matched_within (e : jsstring) (r : regex) (m : match_result) :
  js_match e r = Some m -> consumes r = true ->
  exists pre post,
    e = pre ++ Commands.matched e m ++ post /\ Commands.matched e m <> [].
Proof.
  intros H Hc. apply js_match_spec in H.
  destruct H as [u [v [st' [Ee [Hs [Hm [He _]]]]]]].
  destruct (Matches_word _ _ _ Hm) as [w [Ew [Pw _]]].
  destruct (Matches_progress _ _ _ Hm) as [_ Hlt]. specialize (Hlt Hc).
  simpl in Ew, Pw, Hlt.
  assert (E : Commands.matched e m = w).
  { rewrite Ee, Ew. apply matched_at; [exact Hs | lia]. }
  exists u, (rest st'). rewrite E. split; [now rewrite Ee, Ew|].
  intros ->. simpl in Pw. lia.
Qed.

Lemma errorOutput_truthy (result : Commands.CLIResult) :
  Commands.errorOutput result <> [].
Proof.
  unfold Commands.errorOutput, Commands.or_else.
  destruct (Commands.stderr result); simpl; [|discriminate].
  destruct (Commands.stdout result); simpl; [|discriminate].
  destruct (Commands.error result) as [[|c s]|]; simpl; discriminate.
Qed.

(** X15.  The detail of the message of a failed HyDE search is never
    empty and is a piece of what the CLI printed (of its error stream, or
    else its output, or else the message of the spawn error, or else
    [Unknown error]). *)
Theorem hyde_error_is_quoted (result : Commands.CLIResult) :
  exists pre post,
    Commands.errorOutput result = pre ++ Commands.errorMsg result ++ post
    /\ Commands.errorMsg result <> []
    /\ Commands.hyde_error result
       = js "HyDE search error: " ++ Commands.errorMsg result.
Proof.
  unfold Commands.hyde_error, Commands.errorMsg. cbv zeta.
  destruct (js_match (Commands.errorOutput result) Commands.tracebackRe)
    as [m|] eqn:Et.
  { destruct (matched_within _ _ _ Et eq_refl) as [pre [post [E N]]].
    exists pre, post. auto. }
  destruct (js_match (Commands.errorOutput result) Commands.errorRe)
    as [m|] eqn:Ee.
  { destruct (matched_within _ _ _ Ee eq_refl) as [pre [post [E N]]].
    exists pre, post. auto. }
  exists [], []. rewrite app_nil_r. simpl.
  split; [reflexivity|]. split; [apply errorOutput_truthy | reflexivity].
Qed.

(** A traceback is matched from its first line to the end of the text. *)
Lemma traceback_match (e : jsstring) (m : match_result) :
  js_match e Commands.tracebackRe = Some m ->
  exists pre,
    e = pre ++ Commands.matched e m
    /\ startsWith (Commands.matched e m)
                  (js "Traceback (most recent call last):") = true.
Proof.
  intros H. apply search_from_run in H.
  destruct H as [u [v [res [Ee [Hs [Hr He]]]]]]. simpl in Hs.
  change Commands.tracebackRe
    with (seq ([lit (js "Traceback (most recent call last):");
                Commands.any] ++ [Star true Commands.any])) in Hr.
  apply rmatch_seq in Hr. destruct Hr as [st1 [Hm Hr]].
  change (seq [lit (js "Traceback (most recent call last):"); Commands.any])
    with (Seq (lit (js "Traceback (most recent call last):")) Commands.any)
    in Hm.
  apply Matches_seq_inv in Hm. destruct Hm as [sta [Hl Ha]].
  destruct (Matches_word _ _ _ Hl) as [w [Ew [Pw _]]].
  pose proof (Matches_lit _ _ _ Hl) as El.
  rewrite Pw, Ew in El.
  replace (pos {| pos := m_start m; rest := v; caps := [] |}
           + List.length w
           - pos {| pos := m_start m; rest := v; caps := [] |})%nat
    with (List.length w) in El by lia.
  rewrite firstn_app, firstn_all, Nat.sub_diag in El. simpl in El.
  rewrite app_nil_r in El. simpl in Ew, Pw.
  apply Matches_char_inv in Ha. destruct Ha as [c [s' [Ec [_ ->]]]].
  destruct (star_char_greedy (fun _ => true)
              (S (List.length (rest (advance sta s')))) (advance sta s'))
    as [w2 [res' [E2 [Ew2 [_ [Pw2 Hend]]]]]]; [lia|].
  unfold Commands.any in Hr. rewrite rmatch_star_char, E2 in Hr.
  injection Hr as <-.
  destruct (rest res') as [|x xs] eqn:Erest; [|discriminate].
  rewrite app_nil_r in Ew2. simpl in Ew2, Pw2.
  assert (Ev : v = w ++ c :: w2).
  { rewrite Ew, Ec, Ew2. reflexivity. }
  assert (E : Commands.matched e m = v).
  { rewrite Ee. rewrite <- (app_nil_r v) at 1.
    apply matched_at; [exact Hs|]. rewrite He, Pw2, Pw, Hs, Ev.
    rewrite length_app. simpl. lia. }
  exists u. rewrite E. split; [exact Ee|].
  rewrite Ev, El. apply startsWith_prefix.
Qed.

(** X16.  When the output of a failed HyDE search has a traceback, the
    detail of the message is the output from the first line of the
    traceback to its end. *)
Theorem hyde_error_keeps_traceback (result : Commands.CLIResult) :
  test (Commands.errorOutput result) Commands.tracebackRe = true ->
  exists pre,
    Commands.errorOutput result = pre ++ Commands.errorMsg result
    /\ startsWith (Commands.errorMsg result)
                  (js "Traceback (most recent call last):") = true.
Proof.
  unfold test, Commands.errorMsg. cbv zeta.
  destruct (js_match (Commands.errorOutput result) Commands.tracebackRe)
    as [m|] eqn:Et; [|discriminate].
  intros _. exact (traceback_match _ _ Et).
Qed.

Lemma hyde_error_keeps_traceback_witness :
  test (Commands.errorOutput
          {| Commands.success := false;
             Commands.stdout := [];
             Commands.stderr :=
               js "Loading index" ++ 10
                 :: js "Traceback (most recent call last):" ++ 10
                 :: js "KeyError: 'db'";
             Commands.error := None |})
       Commands.tracebackRe = true
  /\ exists pre,
       Commands.errorOutput
         {| Commands.success := false;
            Commands.stdout := [];
            Commands.stderr :=
              js "Loading index" ++ 10
                :: js "Traceback (most recent call last):" ++ 10
                :: js "KeyError: 'db'";
            Commands.error := None |}
       = pre ++ Commands.errorMsg
                  {| Commands.success := false;
                     Commands.stdout := [];
                     Commands.stderr :=
                       js "Loading index" ++ 10
                         :: js "Traceback (most recent call last):" ++ 10
                         :: js "KeyError: 'db'";
                     Commands.error := None |}
       /\ startsWith
            (Commands.errorMsg
               {| Commands.success := false;
                  Commands.stdout := [];
                  Commands.stderr :=
                    js "Loading index" ++ 10
                      :: js "Traceback (most recent call last):" ++ 10
                      :: js "KeyError: 'db'";
                  Commands.error := None |})
            (js "Traceback (most recent call last):") = true.
Proof.
  split; [vm_compute; reflexivity|].
  apply hyde_error_keeps_traceback. vm_compute. reflexivity.
Defined.

Lemma no_line_terminator (w : jsstring) :
  forallb (fun c => negb (Commands.is_line_terminator c)) w = true ->
  existsb Commands.is_line_terminator w = false.
Proof.
  induction w as [|c w IH]; simpl; [reflexivity|].
  rewrite andb_true_iff. intros [Hc Hw].
  apply negb_true_iff in Hc. now rewrite Hc, IH.
Qed.

Lemma letter_cases (c upper lower : Z) :
  existsb (Z.eqb c) [upper; lower] = true -> c = upper \/ c = lower.
Proof.
  simpl. rewrite orb_false_r, orb_true_iff, !Z.eqb_eq. tauto.
Qed.

(** The line of an error is matched from the word to the end of its
    line. *)
Lemma error_line_match (e : jsstring) (m : match_result) :
  js_match e Commands.errorRe = Some m ->
  exists pre post,
    e = pre ++ Commands.matched e m ++ post
    /\ toLowerCase (firstn 5 (Commands.matched e m)) = js "error"
    /\ existsb Commands.is_line_terminator (Commands.matched e m) = false
    /\ match post with
       | [] => True
       | c :: _ => Commands.is_line_terminator c = true
       end.
Proof.
  intros H. apply search_from_run in H.
  destruct H as [u [v [res [Ee [Hs [Hr He]]]]]]. simpl in Hs.
  change Commands.errorRe
    with (seq ([one_of (js "Ee"); one_of (js "Rr"); one_of (js "Rr");
                one_of (js "Oo"); one_of (js "Rr"); Star false dot;
                lit (js ":")] ++ [Star true dot])) in Hr.
  apply rmatch_seq in Hr. destruct Hr as [st1 [Hm Hr]].
  change (seq [one_of (js "Ee"); one_of (js "Rr"); one_of (js "Rr");
               one_of (js "Oo"); one_of (js "Rr"); Star false dot;
               lit (js ":")])
    with (Seq (one_of (js "Ee"))
            (Seq (one_of (js "Rr"))
               (Seq (one_of (js "Rr"))
                  (Seq (one_of (js "Oo"))
                     (Seq (one_of (js "Rr"))
                        (Seq (Star false dot) (lit (js ":")))))))) in Hm.
  apply Matches_seq_inv in Hm. destruct Hm as [s1 [H1 Hm]].
  apply Matches_seq_inv in Hm. destruct Hm as [s2 [H2 Hm]].
  apply Matches_seq_inv in Hm. destruct Hm as [s3 [H3 Hm]].
  apply Matches_seq_inv in Hm. destruct Hm as [s4 [H4 Hm]].
  apply Matches_seq_inv in Hm. destruct Hm as [s5 [H5 Hm]].
  apply Matches_char_inv in H1. destruct H1 as [c1 [t1 [E1 [P1 ->]]]].
  apply Matches_char_inv in H2. destruct H2 as [c2 [t2 [E2 [P2 ->]]]].
  apply Matches_char_inv in H3. destruct H3 as [c3 [t3 [E3 [P3 ->]]]].
  apply Matches_char_inv in H4. destruct H4 as [c4 [t4 [E4 [P4 ->]]]].
  apply Matches_char_inv in H5. destruct H5 as [c5 [t5 [E5 [P5 ->]]]].
  simpl in E1, E2, E3, E4, E5. subst v t1 t2 t3 t4.
  destruct (Matches_word _ _ _ Hm) as [w [Ew [Pw Cw]]].
  simpl in Ew, Pw. subst t5.
  assert (Fw : forallb (fun c => negb (Commands.is_line_terminator c)) w
               = true).
  { apply Cw. split.
    - intros c Hc. exact Hc.
    - change (forall c, (58 =? c) = true ->
                        negb (Commands.is_line_terminator c) = true).
      intros c Hc. apply Z.eqb_eq in Hc. subst c. reflexivity. }
  unfold dot in Hr. rewrite rmatch_star_char in Hr.
  destruct (star_char_greedy
              (fun c => negb ((c =? 10) || (c =? 13) || (c =? 8232)
                              || (c =? 8233)))
              (S (List.length (rest st1))) st1)
    as [w2 [res' [R2 [Ew2 [Fw2 [Pw2 Hend]]]]]]; [lia|].
  rewrite R2 in Hr. injection Hr as <-.
  assert (E : Commands.matched e m
              = c1 :: c2 :: c3 :: c4 :: c5 :: w ++ w2).
  { rewrite Ee, Ew2.
    change (u ++ c1 :: c2 :: c3 :: c4 :: c5 :: w ++ w2 ++ rest res')
      with (u ++ (c1 :: c2 :: c3 :: c4 :: c5 :: w ++ w2 ++ rest res')).
    replace (c1 :: c2 :: c3 :: c4 :: c5 :: w ++ w2 ++ rest res')
      with ((c1 :: c2 :: c3 :: c4 :: c5 :: w ++ w2) ++ rest res')
      by (simpl; now rewrite <- app_assoc).
    apply matched_at; [exact Hs|]. rewrite He, Pw2, Pw, Hs.
    simpl. rewrite length_app. lia. }
  exists u, (rest res'). rewrite E.
  apply letter_cases in P1, P2, P3, P4, P5.
  split; [|split; [|split]].
  - rewrite Ee, Ew2. simpl. now rewrite <- app_assoc.
  - cbn [firstn].
    destruct P1 as [-> | ->], P2 as [-> | ->], P3 as [-> | ->],
      P4 as [-> | ->], P5 as [-> | ->]; reflexivity.
  - cbn [existsb]. rewrite existsb_app.
    rewrite (no_line_terminator _ Fw), (no_line_terminator w2 Fw2).
    destruct P1 as [-> | ->], P2 as [-> | ->], P3 as [-> | ->],
      P4 as [-> | ->], P5 as [-> | ->]; reflexivity.
  - destruct (rest res') as [|c t]; [exact I|].
    apply negb_false_iff in Hend. exact Hend.
Qed.

(** X17.  When the output of a failed HyDE search has no traceback and
    has the word [Error], in any case, followed by a colon on its line, the
    detail of the message is the first such line, from the word to the end
    of the line. *)
Theorem hyde_error_keeps_error_line (result : Commands.CLIResult) :
  test (Commands.errorOutput result) Commands.tracebackRe = false ->
  test (Commands.errorOutput result) Commands.errorRe = true ->
  exists pre post,
    Commands.errorOutput result = pre ++ Commands.errorMsg result ++ post
    /\ toLowerCase (firstn 5 (Commands.errorMsg result)) = js "error"
    /\ existsb Commands.is_line_terminator (Commands.errorMsg result)
       = false
    /\ match post with
       | [] => True
       | c :: _ => Commands.is_line_terminator c = true
       end.
Proof.
  unfold test, Commands.errorMsg. cbv zeta.
  destruct (js_match (Commands.errorOutput result) Commands.tracebackRe)
    as [m|] eqn:Et; [discriminate|].
  destruct (js_match (Commands.errorOutput result) Commands.errorRe)
    as [m|] eqn:Er; [|discriminate].
  intros _ _. exact (error_line_match _ _ Er).
Qed.

Lemma hyde_error_keeps_error_line_witness :
  test (Commands.errorOutput
          {| Commands.success := false;
             Commands.stdout := [];
             Commands.stderr :=
               js "Connecting" ++ 10
                 :: js "Fatal error in query: no collection" ++ 10
                 :: js "Stopped";
             Commands.error := None |})
       Commands.tracebackRe = false
  /\ Commands.errorMsg
       {| Commands.success := false;
          Commands.stdout := [];
          Commands.stderr :=
            js "Connecting" ++ 10
              :: js "Fatal error in query: no collection" ++ 10
              :: js "Stopped";
          Commands.error := None |}
     = js "error in query: no collection"
  /\ exists pre post,
       Commands.errorOutput
         {| Commands.success := false;
            Commands.stdout := [];
            Commands.stderr :=
              js "Connecting" ++ 10
                :: js "Fatal error in query: no collection" ++ 10
                :: js "Stopped";
            Commands.error := None |}
       = pre ++ Commands.errorMsg
                  {| Commands.success := false;
                     Commands.stdout := [];
                     Commands.stderr :=
                       js "Connecting" ++ 10
                         :: js "Fatal error in query: no collection" ++ 10
                         :: js "Stopped";
                     Commands.error := None |} ++ post
       /\ toLowerCase
            (firstn 5
               (Commands.errorMsg
                  {| Commands.success := false;
                     Commands.stdout := [];
                     Commands.stderr :=
                       js "Connecting" ++ 10
                         :: js "Fatal error in query: no collection" ++ 10
                         :: js "Stopped";
                     Commands.error := None |})) = js "error"
       /\ existsb Commands.is_line_terminator
            (Commands.errorMsg
               {| Commands.success := false;
                  Commands.stdout := [];
                  Commands.stderr :=
                    js "Connecting" ++ 10
                      :: js "Fatal error in query: no collection" ++ 10
                      :: js "Stopped";
                  Commands.error := None |}) = false
       /\ match post with
          | [] => True
          | c :: _ => Commands.is_line_terminator c = true
          end.
Proof.
  split; [vm_compute; reflexivity|]. split; [vm_compute; reflexivity|].
  apply hyde_error_keeps_error_line; vm_compute; reflexivity.
Defined.

(* ===================================================================== *)
(** * Further properties: the API key *)
(* ===================================================================== *)

Lemma usable_text (k : option jsstring) :
  ApiKeyManager.usable k = true ->
  ApiKeyManager.text_of k <> []
  /\ truthy (trim (ApiKeyManager.text_of k)) = true.
Proof.
  destruct k as [[|c s]|]; simpl; try discriminate.
  intros H. split; [discriminate | exact H].
Qed.

(** X18.  The key that getApiKey returns is never a blank text that is
    not empty, and it is empty exactly when getApiKeySource says that no
    key is configured: the two chains of sources agree. *)
Theorem api_key_agrees_with_its_source (w : ApiKeyManager.sources) :
  (ApiKeyManager.getApiKey w = []
   \/ truthy (trim (ApiKeyManager.getApiKey w)) = true)
  /\ (ApiKeyManager.getApiKey w = []
      <-> ApiKeyManager.getApiKeySource w = js "Not Configured").
Proof.
  unfold ApiKeyManager.getApiKey, ApiKeyManager.getApiKeySource.
  destruct (ApiKeyManager.usable (ApiKeyManager.secretKey w)) eqn:E1.
  { destruct (usable_text _ E1) as [N T]. split; [now right|].
    split; [intros H; contradiction | discriminate]. }
  destruct (ApiKeyManager.usable (ApiKeyManager.envKey w)) eqn:E2.
  { destruct (usable_text _ E2) as [N T]. split; [now right|].
    split; [intros H; contradiction | discriminate]. }
  destruct (ApiKeyManager.usable (Some (ApiKeyManager.settingsKey w)))
    eqn:E3.
  { destruct (usable_text _ E3) as [N T]. split; [now right|].
    split; [intros H; contradiction | discriminate]. }
  split; [now left|]. split; reflexivity.
Qed.

(** X19.  setApiKey refuses a key that is empty or blank and stores any
    other; a key that was stored is the one that getApiKey returns,
    whatever the environment and the settings hold, and deleting it leaves
    what deleting would have left before. *)
Theorem stored_key_is_returned (apiKey : jsstring)
  (w : ApiKeyManager.sources) :
  match ApiKeyManager.setApiKey apiKey w with
  | ApiKeyManager.Done w' =>
      truthy (trim apiKey) = true
      /\ ApiKeyManager.getApiKey w' = apiKey
      /\ ApiKeyManager.getApiKeySource w' = js "SecretStorage (Secure)"
      /\ ApiKeyManager.deleteApiKey w' = ApiKeyManager.deleteApiKey w
  | ApiKeyManager.Failed message =>
      trim apiKey = [] /\ message = js "API key cannot be empty"
  end.
Proof.
  unfold ApiKeyManager.setApiKey.
  destruct (truthy apiKey) eqn:Ek; cbn [negb orb].
  - destruct (truthy (trim apiKey)) eqn:Et; cbn [negb].
    + unfold ApiKeyManager.getApiKey, ApiKeyManager.getApiKeySource,
        ApiKeyManager.usable.
      cbn [ApiKeyManager.secretKey ApiKeyManager.text_of].
      rewrite Ek, Et. cbn [andb]. repeat split.
    + split; [|reflexivity]. destruct (trim apiKey); [reflexivity|].
      discriminate.
  - destruct apiKey; [|discriminate]. split; reflexivity.
Qed.

(* ===================================================================== *)
(** * Further properties: the name of a collection *)
(* ===================================================================== *)

Lemma sanitize_chars (s : jsstring) :
  forallb StateManager.is_name_char (StateManager.sanitize s) = true
  /\ List.length (StateManager.sanitize s) = List.length s.
Proof.
  unfold StateManager.sanitize. split; [|apply length_map].
  induction s as [|c s IH]; simpl; [reflexivity|].
  rewrite IH, andb_true_r.
  destruct (StateManager.is_name_char c) eqn:E; [exact E | reflexivity].
Qed.

(** X20.  The collection name generated for a repository is made of
    lower-case letters, digits and underscores only, whatever the path,
    and is the base name, one character for one, followed by [_code]. *)
Theorem collection_name_is_sanitized
  (basename toLowerCase : jsstring -> jsstring) (repoPath : jsstring) :
  forallb StateManager.is_name_char
    (StateManager.generateCollectionName basename toLowerCase repoPath)
  = true
  /\ List.length
       (StateManager.generateCollectionName basename toLowerCase repoPath)
     = (List.length (toLowerCase (basename repoPath)) + 5)%nat
  /\ skipn (List.length (toLowerCase (basename repoPath)))
       (StateManager.generateCollectionName basename toLowerCase repoPath)
     = js "_code".
Proof.
  unfold StateManager.generateCollectionName. cbv zeta.
  destruct (sanitize_chars (toLowerCase (basename repoPath))) as [F L].
  split; [|split].
  - rewrite forallb_app, F. reflexivity.
  - rewrite length_app, L. reflexivity.
  - rewrite <- L, skipn_app, skipn_all, Nat.sub_diag. reflexivity.
Qed.

(* ===================================================================== *)
(** * Further properties: the markup of the cards *)
(* ===================================================================== *)

Lemma markup_app (a b : jsstring) :
  Cards.markup (a ++ b) = Cards.markup a ++ Cards.markup b.
Proof. apply filter_app. Qed.

(** Escaped text has no markup. *)
Lemma markup_escapeHtml (text : jsstring) :
  Cards.markup (Render._escapeHtml text) = [].
Proof.
  rewrite escapeHtml_by_char. unfold Cards.markup.
  induction text as [|c text IH]; simpl; [reflexivity|].
  rewrite filter_app, IH, app_nil_r.
  destruct (escape_char_cases c)
    as [[Hs [_ E]]|[[_ E]|[[_ E]|[[_ E]|[[_ E]|[_ E]]]]]];
    rewrite E; try reflexivity.
  simpl. unfold Render.is_html_special in Hs. unfold Cards.is_markup.
  rewrite !orb_false_iff in Hs. destruct Hs as [[[[_ H1] H2] H3] H4].
  now rewrite H1, H2, H3, H4.
Qed.

Ltac markup_of_template :=
  cbn [List.concat]; rewrite !markup_app, !markup_escapeHtml;
  reflexivity.

Lemma markup_file_card (a b : ResultsView.file_change) :
  Cards.markup (Cards.file_card a) = Cards.markup (Cards.file_card b).
Proof. unfold Cards.file_card. markup_of_template. Qed.

Lemma markup_commit_item (a b : jsstring) :
  Cards.markup (Cards.commit_item a) = Cards.markup (Cards.commit_item b).
Proof. unfold Cards.commit_item. markup_of_template. Qed.

(** The markup of cards added one after the other depends on their
    number only. *)
Lemma markup_fold {A : Type} (card : A -> jsstring) :
  (forall a b, Cards.markup (card a) = Cards.markup (card b)) ->
  forall xs ys html html',
    List.length xs = List.length ys ->
    Cards.markup html = Cards.markup html' ->
    Cards.markup (fold_left (fun html x => html ++ card x) xs html)
    = Cards.markup (fold_left (fun html x => html ++ card x) ys html').
Proof.
  intros Hc. induction xs as [|x xs IH]; intros [|y ys] html html' Hl Hh;
    simpl in *; try discriminate; [exact Hh|].
  apply IH; [lia|]. rewrite !markup_app, Hh, (Hc x y). reflexivity.
Qed.

(** X21.  The markup of the file-change cards, their angle brackets and
    quotes, depends on the number of the file changes only: no file name
    and no content adds to it or takes from it. *)
Theorem file_cards_markup_is_fixed (a b : list ResultsView.file_change) :
  List.length a = List.length b ->
  Cards.markup (Cards._buildFileChangeCards a)
  = Cards.markup (Cards._buildFileChangeCards b).
Proof.
  intros Hl. unfold Cards._buildFileChangeCards. cbv zeta.
  rewrite !(markup_app _ (js "</div>")). f_equal.
  apply (markup_fold Cards.file_card markup_file_card); [exact Hl|].
  reflexivity.
Qed.

Lemma file_cards_markup_is_fixed_witness :
  Cards.markup
    (Cards._buildFileChangeCards
       [ResultsView.FileChange (js "a<b>.ts") (js "5 > 3 & 'y'")])
  = Cards.markup
      (Cards._buildFileChangeCards
         [ResultsView.FileChange (js "README.md") (js "typo")]).
Proof.
  apply file_cards_markup_is_fixed. reflexivity.
Defined.

(** X22.  The markup of the commit list of the summary card depends on
    the number of the commits only. *)
Theorem commit_list_markup_is_fixed (a b : list jsstring) :
  List.length a = List.length b ->
  Cards.markup (Cards.commitsHtml a) = Cards.markup (Cards.commitsHtml b).
Proof.
  intros Hl. unfold Cards.commitsHtml. cbv zeta. rewrite Hl.
  destruct (0 <? List.length b)%nat; [|reflexivity].
  rewrite !(markup_app _ (js "</ul></div>")). f_equal.
  apply (markup_fold Cards.commit_item markup_commit_item); [exact Hl|].
  reflexivity.
Qed.

Lemma commit_list_markup_is_fixed_witness :
  Cards.markup (Cards.commitsHtml [js "• <script>alert(1)</script>"])
  = Cards.markup (Cards.commitsHtml [js "• Fix the parser"]).
Proof.
  apply commit_list_markup_is_fixed. reflexivity.
Defined.

(** X23.  The markup of the card of the overall summary is the same for
    every summary, and the markup of the card of the pipeline log the same
    for every log that is not empty; an empty log has no card. *)
Theorem summary_cards_markup_is_fixed (text : jsstring) :
  Cards.markup (Cards._buildOverallSummaryCard text)
  = Cards.markup (Cards._buildOverallSummaryCard [])
  /\ Cards.markup (Cards._buildPipelineInfoCard text)
     = if truthy text
       then Cards.markup (Cards._buildPipelineInfoCard (js "-"))
       else [].
Proof.
  split.
  - unfold Cards._buildOverallSummaryCard. markup_of_template.
  - unfold Cards._buildPipelineInfoCard.
    destruct (truthy text); [|reflexivity].
    change (truthy (js "-")) with true. cbn [negb]. markup_of_template.
Qed.
